(** * Frame-resource pipelining of the ShapesApp demo (Week4-6-ShapeComplete.cpp)

    A shallow embedding of the CPU-side frame loop of [ShapesApp]: the
    render-item registry, the three rotating frame resources with their
    upload buffers, the fence hand-shake with the GPU, the
    descriptor-heap addressing used when constant-buffer views are created
    and when they are bound, and the packing of the shape meshes into one
    vertex and one index buffer.

    Conventions.
    - [UINT] values are integers in [0, 2^32) and every [UINT] operation is
      followed by its reduction modulo 2^32 ([uint32]); a [UINT] stored in an
      [int] goes through [to_int].
    - [int] values are plain integers; the invariants below keep them far
      from the limits of the type.
    - A [std::vector] is a list; [operator[]] outside the vector has no
      defined behaviour and is a failure ([None]) here.
    - A raw pointer into a vector of [unique_ptr]s is the position of the
      pointee in that vector, so that a write through the pointer is seen by
      every holder of it.
    - Everything the frame loop obtains from DirectXMath, the timer and the
      camera is gathered in the record [Platform], together with the draw
      arguments of the shapes; [BuildShapeGeometry], which computes these
      draw arguments, takes the meshes of the geometry generator as
      arguments. *)

From Stdlib Require Import ZArith NArith Lia List String.
From stdpp Require Import base option list list_numbers strings gmap.

Local Open Scope Z_scope.

(** ** Machine integers *)

Definition UINT_modulus : Z := 2 ^ 32.

(** Reduction of a [UINT] result. *)
Definition uint32 (z : Z) : Z := z mod UINT_modulus.

(** Conversion of a [UINT] to [int] (two's complement). *)
Definition to_int (z : Z) : Z :=
  if z <? 2 ^ 31 then z else z - UINT_modulus.

(** [const int gNumFrameResources = 3;] *)
Definition gNumFrameResources : Z := 3.

(** Element access [v[i]] of a vector with an integer index. *)
Definition at_index {A} (v : list A) (i : Z) : option A :=
  if i <? 0 then None else v !! Z.to_nat i.

(** ** Matrices *)

(** [XMFLOAT4X4] (and [XMMATRIX], which holds the same sixteen scalars). *)
Record XMFLOAT4X4 (F : Type) := MkFloat4x4 {
  m11 : F; m12 : F; m13 : F; m14 : F;
  m21 : F; m22 : F; m23 : F; m24 : F;
  m31 : F; m32 : F; m33 : F; m34 : F;
  m41 : F; m42 : F; m43 : F; m44 : F
}.
Arguments MkFloat4x4 {F}.
Arguments m11 {F}.
Arguments m12 {F}.
Arguments m13 {F}.
Arguments m14 {F}.
Arguments m21 {F}.
Arguments m22 {F}.
Arguments m23 {F}.
Arguments m24 {F}.
Arguments m31 {F}.
Arguments m32 {F}.
Arguments m33 {F}.
Arguments m34 {F}.
Arguments m41 {F}.
Arguments m42 {F}.
Arguments m43 {F}.
Arguments m44 {F}.

(** [XMMatrixTranspose]: rows become columns. *)
Definition XMMatrixTranspose {F} (m : XMFLOAT4X4 F) : XMFLOAT4X4 F :=
  MkFloat4x4 (m11 m) (m21 m) (m31 m) (m41 m)
             (m12 m) (m22 m) (m32 m) (m42 m)
             (m13 m) (m23 m) (m33 m) (m43 m)
             (m14 m) (m24 m) (m34 m) (m44 m).

(** [XMLoadFloat4x4] and [XMStoreFloat4x4] move the sixteen scalars between
    the storage and the register type without changing them. *)
Definition XMLoadFloat4x4 {F} (m : XMFLOAT4X4 F) : XMFLOAT4X4 F := m.
Definition XMStoreFloat4x4 {F} (m : XMFLOAT4X4 F) : XMFLOAT4X4 F := m.

(** [SubmeshGeometry]: the three draw arguments kept per shape. *)
Record SubmeshGeometry := MkSubmesh {
  SubIndexCount : Z;
  SubStartIndexLocation : Z;
  SubBaseVertexLocation : Z
}.

(** ** What the application takes from its libraries

    Scalars, the matrix constructors of DirectXMath, the per-pass record
    and the sizes returned by [d3dUtil::CalcConstantBufferByteSize] are not
    part of this translation unit; the application only moves these values
    around. *)
Record Platform := MkPlatform {
  float : Type;
  (** a floating literal, by its source text *)
  FLit : string -> float;
  (** conversion of an [int] operand *)
  FOfInt : Z -> float;
  FAdd : float -> float -> float;
  FSub : float -> float -> float;
  FDiv : float -> float -> float;
  XMMatrixTranslation : float -> float -> float -> XMFLOAT4X4 float;
  XMMatrixScaling : float -> float -> float -> XMFLOAT4X4 float;
  XMMatrixRotationY : float -> XMFLOAT4X4 float;
  XMMatrixMultiply : XMFLOAT4X4 float -> XMFLOAT4X4 float -> XMFLOAT4X4 float;
  (** [MathHelper::Identity4x4()] *)
  Identity4x4 : XMFLOAT4X4 float;
  (** [PassConstants] *)
  PassConstants : Type;
  (** [mGeometries["shapeGeo"]->DrawArgs], filled by [BuildShapeGeometry] *)
  DrawArgs : string -> SubmeshGeometry;
  (** [CalcConstantBufferByteSize(sizeof(ObjectConstants))] and
      [CalcConstantBufferByteSize(sizeof(PassConstants))] *)
  objCBByteSize : Z;
  passCBByteSize : Z
}.

(** ** Upload buffers *)

(** Modelled from the spec: [UploadBuffer.h] is not among the sources.  An
    arena has a capacity fixed at construction and one record per
    position; [CopyData] ("write(index, record)") stores a record at a
    position below the capacity and fails otherwise.  A position that was
    never written holds no record. *)
Record UploadBuffer (T : Type) := MkUploadBuffer {
  mMappedData : list (option T)
}.
Arguments MkUploadBuffer {T}.
Arguments mMappedData {T}.

(** Modelled from the spec: the constructor fixes the capacity. *)
Definition UploadBuffer_new {T} (elementCount : Z) : UploadBuffer T :=
  MkUploadBuffer (replicate (Z.to_nat elementCount) None).

(** Modelled from the spec: the capacity of an arena. *)
Definition capacity {T} (b : UploadBuffer T) : Z :=
  Z.of_nat (length (mMappedData b)).

(** Modelled from the spec: "write(index, record) copies a fixed-size
    record into position index"; "index must be < capacity"; an index out
    of range "fails fast". *)
Definition CopyData {T} (elementIndex : Z) (data : T) (b : UploadBuffer T)
  : option (UploadBuffer T) :=
  if (0 <=? elementIndex) && (elementIndex <? capacity b)
  then Some (MkUploadBuffer (<[Z.to_nat elementIndex := Some data]> (mMappedData b)))
  else None.

(** The record read back at a position, if one was written there. *)
Definition record_at {T} (b : UploadBuffer T) (i : Z) : option T :=
  mjoin (at_index (mMappedData b) i).

Section Embedding.

Context {dx : Platform}.

Local Abbreviation Matrix := (XMFLOAT4X4 (float dx)).
Local Abbreviation PassC := (PassConstants dx).
Local Notation "a *m b" := (XMMatrixMultiply dx a b) (at level 40, left associativity).
Local Notation "x +f y" := (FAdd dx x y) (at level 50, left associativity).
Local Notation "x -f y" := (FSub dx x y) (at level 50, left associativity).
Local Notation "x /f y" := (FDiv dx x y) (at level 40, left associativity).
Local Abbreviation T3 := (XMMatrixTranslation dx).
Local Abbreviation S3 := (XMMatrixScaling dx).
Local Abbreviation RotY := (XMMatrixRotationY dx).
Local Abbreviation fl := (FLit dx).
Local Abbreviation n2f := (FOfInt dx).

(** ** Render items *)

(** [struct RenderItem].  [Geo] and [PrimitiveType] are the same for every
    item of this scene and are left out. *)
Record RenderItem := MkRenderItem {
  World : Matrix;
  NumFramesDirty : Z;
  ObjCBIndex : Z;
  IndexCount : Z;
  StartIndexLocation : Z;
  BaseVertexLocation : Z
}.

(** [RenderItem() = default]: the member initialisers. *)
Definition RenderItem_default : RenderItem :=
  {| World := Identity4x4 dx;
     NumFramesDirty := gNumFrameResources;
     ObjCBIndex := uint32 (-1);
     IndexCount := 0;
     StartIndexLocation := 0;
     BaseVertexLocation := 0 |}.

Definition set_NumFramesDirty (d : Z) (e : RenderItem) : RenderItem :=
  {| World := World e; NumFramesDirty := d; ObjCBIndex := ObjCBIndex e;
     IndexCount := IndexCount e; StartIndexLocation := StartIndexLocation e;
     BaseVertexLocation := BaseVertexLocation e |}.

Definition set_World (w : Matrix) (e : RenderItem) : RenderItem :=
  {| World := w; NumFramesDirty := NumFramesDirty e; ObjCBIndex := ObjCBIndex e;
     IndexCount := IndexCount e; StartIndexLocation := StartIndexLocation e;
     BaseVertexLocation := BaseVertexLocation e |}.

(** The assignments made to a freshly constructed item:
    [World], [ObjCBIndex] and the draw arguments of [shape]. *)
Definition fill_item (w : Matrix) (index : Z) (shape : string) : RenderItem :=
  {| World := XMStoreFloat4x4 w;
     NumFramesDirty := NumFramesDirty RenderItem_default;
     ObjCBIndex := index;
     IndexCount := SubIndexCount (DrawArgs dx shape);
     StartIndexLocation := SubStartIndexLocation (DrawArgs dx shape);
     BaseVertexLocation := SubBaseVertexLocation (DrawArgs dx shape) |}.

(** The state [BuildRenderItems] threads through its body: the local
    counter [objCBIndex] and the vector [mAllRitems]. *)
Definition BuildState : Type := Z * list RenderItem.

(** One item: [x->ObjCBIndex = objCBIndex++; ...; mAllRitems.push_back(x)]. *)
Definition add_item (w : Matrix) (shape : string) (s : BuildState) : BuildState :=
  let '(objCBIndex, all) := s in
  (uint32 (objCBIndex + 1), all ++ [fill_item w objCBIndex shape]).

(** The body of the wall and garden loops: two items are filled, the first
    taking [objCBIndex++] and the second the next [objCBIndex++], and then
    pushed in that order. *)
Definition add_pair (w1 w2 : Matrix) (shape : string) (s : BuildState) : BuildState :=
  let '(objCBIndex, all) := s in
  let i1 := objCBIndex in
  let c1 := uint32 (objCBIndex + 1) in
  let i2 := c1 in
  let c2 := uint32 (c1 + 1) in
  (c2, (all ++ [fill_item w1 i1 shape]) ++ [fill_item w2 i2 shape]).

(** [for (int i = 0; i < n; i++) body]. *)
Definition for_i {S} (n : Z) (body : Z -> S -> S) (s : S) : S :=
  foldl (fun acc i => body i acc) s (seqZ 0 n).

(** A straight-line block of statements. *)
Definition block {S} (stmts : list (S -> S)) (s : S) : S :=
  foldl (fun acc stmt => stmt acc) s stmts.

(** The items of [ShapesApp::BuildRenderItems], statement by statement. *)
Definition BuildRenderItems_body : list (BuildState -> BuildState) :=
  [ (* towers: cylinders *)
    add_item (T3 (fl "8.0f") (fl "3.0f") (fl "-13.0f") *m S3 (n2f 1) (n2f 1) (n2f 1)) "cylinder";
    add_item (T3 (fl "-8.0f") (fl "3.0f") (fl "-13.0f") *m S3 (n2f 1) (n2f 1) (n2f 1)) "cylinder";
    add_item (T3 (fl "-8.0f") (fl "3.0f") (fl "13.0f") *m S3 (n2f 1) (n2f 1) (n2f 1)) "cylinder";
    add_item (T3 (fl "8.0f") (fl "3.0f") (fl "13.0f") *m S3 (n2f 1) (n2f 1) (n2f 1)) "cylinder";
    (* entrance prisms *)
    add_item (T3 (fl "1.9f") (fl "0.5f") (fl "-5.75f") *m S3 (fl "1.5f") (fl "7.0f") (fl "2.25f")) "prism";
    add_item (T3 (fl "1.9f") (fl "0.5f") (fl "5.75f") *m S3 (fl "1.5f") (fl "7.0f") (fl "2.25f")
              *m RotY (fl "3.1416")) "prism";
    (* gate *)
    add_item (T3 (fl "0.0f") (fl "4.0f") (fl "-4.25f") *m S3 (fl "9.0f") (fl "2.0f") (fl "3.0f")) "box";
    add_item (T3 (fl "0.0f") (fl "10.5f") (fl "-8.5f") *m S3 (fl "4.0f") (fl "1.0f") (fl "1.5f")) "pyramid";
    (* tower cones *)
    add_item (T3 (fl "8.0f") (fl "7.0f") (fl "-13.0f") *m S3 (fl "1.0f") (fl "1.0f") (fl "1.0f")) "cone";
    add_item (T3 (fl "-8.0f") (fl "7.0f") (fl "-13.0f") *m S3 (fl "1.0f") (fl "1.0f") (fl "1.0f")) "cone";
    add_item (T3 (fl "-8.0f") (fl "7.0f") (fl "13.0f") *m S3 (fl "1.0f") (fl "1.0f") (fl "1.0f")) "cone";
    add_item (T3 (fl "8.0f") (fl "7.0f") (fl "13.0f") *m S3 (fl "1.0f") (fl "1.0f") (fl "1.0f")) "cone";
    (* spheres *)
    add_item (T3 (fl "8.0f") (fl "10.0f") (fl "-13.0f") *m S3 (fl "1.0f") (fl "1.0f") (fl "1.0f")) "sphere";
    add_item (T3 (fl "-8.0f") (fl "10.0f") (fl "-13.0f") *m S3 (fl "1.0f") (fl "1.0f") (fl "1.0f")) "sphere";
    add_item (T3 (fl "-8.0f") (fl "10.0f") (fl "13.0f") *m S3 (fl "1.0f") (fl "1.0f") (fl "1.0f")) "sphere";
    add_item (T3 (fl "8.0f") (fl "10.0f") (fl "13.0f") *m S3 (fl "1.0f") (fl "1.0f") (fl "1.0f")) "sphere";
    (* walls: left *)
    add_item (T3 (fl "-4.0f") (fl "0.5f") (fl "0.0f") *m S3 (fl "2.0f") (fl "4.0f") (fl "28.0f")) "box";
    for_i 12 (fun i => add_pair
      (T3 (fl "-8.5f") (fl "4.5f") (fl "-11.0f" +f n2f (i * 2)))
      (T3 (fl "8.5f") (fl "4.5f") (fl "-12.0f" +f n2f (i * 2)) *m RotY (fl "3.1416"))
      "wedge");
    (* walls: right *)
    add_item (T3 (fl "4.0f") (fl "0.5f") (fl "0.0f") *m S3 (fl "2.0f") (fl "4.0f") (fl "28.0f")) "box";
    for_i 12 (fun i => add_pair
      (T3 (fl "8.5f") (fl "4.5f") (fl "-11.0f" +f n2f (i * 2)))
      (T3 (fl "-8.5f") (fl "4.5f") (fl "-12.0f" +f n2f (i * 2)) *m RotY (fl "3.1416"))
      "wedge");
    (* back wall *)
    add_item (T3 (fl "0.0f") (fl "0.5f") (fl "6.5f") *m S3 (fl "14.0f") (fl "4.0f") (fl "2.0f")) "box";
    for_i 7 (fun i => add_pair
      (T3 (fl "13.5f") (fl "4.5f") (fl "-5.0f" +f n2f (i * 2)) *m RotY (fl "-3.1416" /f n2f 2))
      (T3 (fl "-13.5f") (fl "4.5f") (fl "6.0f" -f n2f (i * 2)) *m RotY (fl "3.1416" /f n2f 2))
      "wedge");
    (* front walls *)
    add_item (T3 (fl "0.95f") (fl "0.5f") (fl "-6.5f") *m S3 (fl "5.0f") (fl "4.0f") (fl "2.0f")) "box";
    add_item (T3 (fl "-0.95f") (fl "0.5f") (fl "-6.5f") *m S3 (fl "5.0f") (fl "4.0f") (fl "2.0f")) "box";
    for_i 3 (fun i => add_pair
      (T3 (fl "-13.5f") (fl "4.5f") (fl "-8.0f" +f n2f (i * 2)) *m RotY (fl "-3.1416" /f n2f 2))
      (T3 (fl "13.5f") (fl "4.5f") (fl "7.0f" -f n2f (i * 2)) *m RotY (fl "3.1416" /f n2f 2))
      "wedge");
    for_i 3 (fun i => add_pair
      (T3 (fl "-13.5f") (fl "4.5f") (fl "4.0f" +f n2f (i * 2)) *m RotY (fl "-3.1416" /f n2f 2))
      (T3 (fl "13.5f") (fl "4.5f") (fl "-3.0f" -f n2f (i * 2)) *m RotY (fl "3.1416" /f n2f 2))
      "wedge");
    (* stairs *)
    add_item (T3 (fl "0.0f") (fl "0.5f") (fl "-14.5f") *m S3 (fl "4.5f") (fl "0.5f") (fl "1.0f")) "wedge";
    add_item (T3 (fl "0.0f") (fl "0.5f") (fl "11.5f") *m S3 (fl "4.5f") (fl "0.5f") (fl "1.0f")
              *m RotY (fl "3.1416")) "wedge";
    add_item (T3 (fl "0.0f") (fl "0.5f") (fl "-6.5f") *m S3 (fl "4.5f") (fl "0.5f") (fl "2.0f")) "box";
    (* garden *)
    for_i 3 (fun i => add_pair
      (T3 (fl "-2.0f") (fl "0.0f") (fl "-5.0f" +f n2f (i * 2))
         *m S3 (fl "2.0f") (fl "2.0f" +f n2f i) (fl "2.0f"))
      (T3 (fl "2.0f") (fl "0.0f") (fl "-5.0f" +f n2f (i * 2))
         *m S3 (fl "2.0f") (fl "2.0f" +f n2f i) (fl "2.0f"))
      "sphere");
    (* house *)
    add_item (T3 (fl "0.0f") (fl "0.5f") (fl "0.5f") *m S3 (fl "13.0f") (fl "8.0f") (fl "11.0f")) "box";
    add_item (T3 (fl "0.0f") (fl "0.5f") (fl "-1.0f") *m S3 (fl "4.0f") (fl "5.0f") (fl "0.1f")) "wedge";
    (* top house *)
    add_item (T3 (fl "0.0f") (fl "5.5f") (fl "1.0f") *m S3 (fl "6.5f") (fl "2.0f") (fl "5.5f")) "pyramid";
    add_item (T3 (fl "0.0f") (fl "4.5f") (fl "0.0f") *m S3 (fl "2.0f") (fl "2.0f") (fl "2.0f")) "diamond";
    for_i 5 (fun i => add_pair
      (T3 (fl "6.0f") (fl "8.5f") (fl "0.5f" +f n2f (i * 2)))
      (T3 (fl "-6.0f") (fl "8.5f") (fl "-1.5f" -f n2f (i * 2)) *m RotY (fl "3.1416"))
      "wedge");
    for_i 5 (fun i => add_pair
      (T3 (fl "-6.0f") (fl "8.5f") (fl "0.5f" +f n2f (i * 2)))
      (T3 (fl "6.0f") (fl "8.5f") (fl "-1.5f" -f n2f (i * 2)) *m RotY (fl "3.1416"))
      "wedge");
    for_i 6 (fun i => add_pair
      (T3 (fl "10.5f") (fl "8.5f") (fl "-5.5f" +f n2f (i * 2)) *m RotY (fl "-3.1416" /f n2f 2))
      (T3 (fl "-10.5f") (fl "8.5f") (fl "4.5f" -f n2f (i * 2)) *m RotY (fl "3.1416" /f n2f 2))
      "wedge");
    for_i 6 (fun i => add_pair
      (T3 (fl "0.5f") (fl "8.5f") (fl "-5.5f" +f n2f (i * 2)) *m RotY (fl "-3.1416" /f n2f 2))
      (T3 (fl "-0.5f") (fl "8.5f") (fl "4.5f" -f n2f (i * 2)) *m RotY (fl "3.1416" /f n2f 2))
      "wedge");
    (* grid *)
    add_item (Identity4x4 dx) "grid" ].

(** [mAllRitems] as [BuildRenderItems] leaves it: [UINT objCBIndex = 0] and
    an empty vector, then the statements above. *)
Definition BuildRenderItems_all (all0 : list RenderItem) : BuildState :=
  block BuildRenderItems_body (0, all0).

(** [for (auto& e : mAllRitems) mOpaqueRitems.push_back(e.get());]
    A [RenderItem*] is the position of its pointee in [mAllRitems]. *)
Definition push_back_pointers (all : list RenderItem) (opaque : list nat) : list nat :=
  opaque ++ imap (fun k _ => k) all.

(** ** Frame resources *)

(** [struct ObjectConstants { XMFLOAT4X4 World; }], as [UpdateObjectCBs]
    fills it. *)
Record ObjectConstants := MkObjectConstants {
  ocWorld : Matrix
}.

(** Modelled from the spec: [FrameResource.h] is not among the sources.  A
    frame resource owns a pass arena, an object arena and a completion
    marker, "a monotonically increasing integer" that is 0 until the
    resource is first submitted; its constructor takes the pass count and
    the object count.  The marker is a natural number without an upper
    limit here: the width of its type is not visible in the sources (a
    64-bit counter would need 2^64 frames to come back to 0). *)
Record FrameResource := MkFrameResource {
  PassCB : UploadBuffer PassC;
  ObjectCB : UploadBuffer ObjectConstants;
  Fence : N
}.

(** Modelled from the spec: the constructor called as
    [FrameResource(device, passCount, objectCount)]; "0 means never
    submitted". *)
Definition FrameResource_new (passCount objectCount : Z) : FrameResource :=
  {| PassCB := UploadBuffer_new passCount;
     ObjectCB := UploadBuffer_new objectCount;
     Fence := 0%N |}.

Definition set_ObjectCB (cb : UploadBuffer ObjectConstants) (fr : FrameResource) :=
  {| PassCB := PassCB fr; ObjectCB := cb; Fence := Fence fr |}.
Definition set_PassCB (cb : UploadBuffer PassC) (fr : FrameResource) :=
  {| PassCB := cb; ObjectCB := ObjectCB fr; Fence := Fence fr |}.
Definition set_Fence (v : N) (fr : FrameResource) :=
  {| PassCB := PassCB fr; ObjectCB := ObjectCB fr; Fence := v |}.

(** ** The GPU side of the fence

    The fence object [mFence] holds the last value the GPU has signalled;
    [mCommandQueue->Signal(mFence, v)] queues the command that will set it
    to [v] once the GPU gets there. *)
Record Gpu := MkGpu {
  Completed : N;
  Pending : list N
}.

Definition GetCompletedValue (g : Gpu) : N := Completed g.

Definition Signal (v : N) (g : Gpu) : Gpu :=
  {| Completed := Completed g; Pending := Pending g ++ [v] |}.

(** The GPU retires its oldest queued signal. *)
Definition gpu_step (g : Gpu) : Gpu :=
  match Pending g with
  | [] => g
  | v :: rest => {| Completed := v; Pending := rest |}
  end.

Fixpoint gpu_steps (k : nat) (g : Gpu) : Gpu :=
  match k with
  | O => g
  | S k' => gpu_steps k' (gpu_step g)
  end.

(** [SetEventOnCompletion(fence, h); WaitForSingleObject(h, INFINITE)]:
    the calling thread sleeps while the GPU retires queued signals, and
    wakes once the fence has reached [fence].  With nothing left in the
    queue that could reach it, the wait never ends. *)
Fixpoint wait_pending (fence completed : N) (pending : list N) : option Gpu :=
  if (fence <=? completed)%N
  then Some {| Completed := completed; Pending := pending |}
  else match pending with
       | [] => None
       | v :: rest => wait_pending fence v rest
       end.

Definition WaitForFence (fence : N) (g : Gpu) : option Gpu :=
  wait_pending fence (Completed g) (Pending g).

(** ** Descriptors *)

Inductive BufferKind := ObjectBuffer | PassBuffer.

(** A GPU virtual address inside one of the upload buffers: the buffer (by
    frame resource and kind) and the byte offset from its start. *)
Record GpuAddress := MkGpuAddress {
  AddrFrame : Z;
  AddrKind : BufferKind;
  AddrOffset : Z
}.

(** [D3D12_CONSTANT_BUFFER_VIEW_DESC] *)
Record CBVDesc := MkCBVDesc {
  BufferLocation : GpuAddress;
  SizeInBytes : Z
}.

(** The commands of a frame that carry a descriptor or draw an item. *)
Inductive Command :=
| SetGraphicsRootDescriptorTable (rootParameterIndex : Z) (descriptorIndex : Z)
| DrawIndexedInstanced (indexCount startIndex baseVertex : Z).

(** ** The application *)

(** The members of [ShapesApp] that take part in frame pipelining.
    [mCurrFrameResource] is a pointer into [mFrameResources]; a render-item
    pointer of [mOpaqueRitems] points into [mAllRitems].  [mCurrentFence]
    is the fence counter the class takes over from [D3DApp]; like [Fence]
    it is a natural number without an upper limit.  The camera, the
    wireframe switch and the command objects do not influence any of
    these members and are left out. *)
Record ShapesApp := MkShapesApp {
  mFrameResources : list FrameResource;
  mCurrFrameResource : option nat;
  mCurrFrameResourceIndex : Z;
  mCbvHeap : list (option CBVDesc);
  mAllRitems : list RenderItem;
  mOpaqueRitems : list nat;
  mPassCbvOffset : Z;
  mCurrentFence : N
}.

(** The member initialisers; [c0] stands for the value that
    [mCurrentFence] has when [Initialize] returns (the base class advances
    the counter whenever it flushes the command queue). *)
Definition ShapesApp_new (c0 : N) : ShapesApp :=
  {| mFrameResources := [];
     mCurrFrameResource := None;
     mCurrFrameResourceIndex := 0;
     mCbvHeap := [];
     mAllRitems := [];
     mOpaqueRitems := [];
     mPassCbvOffset := 0;
     mCurrentFence := c0 |}.

Definition set_mFrameResources (v : list FrameResource) (a : ShapesApp) : ShapesApp :=
  {| mFrameResources := v; mCurrFrameResource := mCurrFrameResource a;
     mCurrFrameResourceIndex := mCurrFrameResourceIndex a; mCbvHeap := mCbvHeap a;
     mAllRitems := mAllRitems a; mOpaqueRitems := mOpaqueRitems a;
     mPassCbvOffset := mPassCbvOffset a; mCurrentFence := mCurrentFence a |}.

Definition set_current (i : Z) (p : option nat) (a : ShapesApp) : ShapesApp :=
  {| mFrameResources := mFrameResources a; mCurrFrameResource := p;
     mCurrFrameResourceIndex := i; mCbvHeap := mCbvHeap a;
     mAllRitems := mAllRitems a; mOpaqueRitems := mOpaqueRitems a;
     mPassCbvOffset := mPassCbvOffset a; mCurrentFence := mCurrentFence a |}.

Definition set_mCbvHeap (h : list (option CBVDesc)) (a : ShapesApp) : ShapesApp :=
  {| mFrameResources := mFrameResources a; mCurrFrameResource := mCurrFrameResource a;
     mCurrFrameResourceIndex := mCurrFrameResourceIndex a; mCbvHeap := h;
     mAllRitems := mAllRitems a; mOpaqueRitems := mOpaqueRitems a;
     mPassCbvOffset := mPassCbvOffset a; mCurrentFence := mCurrentFence a |}.

Definition set_mAllRitems (v : list RenderItem) (a : ShapesApp) : ShapesApp :=
  {| mFrameResources := mFrameResources a; mCurrFrameResource := mCurrFrameResource a;
     mCurrFrameResourceIndex := mCurrFrameResourceIndex a; mCbvHeap := mCbvHeap a;
     mAllRitems := v; mOpaqueRitems := mOpaqueRitems a;
     mPassCbvOffset := mPassCbvOffset a; mCurrentFence := mCurrentFence a |}.

Definition set_mOpaqueRitems (v : list nat) (a : ShapesApp) : ShapesApp :=
  {| mFrameResources := mFrameResources a; mCurrFrameResource := mCurrFrameResource a;
     mCurrFrameResourceIndex := mCurrFrameResourceIndex a; mCbvHeap := mCbvHeap a;
     mAllRitems := mAllRitems a; mOpaqueRitems := v;
     mPassCbvOffset := mPassCbvOffset a; mCurrentFence := mCurrentFence a |}.

Definition set_mPassCbvOffset (v : Z) (a : ShapesApp) : ShapesApp :=
  {| mFrameResources := mFrameResources a; mCurrFrameResource := mCurrFrameResource a;
     mCurrFrameResourceIndex := mCurrFrameResourceIndex a; mCbvHeap := mCbvHeap a;
     mAllRitems := mAllRitems a; mOpaqueRitems := mOpaqueRitems a;
     mPassCbvOffset := v; mCurrentFence := mCurrentFence a |}.

Definition set_mCurrentFence (v : N) (a : ShapesApp) : ShapesApp :=
  {| mFrameResources := mFrameResources a; mCurrFrameResource := mCurrFrameResource a;
     mCurrFrameResourceIndex := mCurrFrameResourceIndex a; mCbvHeap := mCbvHeap a;
     mAllRitems := mAllRitems a; mOpaqueRitems := mOpaqueRitems a;
     mPassCbvOffset := mPassCbvOffset a; mCurrentFence := v |}.

(** [(UINT)v.size()] *)
Definition size_uint {A} (v : list A) : Z := uint32 (Z.of_nat (length v)).

(** A loop [for (int i = 0; i < n; ++i)] whose body can fail. *)
Definition for_opt {S} (n : Z) (body : Z -> S -> option S) (s : S) : option S :=
  foldl (fun acc i => acc ≫= body i) (Some s) (seqZ 0 n).

(** ** Scene construction *)

(** [ShapesApp::BuildRenderItems] *)
Definition BuildRenderItems (a : ShapesApp) : ShapesApp :=
  let '(_, all) := BuildRenderItems_all (mAllRitems a) in
  let a1 := set_mAllRitems all a in
  set_mOpaqueRitems (push_back_pointers (mAllRitems a1) (mOpaqueRitems a1)) a1.

(** [ShapesApp::BuildFrameResources]:
    [FrameResource(md3dDevice.Get(), 1, (UINT)mAllRitems.size())], three
    times. *)
Definition BuildFrameResources (a : ShapesApp) : ShapesApp :=
  for_i gNumFrameResources
    (fun _ acc =>
       set_mFrameResources
         (mFrameResources acc ++ [FrameResource_new 1 (size_uint (mAllRitems acc))]) acc)
    a.

(** [ShapesApp::BuildDescriptorHeaps]: the heap holds [numDescriptors]
    descriptors, none of them written yet. *)
Definition BuildDescriptorHeaps (a : ShapesApp) : ShapesApp :=
  let objCount := size_uint (mOpaqueRitems a) in
  let numDescriptors := uint32 ((objCount + 1) * gNumFrameResources) in
  let a1 := set_mPassCbvOffset (uint32 (objCount * gNumFrameResources)) a in
  set_mCbvHeap (replicate (Z.to_nat numDescriptors) None) a1.

(** [i * objCBByteSize], the byte offset of record [i] in its buffer
    ([UINT * UINT]). *)
Definition element_offset (i byteSize : Z) : Z := uint32 (i * byteSize).

(** [handle.Offset(heapIndex, mCbvSrvUavDescriptorSize);
     md3dDevice->CreateConstantBufferView(&cbvDesc, handle);]
    writes descriptor number [heapIndex] of the heap. *)
Definition CreateConstantBufferView (desc : CBVDesc) (heapIndex : Z)
    (heap : list (option CBVDesc)) : option (list (option CBVDesc)) :=
  if (0 <=? heapIndex) && (heapIndex <? Z.of_nat (length heap))
  then Some (<[Z.to_nat heapIndex := Some desc]> heap)
  else None.

(** [int heapIndex = frameIndex * objCount + i;] in the object loop of
    [BuildConstantBufferViews] ([int * UINT + UINT], stored in an [int]). *)
Definition heapIndex_object (frameIndex objCount i : Z) : Z :=
  to_int (uint32 (frameIndex * objCount + i)).

(** [int heapIndex = mPassCbvOffset + frameIndex;] in the pass loop. *)
Definition heapIndex_pass (passCbvOffset frameIndex : Z) : Z :=
  to_int (uint32 (passCbvOffset + frameIndex)).

(** [ShapesApp::BuildConstantBufferViews] *)
Definition BuildConstantBufferViews (a : ShapesApp) : option ShapesApp :=
  let objCount := size_uint (mOpaqueRitems a) in
  heap1 ← for_opt gNumFrameResources
    (fun frameIndex heap =>
       _ ← at_index (mFrameResources a) frameIndex;
       for_opt objCount
         (fun i heap' =>
            let cbAddress :=
              {| AddrFrame := frameIndex; AddrKind := ObjectBuffer;
                 AddrOffset := element_offset i (objCBByteSize dx) |} in
            let heapIndex := heapIndex_object frameIndex objCount i in
            CreateConstantBufferView
              {| BufferLocation := cbAddress; SizeInBytes := objCBByteSize dx |}
              heapIndex heap')
         heap)
    (mCbvHeap a);
  heap2 ← for_opt gNumFrameResources
    (fun frameIndex heap =>
       _ ← at_index (mFrameResources a) frameIndex;
       let cbAddress :=
         {| AddrFrame := frameIndex; AddrKind := PassBuffer; AddrOffset := 0 |} in
       let heapIndex := heapIndex_pass (mPassCbvOffset a) frameIndex in
       CreateConstantBufferView
         {| BufferLocation := cbAddress; SizeInBytes := passCBByteSize dx |}
         heapIndex heap)
    heap1;
  Some (set_mCbvHeap heap2 a).

(** The part of [ShapesApp::Initialize] that builds the scene and the
    frame resources, in the order of the source. *)
Definition Initialize (c0 : N) : option ShapesApp :=
  let a := BuildRenderItems (ShapesApp_new c0) in
  let a := BuildFrameResources a in
  let a := BuildDescriptorHeaps a in
  BuildConstantBufferViews a.

(** [FlushCommandQueue()] at the end of [Initialize] leaves the GPU idle
    with the fence at the current counter value. *)
Definition gpu_init (c0 : N) : Gpu := {| Completed := c0; Pending := [] |}.

(** ** Per-frame update *)

(** The loop of [ShapesApp::UpdateObjectCBs] over [mAllRitems]. *)
Fixpoint UpdateObjectCBs_items (currObjectCB : UploadBuffer ObjectConstants)
    (items : list RenderItem)
  : option (UploadBuffer ObjectConstants * list RenderItem) :=
  match items with
  | [] => Some (currObjectCB, [])
  | e :: rest =>
      if 0 <? NumFramesDirty e then
        let world := XMLoadFloat4x4 (World e) in
        let objConstants := {| ocWorld := XMStoreFloat4x4 (XMMatrixTranspose world) |} in
        cb ← CopyData (ObjCBIndex e) objConstants currObjectCB;
        '(cb', rest') ← UpdateObjectCBs_items cb rest;
        Some (cb', set_NumFramesDirty (NumFramesDirty e - 1) e :: rest')
      else
        '(cb', rest') ← UpdateObjectCBs_items currObjectCB rest;
        Some (cb', e :: rest')
  end.

(** [ShapesApp::UpdateObjectCBs] *)
Definition UpdateObjectCBs (a : ShapesApp) : option ShapesApp :=
  p ← mCurrFrameResource a;
  fr ← mFrameResources a !! p;
  '(cb, items) ← UpdateObjectCBs_items (ObjectCB fr) (mAllRitems a);
  Some (set_mAllRitems items
          (set_mFrameResources (<[p := set_ObjectCB cb fr]> (mFrameResources a)) a)).

(** [ShapesApp::UpdateMainPassCB]; [mainPassCB] is the record the function
    assembles from the camera and the timer. *)
Definition UpdateMainPassCB (mainPassCB : PassC) (a : ShapesApp) : option ShapesApp :=
  p ← mCurrFrameResource a;
  fr ← mFrameResources a !! p;
  cb ← CopyData 0 mainPassCB (PassCB fr);
  Some (set_mFrameResources (<[p := set_PassCB cb fr]> (mFrameResources a)) a).

(** The test of [Update] that decides whether the thread waits. *)
Definition must_wait (fr : FrameResource) (g : Gpu) : bool :=
  negb (Fence fr =? 0)%N && (GetCompletedValue g <? Fence fr)%N.

(** [ShapesApp::Update].  The result carries the GPU state at the moment
    the buffers are written and whether the thread had to wait. *)
Definition Update (mainPassCB : PassC) (a : ShapesApp) (g : Gpu)
  : option (ShapesApp * Gpu * bool) :=
  let i := Z.rem (mCurrFrameResourceIndex a + 1) gNumFrameResources in
  fr ← at_index (mFrameResources a) i;
  let a1 := set_current i (Some (Z.to_nat i)) a in
  '(g1, waited) ←
     (if must_wait fr g
      then g' ← WaitForFence (Fence fr) g; Some (g', true)
      else Some (g, false));
  a2 ← UpdateObjectCBs a1;
  a3 ← UpdateMainPassCB mainPassCB a2;
  Some (a3, g1, waited).

(** ** Draw submission *)

(** [UINT cbvIndex = mCurrFrameResourceIndex * (UINT)mOpaqueRitems.size()
                     + ri->ObjCBIndex;]
    handed to [cbvHandle.Offset], whose first parameter is an [int]. *)
Definition cbvIndex (a : ShapesApp) (ri : RenderItem) : Z :=
  to_int (uint32 (mCurrFrameResourceIndex a * size_uint (mOpaqueRitems a)
                  + ObjCBIndex ri)).

(** [int passCbvIndex = mPassCbvOffset + mCurrFrameResourceIndex;] *)
Definition passCbvIndex (a : ShapesApp) : Z :=
  to_int (uint32 (mPassCbvOffset a + mCurrFrameResourceIndex a)).

(** [ShapesApp::DrawRenderItems] *)
Fixpoint DrawRenderItems (a : ShapesApp) (ritems : list nat) : option (list Command) :=
  match ritems with
  | [] => Some []
  | p :: rest =>
      ri ← mAllRitems a !! p;
      cmds ← DrawRenderItems a rest;
      Some (SetGraphicsRootDescriptorTable 0 (cbvIndex a ri)
            :: DrawIndexedInstanced (IndexCount ri) (StartIndexLocation ri)
                 (BaseVertexLocation ri)
            :: cmds)
  end.

(** [ShapesApp::Draw]: the commands recorded for the frame, the stamp on
    the current frame resource and the signal queued on the GPU. *)
Definition Draw (a : ShapesApp) (g : Gpu) : option (ShapesApp * Gpu * list Command) :=
  p ← mCurrFrameResource a;
  fr ← mFrameResources a !! p;
  items ← DrawRenderItems a (mOpaqueRitems a);
  let cmds := SetGraphicsRootDescriptorTable 1 (passCbvIndex a) :: items in
  let newFence := (mCurrentFence a + 1)%N in
  let a1 := set_mFrameResources (<[p := set_Fence newFence fr]> (mFrameResources a)) a in
  let a2 := set_mCurrentFence newFence a1 in
  Some (a2, Signal newFence g, cmds).

(** ** Produced frames *)

(** What the surroundings contribute to one frame: how many queued signals
    the GPU retires before [Update] reads the fence and before [Draw]
    submits, and the pass record of the frame. *)
Record FrameInput := MkFrameInput {
  gpuBeforeUpdate : nat;
  mainPassCB : PassC;
  gpuBeforeDraw : nat
}.

(** What one frame shows to an observer: whether [Update] waited, which
    frame resource [Draw] retired and the fence value found on it
    afterwards, and the commands recorded. *)
Record FrameOutput := MkFrameOutput {
  waited : bool;
  retired : nat;
  stamp : N;
  commands : list Command
}.

(** One turn of the message loop: [Update(mTimer); Draw(mTimer);], read
    off the state [Draw] leaves. *)
Definition Frame (inp : FrameInput) (s : ShapesApp * Gpu) : option (ShapesApp * Gpu * FrameOutput) :=
  let '(a, g) := s in
  '(a1, g1, w) ← Update (mainPassCB inp) a (gpu_steps (gpuBeforeUpdate inp) g);
  '(a2, g2, cmds) ← Draw a1 (gpu_steps (gpuBeforeDraw inp) g1);
  p ← mCurrFrameResource a2;
  fr ← mFrameResources a2 !! p;
  Some (a2, g2, {| waited := w; retired := p; stamp := Fence fr; commands := cmds |}).

Fixpoint Frames (inps : list FrameInput) (s : ShapesApp * Gpu)
  : option (ShapesApp * Gpu * list FrameOutput) :=
  match inps with
  | [] => Some (s, [])
  | inp :: rest =>
      '(a, g, out) ← Frame inp s;
      '(s', outs) ← Frames rest (a, g);
      Some (s', out :: outs)
  end.

(** ** Changing a transform *)

(** Modelled from the spec: the scene of this program is static and no
    function of the source changes a [World] after [BuildRenderItems].  The
    protocol for such a change is the one written on
    [RenderItem::NumFramesDirty] ("when we modify obect data we should set
    NumFramesDirty = gNumFrameResources") and in the data model of the
    specification (a mutation "triggers dirtyCount = N"): the item gets
    the new matrix and its counter is set to [gNumFrameResources]. *)
Definition SetWorld (k : nat) (w : Matrix) (a : ShapesApp) : ShapesApp :=
  set_mAllRitems
    (alter (fun e => set_NumFramesDirty gNumFrameResources (set_World w e)) k
       (mAllRitems a))
    a.

(** ** Runs of the program *)

Inductive Phase := BeforeUpdate | BeforeDraw.

(** The states the message loop goes through: [Update] and [Draw]
    alternate, the GPU retires signals at any moment, and a transform may
    be changed between two calls. *)
Inductive reachable : Phase -> ShapesApp -> Gpu -> Prop :=
| reach_init c0 a :
    Initialize c0 = Some a -> reachable BeforeUpdate a (gpu_init c0)
| reach_gpu ph a g :
    reachable ph a g -> reachable ph a (gpu_step g)
| reach_set_world ph a g k w :
    reachable ph a g -> reachable ph (SetWorld k w a) g
| reach_update a g pc a' g' w :
    reachable BeforeUpdate a g -> Update pc a g = Some (a', g', w) ->
    reachable BeforeDraw a' g'
| reach_draw a g a' g' cmds :
    reachable BeforeDraw a g -> Draw a g = Some (a', g', cmds) ->
    reachable BeforeUpdate a' g'.

(** The frames produced since [Initialize], oldest first, and the state
    they lead to. *)
Inductive produced (c0 : N) : list FrameOutput -> ShapesApp -> Gpu -> Prop :=
| produced_none a :
    Initialize c0 = Some a -> produced c0 [] a (gpu_init c0)
| produced_frame outs a g inp a' g' out :
    produced c0 outs a g -> Frame inp (a, g) = Some (a', g', out) ->
    produced c0 (outs ++ [out]) a' g'.

(** ** Invariants *)

(** What one pass of [UpdateObjectCBs] does to the counter of an item. *)
Definition dirty_step (e : RenderItem) : RenderItem :=
  if 0 <? NumFramesDirty e then set_NumFramesDirty (NumFramesDirty e - 1) e else e.

(** The record [UpdateObjectCBs] stores for an item. *)
Definition object_record (e : RenderItem) : ObjectConstants :=
  {| ocWorld := XMMatrixTranspose (World e) |}.

(** The value the fence will have once the GPU has retired everything
    queued so far. *)
Definition last_signal (g : Gpu) : N := List.last (Pending g) (Completed g).

(** The state [Update] leaves when it selects frame resource [i], holding
    [fr], and the two arenas of [fr] become [cb] and [pcb]. *)
Definition after_Update (a : ShapesApp) (i : Z) (fr : FrameResource)
    (cb : UploadBuffer ObjectConstants) (pcb : UploadBuffer PassC) : ShapesApp :=
  {| mFrameResources :=
       <[Z.to_nat i := {| PassCB := pcb; ObjectCB := cb; Fence := Fence fr |}]>
         (mFrameResources a);
     mCurrFrameResource := Some (Z.to_nat i);
     mCurrFrameResourceIndex := i;
     mCbvHeap := mCbvHeap a;
     mAllRitems := map dirty_step (mAllRitems a);
     mOpaqueRitems := mOpaqueRitems a;
     mPassCbvOffset := mPassCbvOffset a;
     mCurrentFence := mCurrentFence a |}.

(** The state [Draw] leaves when the current frame resource is number [p],
    holding [fr]. *)
Definition after_Draw (a : ShapesApp) (p : nat) (fr : FrameResource) : ShapesApp :=
  {| mFrameResources :=
       <[p := set_Fence (mCurrentFence a + 1)%N fr]> (mFrameResources a);
     mCurrFrameResource := mCurrFrameResource a;
     mCurrFrameResourceIndex := mCurrFrameResourceIndex a;
     mCbvHeap := mCbvHeap a;
     mAllRitems := mAllRitems a;
     mOpaqueRitems := mOpaqueRitems a;
     mPassCbvOffset := mPassCbvOffset a;
     mCurrentFence := (mCurrentFence a + 1)%N |}.

(** The two commands [DrawRenderItems] records for an item. *)
Definition item_commands (a : ShapesApp) (ri : RenderItem) : list Command :=
  [ SetGraphicsRootDescriptorTable 0 (cbvIndex a ri);
    DrawIndexedInstanced (IndexCount ri) (StartIndexLocation ri) (BaseVertexLocation ri) ].

(** The frame resource [Update] selects next. *)
Definition next_index (a : ShapesApp) : Z :=
  Z.rem (mCurrFrameResourceIndex a + 1) gNumFrameResources.

(** ** The state [Initialize] builds *)

(** The 153 items of the castle scene. *)
Definition initial_items : list RenderItem := snd (BuildRenderItems_all []).

(** The view of record [i] of the object arena of frame resource [f], and
    the view of the pass arena of frame resource [f]. *)
Definition object_view (f i : Z) : CBVDesc :=
  {| BufferLocation :=
       {| AddrFrame := f; AddrKind := ObjectBuffer;
          AddrOffset := element_offset i (objCBByteSize dx) |};
     SizeInBytes := objCBByteSize dx |}.

Definition pass_view (f : Z) : CBVDesc :=
  {| BufferLocation := {| AddrFrame := f; AddrKind := PassBuffer; AddrOffset := 0 |};
     SizeInBytes := passCBByteSize dx |}.

(** Three blocks of 153 object views, then the three pass views. *)
Definition initial_heap : list (option CBVDesc) :=
  concat (map (fun f => map (fun i => Some (object_view f i)) (seqZ 0 153)) (seqZ 0 3))
  ++ map (fun f => Some (pass_view f)) (seqZ 0 3).

Definition initial_app (c0 : N) : ShapesApp :=
  {| mFrameResources := replicate 3 (FrameResource_new 1 153);
     mCurrFrameResource := None;
     mCurrFrameResourceIndex := 0;
     mCbvHeap := initial_heap;
     mAllRitems := initial_items;
     mOpaqueRitems := seq 0 153;
     mPassCbvOffset := 459;
     mCurrentFence := c0 |}.

(** Frame resource [j] holds, at position [k] of its object arena, the
    record computed from item [e]. *)
Definition holds (a : ShapesApp) (j k : nat) (e : RenderItem) : Prop :=
  exists fr, mFrameResources a !! j = Some fr /\
             record_at (ObjectCB fr) (Z.of_nat k) = Some (object_record e).

(** Shape of the application state after [Initialize]: what the build
    functions set up and the frame loop maintains. *)
Record WF (a : ShapesApp) : Prop := MkWF {
  wf_frames : length (mFrameResources a) = 3%nat;
  wf_index : 0 <= mCurrFrameResourceIndex a < 3;
  wf_current : forall p, mCurrFrameResource a = Some p ->
                         p = Z.to_nat (mCurrFrameResourceIndex a);
  wf_count : length (mAllRitems a) = 153%nat;
  wf_capacity : forall fr, fr ∈ mFrameResources a ->
                  capacity (ObjectCB fr) = 153 /\ capacity (PassCB fr) = 1;
  wf_slot : forall k e, mAllRitems a !! k = Some e -> ObjCBIndex e = Z.of_nat k;
  wf_dirty : forall e, e ∈ mAllRitems a -> 0 <= NumFramesDirty e <= 3;
  wf_opaque : mOpaqueRitems a = seq 0 (length (mAllRitems a));
  wf_offset : mPassCbvOffset a = 459;
  wf_fence : forall fr, fr ∈ mFrameResources a -> (Fence fr <= mCurrentFence a)%N;
  wf_heap : mCbvHeap a = initial_heap
}.

(** The CPU counter and the GPU queue agree. *)
Definition Inv (a : ShapesApp) (g : Gpu) : Prop :=
  WF a /\ last_signal g = mCurrentFence a.

(** The descriptor number of a record: [slot] of the object arena, or the
    single record of the pass arena, of frame resource [frame], by the
    formulas of [BuildConstantBufferViews] with the values
    [BuildDescriptorHeaps] computed for state [a]. *)
Definition descriptor_offset (a : ShapesApp) (frame : Z) (kind : BufferKind) (slot : Z) : Z :=
  match kind with
  | ObjectBuffer => heapIndex_object frame (size_uint (mOpaqueRitems a)) slot
  | PassBuffer => heapIndex_pass (mPassCbvOffset a) frame
  end.

(** The records there are: three frame resources, one object record per
    item and one pass record (slot 0) in each. *)
Definition valid_record (a : ShapesApp) (frame : Z) (kind : BufferKind) (slot : Z) : Prop :=
  0 <= frame < gNumFrameResources /\
  match kind with
  | ObjectBuffer => 0 <= slot < size_uint (mOpaqueRitems a)
  | PassBuffer => slot = 0
  end.

(** The view [BuildConstantBufferViews] creates for a record. *)
Definition record_view (frame : Z) (kind : BufferKind) (slot : Z) : CBVDesc :=
  match kind with
  | ObjectBuffer => object_view frame slot
  | PassBuffer => pass_view frame
  end.

(** ** The pipeline between the CPU and the GPU *)

(** The signals [completed + 1], ..., [completed + count], oldest first. *)
Definition signals_after (completed : N) (count : nat) : list N :=
  map (fun i => (completed + 1 + N.of_nat i)%N) (seq 0 count).

(** The queue of a GPU that was handed every counter value up to [c] in
    turn and has retired some of them. *)
Definition queue_upto (c : N) (g : Gpu) : Prop :=
  (Completed g <= c)%N /\
  Pending g = signals_after (Completed g) (N.to_nat (c - Completed g)).

(** The number of submitted frames the GPU has not finished. *)
Definition in_flight (g : Gpu) : Z := Z.of_nat (length (Pending g)).

(** How many stamps ago frame resource [j] was stamped, if it was: 0 for
    the resource [Draw] stamped last, 2 for the one [Update] selects next. *)
Definition age (ph : Phase) (a : ShapesApp) (j : nat) : Z :=
  match ph with
  | BeforeUpdate => (mCurrFrameResourceIndex a - Z.of_nat j) mod 3
  | BeforeDraw => (mCurrFrameResourceIndex a - 1 - Z.of_nat j) mod 3
  end.

(** The most frames that can be in flight in a phase. *)
Definition flight_limit (ph : Phase) : Z :=
  match ph with BeforeUpdate => 3 | BeforeDraw => 2 end.

(** How the fences of the frame resources, the counter and the GPU queue
    hang together during a run. *)
Record Pipeline (ph : Phase) (a : ShapesApp) (g : Gpu) : Prop := MkPipeline {
  pl_queue : queue_upto (mCurrentFence a) g;
  pl_fresh : forall j fr, mFrameResources a !! j = Some fr -> Fence fr = 0%N ->
                          in_flight g <= age ph a j;
  pl_stamp : forall j fr, mFrameResources a !! j = Some fr -> Fence fr <> 0%N ->
                          Z.of_N (Fence fr) = Z.of_N (mCurrentFence a) - age ph a j;
  pl_limit : in_flight g <= flight_limit ph
}.

End Embedding.

(** * Shape geometry *)

(** The constants of [DirectX::Colors] that [BuildShapeGeometry] uses. *)
Inductive Colors :=
| Gold | ForestGreen | Crimson | SteelBlue | Black | White | Yellow | Orange | GhostWhite.

Section Geometry.

(** Positions and colours are values of DirectXMath. *)
Context {XMFLOAT3 XMFLOAT4 : Type}.

(** [GeometryGenerator::Vertex]; of its members only [Position] is read. *)
Record GeometryGenerator_Vertex := MkGeometryGenerator_Vertex {
  Position : XMFLOAT3
}.

(** [GeometryGenerator::MeshData] as [BuildShapeGeometry] reads it: the
    vertices, the 32-bit indices and the vector that [GetIndices16()]
    returns. *)
Record MeshData := MkMeshData {
  Vertices : list GeometryGenerator_Vertex;
  Indices32 : list Z;
  GetIndices16 : list Z
}.

(** [struct Vertex]: the two members that [mInputLayout] declares and
    [BuildShapeGeometry] assigns. *)
Record Vertex := MkVertex {
  Pos : XMFLOAT3;
  Color : XMFLOAT4
}.

Definition set_Pos (p : XMFLOAT3) (v : Vertex) : Vertex :=
  {| Pos := p; Color := Color v |}.
Definition set_Color (c : XMFLOAT4) (v : Vertex) : Vertex :=
  {| Pos := Pos v; Color := c |}.

(** [MeshGeometry]: of the members [BuildShapeGeometry] sets, the name,
    the packed data, the sizes and the draw arguments.  The two CPU blobs
    are represented by the vectors they are copied from. *)
Record MeshGeometry := MkMeshGeometry {
  Name : string;
  VertexBufferCPU : list Vertex;
  IndexBufferCPU : list Z;
  VertexByteStride : Z;
  VertexBufferByteSize : Z;
  IndexBufferByteSize : Z;
  Geo_DrawArgs : gmap string SubmeshGeometry
}.

(** [XMFLOAT4_of c] is [XMFLOAT4(DirectX::Colors::c)], [Vertex_default] a
    value-initialised [Vertex] and [sizeof_Vertex] is [sizeof(Vertex)]. *)
Context (XMFLOAT4_of : Colors -> XMFLOAT4).
Context (Vertex_default : Vertex).
Context (sizeof_Vertex : Z).

(** One of the nine loops
    [for (size_t i = 0; i < mesh.Vertices.size(); ++i, ++k)
     { vertices[k].Pos = mesh.Vertices[i].Position;
       vertices[k].Color = XMFLOAT4(DirectX::Colors::c); }]
    with [UINT k]; [src] is what is left of [mesh.Vertices]. *)
Fixpoint copy_vertices (src : list GeometryGenerator_Vertex) (c : Colors)
    (vertices : list Vertex) (k : Z) : option (list Vertex * Z) :=
  match src with
  | [] => Some (vertices, k)
  | v :: rest =>
      old ← at_index vertices k;
      let new := set_Color (XMFLOAT4_of c) (set_Pos (Position v) old) in
      copy_vertices rest c (<[Z.to_nat k := new]> vertices) (uint32 (k + 1))
  end.

(** [ShapesApp::BuildShapeGeometry], from the nine meshes the generator
    returned; the result is [mGeometries] with the new entry.  The offsets
    are [UINT] sums; [BaseVertexLocation] is a signed member (as
    [int RenderItem::BaseVertexLocation], which receives it), so the offset
    stored in it goes through [to_int].  [totalVertexCount] is a [size_t]
    sum of the sizes of vectors that exist in memory and is not reduced.
    [sizeof(std::uint16_t)] is 2. *)
Definition BuildShapeGeometry
    (box grid sphere cylinder cone wedge pyramid prism diamond : MeshData)
    (mGeometries : gmap string MeshGeometry) : option (gmap string MeshGeometry) :=
  let boxVertexOffset := 0 in
  let gridVertexOffset := size_uint (Vertices box) in
  let sphereVertexOffset := uint32 (gridVertexOffset + size_uint (Vertices grid)) in
  let cylinderVertexOffset := uint32 (sphereVertexOffset + size_uint (Vertices sphere)) in
  let coneVertexOffset := uint32 (cylinderVertexOffset + size_uint (Vertices cylinder)) in
  let wedgeVertexOffset := uint32 (coneVertexOffset + size_uint (Vertices cone)) in
  let pyramidVertexOffset := uint32 (wedgeVertexOffset + size_uint (Vertices wedge)) in
  let prismVertexOffset := uint32 (pyramidVertexOffset + size_uint (Vertices pyramid)) in
  let diamondVertexOffset := uint32 (prismVertexOffset + size_uint (Vertices prism)) in
  let boxIndexOffset := 0 in
  let gridIndexOffset := size_uint (Indices32 box) in
  let sphereIndexOffset := uint32 (gridIndexOffset + size_uint (Indices32 grid)) in
  let cylinderIndexOffset := uint32 (sphereIndexOffset + size_uint (Indices32 sphere)) in
  let coneIndexOffset := uint32 (cylinderIndexOffset + size_uint (Indices32 cylinder)) in
  let wedgeIndexOffset := uint32 (coneIndexOffset + size_uint (Indices32 cone)) in
  let pyramidIndexOffset := uint32 (wedgeIndexOffset + size_uint (Indices32 wedge)) in
  let prismIndexOffset := uint32 (pyramidIndexOffset + size_uint (Indices32 pyramid)) in
  let diamondIndexOffset := uint32 (prismIndexOffset + size_uint (Indices32 prism)) in
  let boxSubmesh :=
    {| SubIndexCount := size_uint (Indices32 box);
       SubStartIndexLocation := boxIndexOffset;
       SubBaseVertexLocation := to_int boxVertexOffset |} in
  let gridSubmesh :=
    {| SubIndexCount := size_uint (Indices32 grid);
       SubStartIndexLocation := gridIndexOffset;
       SubBaseVertexLocation := to_int gridVertexOffset |} in
  let sphereSubmesh :=
    {| SubIndexCount := size_uint (Indices32 sphere);
       SubStartIndexLocation := sphereIndexOffset;
       SubBaseVertexLocation := to_int sphereVertexOffset |} in
  let cylinderSubmesh :=
    {| SubIndexCount := size_uint (Indices32 cylinder);
       SubStartIndexLocation := cylinderIndexOffset;
       SubBaseVertexLocation := to_int cylinderVertexOffset |} in
  let coneSubmesh :=
    {| SubIndexCount := size_uint (Indices32 cone);
       SubStartIndexLocation := coneIndexOffset;
       SubBaseVertexLocation := to_int coneVertexOffset |} in
  let wedgeSubmesh :=
    {| SubIndexCount := size_uint (Indices32 wedge);
       SubStartIndexLocation := wedgeIndexOffset;
       SubBaseVertexLocation := to_int wedgeVertexOffset |} in
  let pyramidSubmesh :=
    {| SubIndexCount := size_uint (Indices32 pyramid);
       SubStartIndexLocation := pyramidIndexOffset;
       SubBaseVertexLocation := to_int pyramidVertexOffset |} in
  let prismSubmesh :=
    {| SubIndexCount := size_uint (Indices32 prism);
       SubStartIndexLocation := prismIndexOffset;
       SubBaseVertexLocation := to_int prismVertexOffset |} in
  let diamondSubmesh :=
    {| SubIndexCount := size_uint (Indices32 diamond);
       SubStartIndexLocation := diamondIndexOffset;
       SubBaseVertexLocation := to_int diamondVertexOffset |} in
  let totalVertexCount :=
    (length (Vertices box) + length (Vertices grid) + length (Vertices sphere)
     + length (Vertices cylinder) + length (Vertices cone) + length (Vertices wedge)
     + length (Vertices pyramid) + length (Vertices prism)
     + length (Vertices diamond))%nat in
  let vertices := replicate totalVertexCount Vertex_default in
  let k := 0 in
  '(vertices, k) ← copy_vertices (Vertices box) Gold vertices k;
  '(vertices, k) ← copy_vertices (Vertices grid) ForestGreen vertices k;
  '(vertices, k) ← copy_vertices (Vertices sphere) Crimson vertices k;
  '(vertices, k) ← copy_vertices (Vertices cylinder) SteelBlue vertices k;
  '(vertices, k) ← copy_vertices (Vertices cone) Black vertices k;
  '(vertices, k) ← copy_vertices (Vertices wedge) White vertices k;
  '(vertices, k) ← copy_vertices (Vertices pyramid) Yellow vertices k;
  '(vertices, k) ← copy_vertices (Vertices prism) Orange vertices k;
  '(vertices, k) ← copy_vertices (Vertices diamond) GhostWhite vertices k;
  let indices := [] in
  let indices := indices ++ GetIndices16 box in
  let indices := indices ++ GetIndices16 grid in
  let indices := indices ++ GetIndices16 sphere in
  let indices := indices ++ GetIndices16 cylinder in
  let indices := indices ++ GetIndices16 cone in
  let indices := indices ++ GetIndices16 wedge in
  let indices := indices ++ GetIndices16 pyramid in
  let indices := indices ++ GetIndices16 prism in
  let indices := indices ++ GetIndices16 diamond in
  let vbByteSize := uint32 (size_uint vertices * sizeof_Vertex) in
  let ibByteSize := uint32 (size_uint indices * 2) in
  let drawArgs : gmap string SubmeshGeometry := ∅ in
  let drawArgs := <["box" := boxSubmesh]> drawArgs in
  let drawArgs := <["grid" := gridSubmesh]> drawArgs in
  let drawArgs := <["sphere" := sphereSubmesh]> drawArgs in
  let drawArgs := <["cylinder" := cylinderSubmesh]> drawArgs in
  let drawArgs := <["cone" := coneSubmesh]> drawArgs in
  let drawArgs := <["wedge" := wedgeSubmesh]> drawArgs in
  let drawArgs := <["pyramid" := pyramidSubmesh]> drawArgs in
  let drawArgs := <["prism" := prismSubmesh]> drawArgs in
  let drawArgs := <["diamond" := diamondSubmesh]> drawArgs in
  let geo :=
    {| Name := "shapeGeo";
       VertexBufferCPU := vertices;
       IndexBufferCPU := indices;
       VertexByteStride := sizeof_Vertex;
       VertexBufferByteSize := vbByteSize;
       IndexBufferByteSize := ibByteSize;
       Geo_DrawArgs := drawArgs |} in
  Some (<[Name geo := geo]> mGeometries).

(** ** The shapes in buffer order *)

(** A shape of the scene: the name it is registered under, its mesh and
    the colour its vertices get. *)
Record Shape := MkShape {
  shape_name : string;
  shape_mesh : MeshData;
  shape_colour : Colors
}.

(** The nine shapes in the order in which [BuildShapeGeometry] packs
    them. *)
Definition shape_table
    (box grid sphere cylinder cone wedge pyramid prism diamond : MeshData) : list Shape :=
  [ MkShape "box" box Gold; MkShape "grid" grid ForestGreen;
    MkShape "sphere" sphere Crimson; MkShape "cylinder" cylinder SteelBlue;
    MkShape "cone" cone Black; MkShape "wedge" wedge White;
    MkShape "pyramid" pyramid Yellow; MkShape "prism" prism Orange;
    MkShape "diamond" diamond GhostWhite ].

(** The number of vertices and of indices of the first [k] shapes. *)
Definition vertices_before (t : list Shape) (k : nat) : nat :=
  sum_list (map (fun s => length (Vertices (shape_mesh s))) (take k t)).

Definition indices_before (t : list Shape) (k : nat) : nat :=
  sum_list (map (fun s => length (Indices32 (shape_mesh s))) (take k t)).

(** The vertex a shape's vertex becomes in the packed buffer. *)
Definition packed_vertex (s : Shape) (v : GeometryGenerator_Vertex) : Vertex :=
  {| Pos := Position v; Color := XMFLOAT4_of (shape_colour s) |}.

End Geometry.

(** ** A term model of the platform

    Scalars are kept as expressions and the DirectXMath constructors build
    their matrices entry by entry, so that different transforms stay
    different. *)
Module TermModel.

Inductive Scalar :=
| SLit (text : string)
| SInt (z : Z)
| SAdd (x y : Scalar)
| SSub (x y : Scalar)
| SMul (x y : Scalar)
| SDiv (x y : Scalar)
| SSin (x : Scalar)
| SCos (x : Scalar).

Definition s0 : Scalar := SInt 0.
Definition s1 : Scalar := SInt 1.

Definition translation (x y z : Scalar) : XMFLOAT4X4 Scalar :=
  MkFloat4x4 s1 s0 s0 s0  s0 s1 s0 s0  s0 s0 s1 s0  x y z s1.

Definition scaling (x y z : Scalar) : XMFLOAT4X4 Scalar :=
  MkFloat4x4 x s0 s0 s0  s0 y s0 s0  s0 s0 z s0  s0 s0 s0 s1.

Definition rotationY (t : Scalar) : XMFLOAT4X4 Scalar :=
  MkFloat4x4 (SCos t) s0 (SSub s0 (SSin t)) s0
             s0 s1 s0 s0
             (SSin t) s0 (SCos t) s0
             s0 s0 s0 s1.

Definition dot4 (a1 a2 a3 a4 b1 b2 b3 b4 : Scalar) : Scalar :=
  SAdd (SAdd (SAdd (SMul a1 b1) (SMul a2 b2)) (SMul a3 b3)) (SMul a4 b4).

Definition multiply (a b : XMFLOAT4X4 Scalar) : XMFLOAT4X4 Scalar :=
  let row r1 r2 r3 r4 k :=
    match k with
    | 1%nat => dot4 r1 r2 r3 r4 (m11 b) (m21 b) (m31 b) (m41 b)
    | 2%nat => dot4 r1 r2 r3 r4 (m12 b) (m22 b) (m32 b) (m42 b)
    | 3%nat => dot4 r1 r2 r3 r4 (m13 b) (m23 b) (m33 b) (m43 b)
    | _ => dot4 r1 r2 r3 r4 (m14 b) (m24 b) (m34 b) (m44 b)
    end in
  let r1 := row (m11 a) (m12 a) (m13 a) (m14 a) in
  let r2 := row (m21 a) (m22 a) (m23 a) (m24 a) in
  let r3 := row (m31 a) (m32 a) (m33 a) (m34 a) in
  let r4 := row (m41 a) (m42 a) (m43 a) (m44 a) in
  MkFloat4x4 (r1 1%nat) (r1 2%nat) (r1 3%nat) (r1 4%nat)
             (r2 1%nat) (r2 2%nat) (r2 3%nat) (r2 4%nat)
             (r3 1%nat) (r3 2%nat) (r3 3%nat) (r3 4%nat)
             (r4 1%nat) (r4 2%nat) (r4 3%nat) (r4 4%nat).

Definition drawArgs (shape : string) : SubmeshGeometry :=
  {| SubIndexCount := Z.of_nat (String.length shape);
     SubStartIndexLocation := 0;
     SubBaseVertexLocation := 0 |}.

(** The pass record of a frame is represented by a frame number. *)
Definition platform : Platform :=
  {| float := Scalar;
     FLit := SLit;
     FOfInt := SInt;
     FAdd := SAdd;
     FSub := SSub;
     FDiv := SDiv;
     XMMatrixTranslation := translation;
     XMMatrixScaling := scaling;
     XMMatrixRotationY := rotationY;
     XMMatrixMultiply := multiply;
     Identity4x4 := scaling s1 s1 s1;
     PassConstants := nat;
     DrawArgs := drawArgs;
     objCBByteSize := 256;
     passCBByteSize := 512 |}.

(** A frame during which the GPU retires nothing, with pass record [k]. *)
Definition input (k : nat) : FrameInput (dx:=platform) :=
  MkFrameInput (dx:=platform) 0 k 0.

(** A frame before which the GPU retires one signal. *)
Definition input_gpu (k : nat) : FrameInput (dx:=platform) :=
  MkFrameInput (dx:=platform) 1 k 0.

(** Two matrices to move an item to. *)
Definition w1 : XMFLOAT4X4 Scalar := translation (SLit "1.0f") (SLit "2.0f") (SLit "3.0f").
Definition w2 : XMFLOAT4X4 Scalar := translation (SLit "4.0f") (SLit "5.0f") (SLit "6.0f").

(** The run that starts with counter 7. *)
Definition start : ShapesApp (dx:=platform) * Gpu := (initial_app 7, gpu_init 7).

(** Its state after [Update] of the first frame. *)
Definition after_first_update : ShapesApp (dx:=platform) * Gpu :=
  Eval vm_compute in
    match Update (dx:=platform) 1%nat (fst start) (snd start) with
    | Some (a, g, _) => (a, g)
    | None => start
    end.

(** Its state after three frames, the GPU still idle. *)
Definition after_three_frames : ShapesApp (dx:=platform) * Gpu :=
  Eval vm_compute in
    match Frames [input 1; input 2; input 3] start with
    | Some (a, g, _) => (a, g)
    | None => start
    end.

(** Item 5 is moved to [w1] and one frame is produced. *)
Definition after_move_and_frame : ShapesApp (dx:=platform) * Gpu :=
  Eval vm_compute in
    match Frames [input 1] (SetWorld (dx:=platform) 5 w1 (fst start), snd start) with
    | Some (a, g, _) => (a, g)
    | None => start
    end.


(** Nine small meshes: a position is a number and a colour value is the
    colour's name. *)
Definition mesh (first : Z) (count : nat) (indices : list Z) : MeshData (XMFLOAT3:=Z) :=
  {| Vertices := map MkGeometryGenerator_Vertex (seqZ first (Z.of_nat count));
     Indices32 := indices;
     GetIndices16 := indices |}.

Definition box : MeshData := mesh 100 4 [0; 1; 2; 0; 2; 3].
Definition grid : MeshData := mesh 200 4 [0; 1; 2; 1; 3; 2].
Definition sphere : MeshData := mesh 300 3 [0; 1; 2].
Definition cylinder : MeshData := mesh 400 3 [0; 2; 1].
Definition cone : MeshData := mesh 500 3 [1; 2; 0].
Definition wedge : MeshData := mesh 600 3 [2; 1; 0].
Definition pyramid : MeshData := mesh 700 4 [0; 1; 3; 1; 2; 3].
Definition prism : MeshData := mesh 800 3 [2; 0; 1].
Definition diamond : MeshData := mesh 900 3 [1; 0; 2].

Definition no_vertex : Vertex (XMFLOAT3:=Z) (XMFLOAT4:=Colors) :=
  {| Pos := 0; Color := Black |}.

(** The geometry [BuildShapeGeometry] makes of them. *)
Definition geometries : gmap string MeshGeometry :=
  default ∅ (BuildShapeGeometry (fun c => c) no_vertex 28
               box grid sphere cylinder cone wedge pyramid prism diamond ∅).

Definition shapeGeo : MeshGeometry :=
  default (MkMeshGeometry "" [] [] 0 0 0 ∅) (geometries !! "shapeGeo"%string).

(** The platform whose draw arguments are read from that geometry. *)
Definition geometry_platform : Platform :=
  {| float := Scalar;
     FLit := SLit;
     FOfInt := SInt;
     FAdd := SAdd;
     FSub := SSub;
     FDiv := SDiv;
     XMMatrixTranslation := translation;
     XMMatrixScaling := scaling;
     XMMatrixRotationY := rotationY;
     XMMatrixMultiply := multiply;
     Identity4x4 := scaling s1 s1 s1;
     PassConstants := nat;
     DrawArgs := fun name => default (MkSubmesh 0 0 0) (Geo_DrawArgs shapeGeo !! name);
     objCBByteSize := 256;
     passCBByteSize := 512 |}.

(** Three frame resources for two items. *)
Definition two_items : ShapesApp (dx:=platform) :=
  set_mOpaqueRitems [0; 1]%nat (BuildFrameResources (ShapesApp_new 0)).

End TermModel.

(** * Properties *)

Section Proofs.

Context {dx : Platform}.

Local Abbreviation Matrix := (XMFLOAT4X4 (float dx)).
Local Abbreviation RItem := (RenderItem (dx:=dx)).
Local Abbreviation ObjCB := (UploadBuffer (ObjectConstants (dx:=dx))).

(** ** Vectors and upload buffers *)

Lemma at_index_Some {A} (v : list A) (i : Z) (x : A) :
  at_index v i = Some x <-> 0 <= i /\ v !! Z.to_nat i = Some x.
Proof.
  unfold at_index. destruct (Z.ltb_spec i 0); split.
  - discriminate.
  - intros [Hi _]. lia.
  - auto.
  - intros [_ Hx]. exact Hx.
Qed.

Lemma at_index_nat {A} (v : list A) (k : nat) :
  at_index v (Z.of_nat k) = v !! k.
Proof.
  unfold at_index. destruct (Z.ltb_spec (Z.of_nat k) 0); [lia|].
  now rewrite Nat2Z.id.
Qed.

Lemma CopyData_inv {T} (i : Z) (d : T) (b b' : UploadBuffer T) :
  CopyData i d b = Some b' ->
  0 <= i < capacity b /\
  b' = MkUploadBuffer (<[Z.to_nat i := Some d]> (mMappedData b)).
Proof.
  unfold CopyData.
  destruct (Z.leb_spec 0 i); destruct (Z.ltb_spec i (capacity b)); simpl;
    intros E; inversion E; split; (lia || reflexivity).
Qed.

Lemma CopyData_Some {T} (i : Z) (d : T) (b : UploadBuffer T) :
  0 <= i < capacity b ->
  CopyData i d b = Some (MkUploadBuffer (<[Z.to_nat i := Some d]> (mMappedData b))).
Proof.
  intros [H0 H1]. unfold CopyData.
  destruct (Z.leb_spec 0 i); [|lia].
  destruct (Z.ltb_spec i (capacity b)); [|lia]. reflexivity.
Qed.

Lemma capacity_CopyData {T} (i : Z) (d : T) (b b' : UploadBuffer T) :
  CopyData i d b = Some b' -> capacity b' = capacity b.
Proof.
  intros E. apply CopyData_inv in E as [_ ->].
  unfold capacity. simpl. now rewrite length_insert.
Qed.

Lemma record_at_CopyData_eq {T} (i : Z) (d : T) (b b' : UploadBuffer T) :
  CopyData i d b = Some b' -> record_at b' i = Some d.
Proof.
  intros E. apply CopyData_inv in E as [[H0 H1] ->].
  unfold record_at, at_index, capacity in *. simpl.
  destruct (Z.ltb_spec i 0); [lia|].
  rewrite list_lookup_insert_eq by lia. reflexivity.
Qed.

Lemma record_at_CopyData_ne {T} (i j : Z) (d : T) (b b' : UploadBuffer T) :
  CopyData i d b = Some b' -> j <> i -> record_at b' j = record_at b j.
Proof.
  intros E Hne. apply CopyData_inv in E as [[H0 H1] ->].
  unfold record_at, at_index. simpl.
  destruct (Z.ltb_spec j 0); [reflexivity|].
  rewrite list_lookup_insert_ne by lia. reflexivity.
Qed.

(** ** The loop of [UpdateObjectCBs] *)

Lemma UpdateObjectCBs_items_inv (items : list RItem) :
  forall (cb cb' : ObjCB) items',
    UpdateObjectCBs_items cb items = Some (cb', items') ->
    items' = map dirty_step items /\ capacity cb' = capacity cb.
Proof.
  induction items as [|e rest IH]; intros cb cb' items' E; simpl in E.
  - inversion E. auto.
  - unfold dirty_step at 1. simpl.
    destruct (0 <? NumFramesDirty e).
    + destruct (CopyData _ _ cb) as [cb1|] eqn:EC; [|discriminate]. simpl in E.
      destruct (UpdateObjectCBs_items cb1 rest) as [[cb2 rest2]|] eqn:ER;
        [|discriminate]. simpl in E. inversion E; subst.
      apply IH in ER as [-> Hc]. split; [reflexivity|].
      rewrite Hc. eapply capacity_CopyData; eauto.
    + destruct (UpdateObjectCBs_items cb rest) as [[cb2 rest2]|] eqn:ER;
        [|discriminate]. simpl in E. inversion E; subst.
      apply IH in ER as [-> Hc]. auto.
Qed.

Lemma UpdateObjectCBs_items_Some (items : list RItem) :
  forall cb : ObjCB,
    (forall e, e ∈ items -> 0 <= ObjCBIndex e < capacity cb) ->
    exists cb', UpdateObjectCBs_items cb items = Some (cb', map dirty_step items).
Proof.
  induction items as [|e rest IH]; intros cb Hin; simpl.
  - eauto.
  - unfold dirty_step at 1.
    destruct (0 <? NumFramesDirty e).
    + rewrite CopyData_Some by (apply Hin; left). simpl.
      destruct (IH (MkUploadBuffer
                      (<[Z.to_nat (ObjCBIndex e) :=
                           Some {| ocWorld :=
                                     XMStoreFloat4x4
                                       (XMMatrixTranspose (XMLoadFloat4x4 (World e))) |}]>
                         (mMappedData cb)))) as [cb' E].
      { intros e' He'. unfold capacity. simpl. rewrite length_insert.
        apply Hin. now right. }
      rewrite E. simpl. eauto.
    + destruct (IH cb) as [cb' E].
      { intros e' He'. apply Hin. now right. }
      rewrite E. simpl. eauto.
Qed.

(** A position no dirty item is registered at keeps its record. *)
Lemma UpdateObjectCBs_items_keep (items : list RItem) :
  forall (cb cb' : ObjCB) items' j,
    UpdateObjectCBs_items cb items = Some (cb', items') ->
    (forall e, e ∈ items -> 0 < NumFramesDirty e -> ObjCBIndex e <> j) ->
    record_at cb' j = record_at cb j.
Proof.
  induction items as [|e rest IH]; intros cb cb' items' j E Hj; simpl in E.
  - inversion E. reflexivity.
  - destruct (Z.ltb_spec 0 (NumFramesDirty e)).
    + destruct (CopyData _ _ cb) as [cb1|] eqn:EC; [|discriminate]. simpl in E.
      destruct (UpdateObjectCBs_items cb1 rest) as [[cb2 rest2]|] eqn:ER;
        [|discriminate]. simpl in E. inversion E; subst.
      rewrite (IH _ _ _ j ER) by (intros; apply Hj; [now right|assumption]).
      eapply record_at_CopyData_ne; eauto.
      intros ->. eapply Hj; [left|assumption|reflexivity].
    + destruct (UpdateObjectCBs_items cb rest) as [[cb2 rest2]|] eqn:ER;
        [|discriminate]. simpl in E. inversion E; subst.
      eapply IH; eauto. intros; apply Hj; [now right|assumption].
Qed.

(** A dirty item finds its transposed matrix at its own position, provided
    no other item shares that position. *)
Lemma UpdateObjectCBs_items_write (items : list RItem) :
  forall (cb cb' : ObjCB) items' e,
    UpdateObjectCBs_items cb items = Some (cb', items') ->
    NoDup (map ObjCBIndex items) ->
    e ∈ items -> 0 < NumFramesDirty e ->
    record_at cb' (ObjCBIndex e) = Some (object_record e).
Proof.
  induction items as [|x rest IH]; intros cb cb' items' e E Hnd He Hd; simpl in E.
  - inversion He.
  - simpl in Hnd. apply NoDup_cons in Hnd as [Hx Hnd].
    apply elem_of_cons in He as [->|He].
    + destruct (Z.ltb_spec 0 (NumFramesDirty x)); [|lia].
      destruct (CopyData _ _ cb) as [cb1|] eqn:EC; [|discriminate]. simpl in E.
      destruct (UpdateObjectCBs_items cb1 rest) as [[cb2 rest2]|] eqn:ER;
        [|discriminate]. simpl in E. inversion E; subst.
      rewrite (UpdateObjectCBs_items_keep _ _ _ _ (ObjCBIndex x) ER).
      * eapply record_at_CopyData_eq; eauto.
      * intros e' He' _ Heq. apply Hx. rewrite <- Heq.
        apply list_elem_of_fmap. eauto.
    + destruct (0 <? NumFramesDirty x).
      * destruct (CopyData _ _ cb) as [cb1|] eqn:EC; [|discriminate]. simpl in E.
        destruct (UpdateObjectCBs_items cb1 rest) as [[cb2 rest2]|] eqn:ER;
          [|discriminate]. simpl in E. inversion E; subst.
        eapply IH; eauto.
      * destruct (UpdateObjectCBs_items cb rest) as [[cb2 rest2]|] eqn:ER;
          [|discriminate]. simpl in E. inversion E; subst.
        eapply IH; eauto.
Qed.

(** ** The GPU queue *)

Lemma last_cons_default {A} (l : list A) (v c : A) :
  List.last (v :: l) c = List.last l v.
Proof.
  revert v c. induction l as [|x l IH]; intros v c; [reflexivity|].
  change (List.last (v :: x :: l) c) with (List.last (x :: l) c).
  rewrite !IH. reflexivity.
Qed.

Lemma last_signal_step (g : Gpu) : last_signal (gpu_step g) = last_signal g.
Proof.
  unfold last_signal, gpu_step. destruct g as [c [|v rest]]; simpl; [reflexivity|].
  symmetry. apply (last_cons_default rest v c).
Qed.

Lemma last_signal_steps (k : nat) (g : Gpu) :
  last_signal (gpu_steps k g) = last_signal g.
Proof.
  revert g. induction k as [|k IH]; intros g; simpl; [reflexivity|].
  rewrite IH. apply last_signal_step.
Qed.

Lemma last_signal_Signal (v : N) (g : Gpu) : last_signal (Signal v g) = v.
Proof. unfold last_signal, Signal. simpl. apply last_last. Qed.

Lemma wait_pending_inv (pending : list N) :
  forall fence completed g',
    wait_pending fence completed pending = Some g' ->
    (fence <= Completed g')%N /\
    last_signal g' = List.last pending completed.
Proof.
  induction pending as [|v rest IH]; intros fence completed g' E; simpl in E.
  - destruct (N.leb_spec fence completed); [|discriminate].
    inversion E; subst. simpl. auto.
  - destruct (N.leb_spec fence completed).
    + inversion E; subst. simpl. auto.
    + apply IH in E as [H1 H2]. split; [assumption|].
      rewrite H2. symmetry. apply last_cons_default.
Qed.

Lemma wait_pending_Some (pending : list N) :
  forall fence completed,
    (fence <= List.last pending completed)%N ->
    is_Some (wait_pending fence completed pending).
Proof.
  induction pending as [|v rest IH]; intros fence completed Hle; simpl.
  - simpl in Hle. destruct (N.leb_spec fence completed); [eauto|lia].
  - destruct (N.leb_spec fence completed); [eauto|].
    apply IH. now rewrite <- (last_cons_default rest v completed).
Qed.

Lemma WaitForFence_inv (fence : N) (g g' : Gpu) :
  WaitForFence fence g = Some g' ->
  (fence <= Completed g')%N /\ last_signal g' = last_signal g.
Proof. apply wait_pending_inv. Qed.

Lemma WaitForFence_Some (fence : N) (g : Gpu) :
  (fence <= last_signal g)%N -> is_Some (WaitForFence fence g).
Proof. apply wait_pending_Some. Qed.

Lemma must_wait_true (fr : FrameResource (dx:=dx)) (g : Gpu) :
  must_wait fr g = true <-> Fence fr <> 0%N /\ (GetCompletedValue g < Fence fr)%N.
Proof.
  unfold must_wait. rewrite andb_true_iff, negb_true_iff, N.eqb_neq, N.ltb_lt.
  reflexivity.
Qed.

Lemma must_wait_false (fr : FrameResource (dx:=dx)) (g : Gpu) :
  must_wait fr g = false <-> Fence fr = 0%N \/ (Fence fr <= GetCompletedValue g)%N.
Proof.
  unfold must_wait. rewrite andb_false_iff, negb_false_iff, N.eqb_eq, N.ltb_ge.
  reflexivity.
Qed.

(** ** [Update] and [Draw] on a well-formed state *)

Lemma next_index_range (a : ShapesApp (dx:=dx)) :
  WF a -> 0 <= next_index a < 3.
Proof.
  intros Hwf. destruct (wf_index a Hwf) as [H0 H3].
  unfold next_index, gNumFrameResources.
  rewrite Z.rem_mod_nonneg by lia.
  apply Z.mod_pos_bound. lia.
Qed.

Lemma next_index_lookup (a : ShapesApp (dx:=dx)) :
  WF a -> exists fr, mFrameResources a !! Z.to_nat (next_index a) = Some fr.
Proof.
  intros Hwf. pose proof (next_index_range a Hwf).
  apply lookup_lt_is_Some. rewrite (wf_frames a Hwf). lia.
Qed.

Lemma Update_inv (pc : PassConstants dx) (a a' : ShapesApp) (g g' : Gpu) (w : bool) :
  Update pc a g = Some (a', g', w) ->
  exists fr cb pcb,
    0 <= next_index a /\
    mFrameResources a !! Z.to_nat (next_index a) = Some fr /\
    w = must_wait fr g /\
    (if w then WaitForFence (Fence fr) g = Some g' else g' = g) /\
    UpdateObjectCBs_items (ObjectCB fr) (mAllRitems a)
      = Some (cb, map dirty_step (mAllRitems a)) /\
    CopyData 0 pc (PassCB fr) = Some pcb /\
    a' = after_Update a (next_index a) fr cb pcb.
Proof.
  intros E. unfold Update in E. fold (next_index a) in E.
  destruct (at_index (mFrameResources a) (next_index a)) as [fr|] eqn:Hfr;
    simpl in E; [|discriminate].
  apply at_index_Some in Hfr as [Hi Hfr].
  assert (Hlt : (Z.to_nat (next_index a) < length (mFrameResources a))%nat)
    by (eapply lookup_lt_Some; eauto).
  assert (exists g1, (if must_wait fr g then WaitForFence (Fence fr) g = Some g1 else g1 = g)
            /\ (a2 ← UpdateObjectCBs (set_current (next_index a) (Some (Z.to_nat (next_index a))) a);
                a3 ← UpdateMainPassCB pc a2;
                Some (a3, g1, must_wait fr g)) = Some (a', g', w)) as (g1 & Hg1 & E1).
  { destruct (must_wait fr g).
    - destruct (WaitForFence (Fence fr) g) as [gw|]; simpl in E; [|discriminate]. eauto.
    - simpl in E. eauto. }
  clear E. unfold UpdateObjectCBs in E1. simpl in E1. rewrite Hfr in E1. simpl in E1.
  destruct (UpdateObjectCBs_items (ObjectCB fr) (mAllRitems a)) as [[cb items]|] eqn:EI;
    simpl in E1; [|discriminate].
  apply UpdateObjectCBs_items_inv in EI as Hitems. destruct Hitems as [-> _].
  unfold UpdateMainPassCB in E1. simpl in E1.
  rewrite list_lookup_insert_eq in E1 by assumption. simpl in E1.
  destruct (CopyData 0 pc (PassCB fr)) as [pcb|] eqn:EP; simpl in E1; [|discriminate].
  inversion E1; subst. exists fr, cb, pcb.
  repeat split; try assumption.
  unfold after_Update, set_mFrameResources, set_mAllRitems, set_current, set_PassCB,
    set_ObjectCB. simpl. rewrite list_insert_insert_eq. reflexivity.
Qed.

Lemma Update_Some (pc : PassConstants dx) (a : ShapesApp) (g : Gpu) :
  WF a ->
  (forall fr, mFrameResources a !! Z.to_nat (next_index a) = Some fr ->
              must_wait fr g = true -> is_Some (WaitForFence (Fence fr) g)) ->
  is_Some (Update pc a g).
Proof.
  intros Hwf Hwait.
  destruct (next_index_lookup a Hwf) as [fr Hfr].
  pose proof (next_index_range a Hwf) as Hi.
  assert (Hlt : (Z.to_nat (next_index a) < length (mFrameResources a))%nat)
    by (eapply lookup_lt_Some; eauto).
  assert (Hin : fr ∈ mFrameResources a) by (eapply list_elem_of_lookup_2; eauto).
  destruct (wf_capacity a Hwf fr Hin) as [Hoc Hpc].
  unfold Update. fold (next_index a).
  assert (Hat : at_index (mFrameResources a) (next_index a) = Some fr)
    by (apply at_index_Some; split; [lia|assumption]).
  rewrite Hat. simpl.
  assert (exists g1 w, (if must_wait fr g
                        then g' ← WaitForFence (Fence fr) g; Some (g', true)
                        else Some (g, false)) = Some (g1, w)) as (g1 & w & ->).
  { destruct (must_wait fr g) eqn:Hm.
    - destruct (Hwait fr Hfr Hm) as [gw ->]. simpl. eauto.
    - eauto. }
  simpl. unfold UpdateObjectCBs. simpl. rewrite Hfr. simpl.
  destruct (UpdateObjectCBs_items_Some (mAllRitems a) (ObjectCB fr)) as [cb ->].
  { intros e He. apply list_elem_of_lookup_1 in He as [k Hk].
    rewrite (wf_slot a Hwf k e Hk), Hoc.
    apply lookup_lt_Some in Hk. rewrite (wf_count a Hwf) in Hk. lia. }
  simpl. unfold UpdateMainPassCB. simpl.
  rewrite list_lookup_insert_eq by assumption. simpl.
  rewrite CopyData_Some by (rewrite Hpc; lia). simpl. eauto.
Qed.

Lemma DrawRenderItems_seq (a : ShapesApp (dx:=dx)) (rest : list RenderItem) :
  forall pre,
    mAllRitems a = pre ++ rest ->
    DrawRenderItems a (seq (length pre) (length rest))
      = Some (concat (map (item_commands a) rest)).
Proof.
  induction rest as [|ri rest IH]; intros pre Hall; simpl; [reflexivity|].
  assert (Hri : mAllRitems a !! length pre = Some ri).
  { rewrite Hall. rewrite lookup_app_r by lia.
    replace (length pre - length pre)%nat with 0%nat by lia. reflexivity. }
  rewrite Hri. simpl.
  specialize (IH (pre ++ [ri])).
  rewrite length_app in IH. simpl in IH.
  replace (length pre + 1)%nat with (S (length pre)) in IH by lia.
  rewrite IH by (rewrite <- app_assoc; exact Hall).
  reflexivity.
Qed.

Lemma DrawRenderItems_all (a : ShapesApp (dx:=dx)) :
  WF a ->
  DrawRenderItems a (mOpaqueRitems a)
    = Some (concat (map (item_commands a) (mAllRitems a))).
Proof.
  intros Hwf. rewrite (wf_opaque a Hwf).
  apply (DrawRenderItems_seq a (mAllRitems a) []). reflexivity.
Qed.

Lemma Draw_inv (a a' : ShapesApp (dx:=dx)) (g g' : Gpu) (cmds : list Command) :
  WF a -> Draw a g = Some (a', g', cmds) ->
  exists p fr,
    mCurrFrameResource a = Some p /\
    mFrameResources a !! p = Some fr /\
    a' = after_Draw a p fr /\
    g' = Signal (mCurrentFence a + 1)%N g /\
    cmds = SetGraphicsRootDescriptorTable 1 (passCbvIndex a)
             :: concat (map (item_commands a) (mAllRitems a)).
Proof.
  intros Hwf E. unfold Draw in E.
  destruct (mCurrFrameResource a) as [p|]; simpl in E; [|discriminate].
  destruct (mFrameResources a !! p) as [fr|] eqn:Hfr; simpl in E; [|discriminate].
  rewrite (DrawRenderItems_all a Hwf) in E. simpl in E.
  inversion E; subst. exists p, fr. repeat split; assumption || reflexivity.
Qed.

Lemma Draw_Some (a : ShapesApp (dx:=dx)) (g : Gpu) (p : nat) :
  WF a -> mCurrFrameResource a = Some p -> is_Some (Draw a g).
Proof.
  intros Hwf Hp. unfold Draw. rewrite Hp. simpl.
  assert (Hlt : (p < length (mFrameResources a))%nat).
  { rewrite (wf_current a Hwf p Hp), (wf_frames a Hwf).
    destruct (wf_index a Hwf). lia. }
  destruct (lookup_lt_is_Some_2 _ _ Hlt) as [fr ->]. simpl.
  rewrite (DrawRenderItems_all a Hwf). simpl. eauto.
Qed.

(** ** [Initialize] *)

Lemma Initialize_eq (c0 : N) : Initialize (dx:=dx) c0 = Some (initial_app c0).
Proof. lazy -[element_offset]. reflexivity. Qed.

Lemma initial_items_slots : map ObjCBIndex (initial_items (dx:=dx)) = seqZ 0 153.
Proof. vm_compute. reflexivity. Qed.

Lemma initial_items_dirty :
  map NumFramesDirty (initial_items (dx:=dx)) = replicate 153 gNumFrameResources.
Proof. vm_compute. reflexivity. Qed.

Lemma initial_items_length : length (initial_items (dx:=dx)) = 153%nat.
Proof. vm_compute. reflexivity. Qed.

Lemma WF_initial (c0 : N) : WF (initial_app (dx:=dx) c0).
Proof.
  constructor; simpl.
  - reflexivity.
  - lia.
  - discriminate.
  - apply initial_items_length.
  - intros fr Hfr. rewrite !elem_of_cons, elem_of_nil in Hfr.
    destruct Hfr as [->|[->|[->|[]]]]; split; reflexivity.
  - intros k e Hk.
    assert (H : map ObjCBIndex initial_items !! k = Some (ObjCBIndex e))
      by (rewrite list_lookup_fmap, Hk; reflexivity).
    rewrite initial_items_slots in H. apply lookup_seqZ in H as [-> _]. lia.
  - intros e He.
    assert (H : NumFramesDirty e ∈ map NumFramesDirty initial_items)
      by (apply list_elem_of_fmap; eauto).
    rewrite initial_items_dirty in H. apply elem_of_replicate in H as [-> _].
    unfold gNumFrameResources. lia.
  - vm_compute. reflexivity.
  - reflexivity.
  - intros fr Hfr. rewrite !elem_of_cons, elem_of_nil in Hfr.
    destruct Hfr as [->|[->|[->|[]]]]; simpl; lia.
  - reflexivity.
Qed.

(** ** Preservation of the state shape *)

Lemma dirty_step_ObjCBIndex (e : RItem) : ObjCBIndex (dirty_step e) = ObjCBIndex e.
Proof. unfold dirty_step. destruct (0 <? NumFramesDirty e); reflexivity. Qed.

Lemma dirty_step_World (e : RItem) : World (dirty_step e) = World e.
Proof. unfold dirty_step. destruct (0 <? NumFramesDirty e); reflexivity. Qed.

Lemma dirty_step_NumFramesDirty (e : RItem) :
  NumFramesDirty (dirty_step e)
  = if 0 <? NumFramesDirty e then NumFramesDirty e - 1 else NumFramesDirty e.
Proof. unfold dirty_step. destruct (0 <? NumFramesDirty e); reflexivity. Qed.

Lemma elem_of_insert_inv {A} (l : list A) (i : nat) (x y : A) :
  y ∈ <[i := x]> l -> y = x \/ y ∈ l.
Proof.
  intros Hy. apply list_elem_of_lookup_1 in Hy as [j Hj].
  apply list_lookup_insert_Some in Hj as [(_ & -> & _)|[_ Hj]]; [now left|].
  right. eapply list_elem_of_lookup_2; eauto.
Qed.

Lemma WF_after_Update (a : ShapesApp (dx:=dx)) (fr : FrameResource)
    (cb : ObjCB) (pcb : UploadBuffer (PassConstants dx)) :
  WF a ->
  mFrameResources a !! Z.to_nat (next_index a) = Some fr ->
  capacity cb = capacity (ObjectCB fr) ->
  capacity pcb = capacity (PassCB fr) ->
  WF (after_Update a (next_index a) fr cb pcb).
Proof.
  intros Hwf Hfr Hcb Hpcb.
  assert (Hin : fr ∈ mFrameResources a) by (eapply list_elem_of_lookup_2; eauto).
  constructor; unfold after_Update; cbn -[dirty_step].
  - rewrite length_insert. apply (wf_frames a Hwf).
  - apply next_index_range, Hwf.
  - intros p E. now inversion E.
  - rewrite length_map. apply (wf_count a Hwf).
  - intros fr' Hfr'. apply elem_of_insert_inv in Hfr' as [->|Hfr'].
    + cbn. rewrite Hcb, Hpcb. apply (wf_capacity a Hwf fr Hin).
    + apply (wf_capacity a Hwf fr' Hfr').
  - intros k e Hk. rewrite list_lookup_fmap in Hk.
    destruct (mAllRitems a !! k) as [e0|] eqn:Hk0; [|discriminate].
    cbn in Hk. inversion Hk; subst.
    rewrite dirty_step_ObjCBIndex. apply (wf_slot a Hwf k e0 Hk0).
  - intros e He. apply list_elem_of_fmap in He as (e0 & -> & He0).
    pose proof (wf_dirty a Hwf e0 He0).
    rewrite dirty_step_NumFramesDirty.
    destruct (Z.ltb_spec 0 (NumFramesDirty e0)); lia.
  - rewrite length_map. apply (wf_opaque a Hwf).
  - apply (wf_offset a Hwf).
  - intros fr' Hfr'. apply elem_of_insert_inv in Hfr' as [->|Hfr'].
    + cbn. apply (wf_fence a Hwf fr Hin).
    + apply (wf_fence a Hwf fr' Hfr').
  - apply (wf_heap a Hwf).
Qed.

Lemma WF_after_Draw (a : ShapesApp (dx:=dx)) (p : nat) (fr : FrameResource) :
  WF a -> mFrameResources a !! p = Some fr -> WF (after_Draw a p fr).
Proof.
  intros Hwf Hfr.
  assert (Hin : fr ∈ mFrameResources a) by (eapply list_elem_of_lookup_2; eauto).
  constructor; unfold after_Draw; cbn.
  - rewrite length_insert. apply (wf_frames a Hwf).
  - apply (wf_index a Hwf).
  - apply (wf_current a Hwf).
  - apply (wf_count a Hwf).
  - intros fr' Hfr'. apply elem_of_insert_inv in Hfr' as [->|Hfr'].
    + cbn. apply (wf_capacity a Hwf fr Hin).
    + apply (wf_capacity a Hwf fr' Hfr').
  - apply (wf_slot a Hwf).
  - apply (wf_dirty a Hwf).
  - apply (wf_opaque a Hwf).
  - apply (wf_offset a Hwf).
  - intros fr' Hfr'. apply elem_of_insert_inv in Hfr' as [->|Hfr'].
    + cbn. lia.
    + pose proof (wf_fence a Hwf fr' Hfr'). lia.
  - apply (wf_heap a Hwf).
Qed.

Lemma WF_SetWorld (a : ShapesApp (dx:=dx)) (k : nat) (w : Matrix) :
  WF a -> WF (SetWorld k w a).
Proof.
  intros Hwf. constructor; unfold SetWorld; cbn.
  - apply (wf_frames a Hwf).
  - apply (wf_index a Hwf).
  - apply (wf_current a Hwf).
  - rewrite length_alter. apply (wf_count a Hwf).
  - apply (wf_capacity a Hwf).
  - intros j e Hj. rewrite list_lookup_alter in Hj.
    destruct (decide (k = j)) as [->|Hne].
    + destruct (mAllRitems a !! j) as [e0|] eqn:Hj0; [|discriminate].
      cbn in Hj. inversion Hj; subst. cbn. apply (wf_slot a Hwf j e0 Hj0).
    + apply (wf_slot a Hwf j e Hj).
  - intros e He. apply list_elem_of_lookup_1 in He as [j Hj].
    rewrite list_lookup_alter in Hj.
    destruct (decide (k = j)) as [->|Hne].
    + destruct (mAllRitems a !! j) as [e0|] eqn:Hj0; [|discriminate].
      cbn in Hj. inversion Hj; subst. cbn. unfold gNumFrameResources. lia.
    + apply (wf_dirty a Hwf). eapply list_elem_of_lookup_2; eauto.
  - rewrite length_alter. apply (wf_opaque a Hwf).
  - apply (wf_offset a Hwf).
  - apply (wf_fence a Hwf).
  - apply (wf_heap a Hwf).
Qed.

Lemma WF_Update (pc : PassConstants dx) (a a' : ShapesApp) (g g' : Gpu) (w : bool) :
  WF a -> Update pc a g = Some (a', g', w) -> WF a'.
Proof.
  intros Hwf E.
  apply Update_inv in E as (fr & cb & pcb & _ & Hfr & _ & _ & HI & HP & ->).
  apply WF_after_Update; try assumption.
  - now apply UpdateObjectCBs_items_inv in HI as [_ ?].
  - eapply capacity_CopyData; eauto.
Qed.

Lemma WF_Draw (a a' : ShapesApp (dx:=dx)) (g g' : Gpu) (cmds : list Command) :
  WF a -> Draw a g = Some (a', g', cmds) -> WF a'.
Proof.
  intros Hwf E.
  apply Draw_inv in E as (p & fr & _ & Hfr & -> & _ & _); [|assumption].
  now apply WF_after_Draw.
Qed.

(** Every state of a run is well formed, the GPU queue ends at the CPU
    counter, and a frame resource is current whenever [Draw] is next. *)
Lemma reachable_Inv (ph : Phase) (a : ShapesApp (dx:=dx)) (g : Gpu) :
  reachable ph a g ->
  Inv a g /\ (ph = BeforeDraw -> is_Some (mCurrFrameResource a)).
Proof.
  induction 1 as [c0 a E|ph a g _ [[Hwf Hlast] Hcur]|ph a g k w _ [[Hwf Hlast] Hcur]
                 |a g pc a' g' w _ [[Hwf Hlast] _] E|a g a' g' cmds _ [[Hwf Hlast] _] E].
  - rewrite Initialize_eq in E. inversion E; subst.
    split; [split|discriminate]; [apply WF_initial|reflexivity].
  - split; [split|assumption]; [assumption|].
    now rewrite last_signal_step.
  - split; [split|exact Hcur]; [now apply WF_SetWorld|exact Hlast].
  - split; [split|].
    + eapply WF_Update; eauto.
    + apply Update_inv in E as (fr & cb & pcb & _ & _ & -> & Hg & _ & _ & ->).
      cbn. destruct (must_wait fr g).
      * apply WaitForFence_inv in Hg as [_ ->]. exact Hlast.
      * subst. exact Hlast.
    + intros _. apply Update_inv in E as (fr & cb & pcb & _ & _ & _ & _ & _ & _ & ->).
      cbn. eauto.
  - split; [split|discriminate].
    + eapply WF_Draw; eauto.
    + apply Draw_inv in E as (p & fr & _ & _ & -> & -> & _); [|assumption].
      cbn. apply last_signal_Signal.
Qed.

Lemma reachable_WF (ph : Phase) (a : ShapesApp (dx:=dx)) (g : Gpu) :
  reachable ph a g -> WF a.
Proof. intros H. apply reachable_Inv in H. apply H. Qed.

(** On a run the wait of [Update] always ends: the signal it waits for is
    in the queue or already retired. *)
Lemma reachable_Update_Some (a : ShapesApp (dx:=dx)) (g : Gpu) (pc : PassConstants dx) :
  reachable BeforeUpdate a g -> is_Some (Update pc a g).
Proof.
  intros H. apply reachable_Inv in H as [[Hwf Hlast] _].
  apply Update_Some; [assumption|].
  intros fr Hfr _. apply WaitForFence_Some. rewrite Hlast.
  apply (wf_fence a Hwf). eapply list_elem_of_lookup_2; eauto.
Qed.

Lemma reachable_Draw_Some (a : ShapesApp (dx:=dx)) (g : Gpu) :
  reachable BeforeDraw a g -> is_Some (Draw a g).
Proof.
  intros H. apply reachable_Inv in H as [[Hwf _] Hcur].
  destruct (Hcur eq_refl) as [p Hp]. eapply Draw_Some; eauto.
Qed.

(** ** One frame *)

Lemma Frame_inv (inp : FrameInput) (a a' : ShapesApp (dx:=dx)) (g g' : Gpu) (out : FrameOutput) :
  Frame inp (a, g) = Some (a', g', out) ->
  exists a1 g1 cmds p fr,
    Update (mainPassCB inp) a (gpu_steps (gpuBeforeUpdate inp) g)
      = Some (a1, g1, waited out) /\
    Draw a1 (gpu_steps (gpuBeforeDraw inp) g1) = Some (a', g', cmds) /\
    mCurrFrameResource a' = Some p /\
    mFrameResources a' !! p = Some fr /\
    out = {| waited := waited out; retired := p; stamp := Fence fr; commands := cmds |}.
Proof.
  intros E. unfold Frame in E.
  destruct (Update _ _ _) as [[[a1 g1] w]|] eqn:EU; simpl in E; [|discriminate].
  destruct (Draw _ _) as [[[a2 g2] cmds]|] eqn:ED; simpl in E; [|discriminate].
  destruct (mCurrFrameResource a2) as [p|] eqn:Hp; simpl in E; [|discriminate].
  destruct (mFrameResources a2 !! p) as [fr|] eqn:Hfr; simpl in E; [|discriminate].
  inversion E; subst. exists a1, g1, cmds, p, fr. simpl.
  repeat split; reflexivity || assumption.
Qed.

Lemma reachable_gpu_steps (k : nat) (ph : Phase) (a : ShapesApp (dx:=dx)) (g : Gpu) :
  reachable ph a g -> reachable ph a (gpu_steps k g).
Proof.
  revert g. induction k as [|k IH]; intros g H; simpl; [assumption|].
  apply IH. now constructor.
Qed.

Lemma reachable_Frame (inp : FrameInput) (a a' : ShapesApp (dx:=dx)) (g g' : Gpu)
    (out : FrameOutput) :
  reachable BeforeUpdate a g -> Frame inp (a, g) = Some (a', g', out) ->
  reachable BeforeUpdate a' g'.
Proof.
  intros H E. apply Frame_inv in E as (a1 & g1 & cmds & _ & _ & EU & ED & _).
  eapply reach_draw; [|exact ED].
  apply reachable_gpu_steps.
  eapply reach_update; [|exact EU].
  now apply reachable_gpu_steps.
Qed.

Lemma reachable_Frame_Some (inp : FrameInput) (a : ShapesApp (dx:=dx)) (g : Gpu) :
  reachable BeforeUpdate a g -> is_Some (Frame inp (a, g)).
Proof.
  intros H. unfold Frame.
  pose proof (reachable_gpu_steps (gpuBeforeUpdate inp) _ _ _ H) as H1.
  destruct (reachable_Update_Some _ _ (mainPassCB inp) H1) as [[[a1 g1] w] EU].
  rewrite EU. simpl.
  pose proof (reach_update _ _ _ _ _ _ H1 EU) as H2.
  apply (reachable_gpu_steps (gpuBeforeDraw inp)) in H2.
  destruct (reachable_Draw_Some _ _ H2) as [[[a2 g2] cmds] ED].
  rewrite ED. simpl.
  pose proof (reach_draw _ _ _ _ _ H2 ED) as H3.
  pose proof (reachable_WF _ _ _ H2) as Hwf.
  apply Draw_inv in ED as (p & fr & Hp & Hfr & -> & _ & _); [|assumption].
  cbn. rewrite Hp. simpl.
  rewrite list_lookup_insert_eq by (eapply lookup_lt_Some; eauto).
  simpl. eauto.
Qed.

Lemma Frames_cons_inv (inp : FrameInput) (rest : list FrameInput)
    (s s' : ShapesApp (dx:=dx) * Gpu) (outs : list FrameOutput) :
  Frames (inp :: rest) s = Some (s', outs) ->
  exists a1 g1 out outs2,
    Frame inp s = Some (a1, g1, out) /\
    Frames rest (a1, g1) = Some (s', outs2) /\
    outs = out :: outs2.
Proof.
  intros E. cbn [Frames] in E.
  destruct (Frame inp s) as [[[a1 g1] out]|] eqn:EF; [|discriminate].
  cbn [mbind option_bind] in E.
  destruct (Frames rest (a1, g1)) as [[s2 outs2]|] eqn:ER; [|discriminate].
  cbn [mbind option_bind] in E. inversion E; subst.
  exists a1, g1, out, outs2. auto.
Qed.

Lemma reachable_Frames (inps : list FrameInput) :
  forall (a : ShapesApp (dx:=dx)) (g : Gpu) a' g' outs,
    reachable BeforeUpdate a g -> Frames inps (a, g) = Some (a', g', outs) ->
    reachable BeforeUpdate a' g'.
Proof.
  induction inps as [|inp rest IH]; intros a g a' g' outs H E.
  - inversion E; subst. assumption.
  - apply Frames_cons_inv in E as (a1 & g1 & out & outs2 & EF & ER & ->).
    eapply IH; [|exact ER]. eapply reachable_Frame; eauto.
Qed.

Lemma reachable_Frames_Some (inps : list FrameInput) :
  forall (a : ShapesApp (dx:=dx)) (g : Gpu),
    reachable BeforeUpdate a g -> is_Some (Frames inps (a, g)).
Proof.
  induction inps as [|inp rest IH]; intros a g H; [simpl; eauto|].
  cbn [Frames].
  destruct (reachable_Frame_Some inp a g H) as [[[a1 g1] out] EF].
  rewrite EF. cbn [mbind option_bind].
  destruct (IH a1 g1) as [[[a2 g2] outs] ER]; [eapply reachable_Frame; eauto|].
  rewrite ER. cbn. eauto.
Qed.

Lemma Frames_length (inps : list FrameInput) :
  forall (s : ShapesApp (dx:=dx) * Gpu) s' outs,
    Frames inps s = Some (s', outs) -> length outs = length inps.
Proof.
  induction inps as [|inp rest IH]; intros s s' outs E.
  - inversion E. reflexivity.
  - apply Frames_cons_inv in E as (a1 & g1 & out & outs2 & EF & ER & ->).
    simpl. f_equal. eapply IH; eauto.
Qed.

Lemma produced_reachable (c0 : N) (outs : list FrameOutput) (a : ShapesApp (dx:=dx)) (g : Gpu) :
  produced c0 outs a g -> reachable BeforeUpdate a g.
Proof.
  induction 1 as [a E|outs a g inp a' g' out _ IH E].
  - now constructor.
  - eapply reachable_Frame; eauto.
Qed.

Lemma Frames_produced (inps : list FrameInput) :
  forall c0 outs (a : ShapesApp (dx:=dx)) g a' g' outs',
    produced c0 outs a g -> Frames inps (a, g) = Some (a', g', outs') ->
    produced c0 (outs ++ outs') a' g'.
Proof.
  induction inps as [|inp rest IH]; intros c0 outs a g a' g' outs' H E.
  - inversion E; subst. now rewrite app_nil_r.
  - apply Frames_cons_inv in E as (a1 & g1 & out & outs2 & EF & ER & ->).
    replace (outs ++ out :: outs2) with ((outs ++ [out]) ++ outs2)
      by (rewrite <- app_assoc; reflexivity).
    eapply IH; [|exact ER]. econstructor; eauto.
Qed.

Lemma Frame_shape (inp : FrameInput) (a a' : ShapesApp (dx:=dx)) (g g' : Gpu) (out : FrameOutput) :
  WF a -> Frame inp (a, g) = Some (a', g', out) ->
  exists fr cb pcb,
    mFrameResources a !! Z.to_nat (next_index a) = Some fr /\
    UpdateObjectCBs_items (ObjectCB fr) (mAllRitems a)
      = Some (cb, map dirty_step (mAllRitems a)) /\
    CopyData 0 (mainPassCB inp) (PassCB fr) = Some pcb /\
    waited out = must_wait fr (gpu_steps (gpuBeforeUpdate inp) g) /\
    retired out = Z.to_nat (next_index a) /\
    stamp out = (mCurrentFence a + 1)%N /\
    a' = after_Draw (after_Update a (next_index a) fr cb pcb) (Z.to_nat (next_index a))
           {| PassCB := pcb; ObjectCB := cb; Fence := Fence fr |}.
Proof.
  intros Hwf E.
  apply Frame_inv in E as (a1 & g1 & cmds & p & fr' & EU & ED & Hp & Hfr' & Hout).
  pose proof (WF_Update _ _ _ _ _ _ Hwf EU) as Hwf1.
  apply Update_inv in EU as (fr & cb & pcb & Hi & Hfr & Hw & _ & HI & HP & ->).
  apply Draw_inv in ED as (p1 & fr1 & Hp1 & Hfr1 & -> & _ & _); [|assumption].
  assert (Hlt : (Z.to_nat (next_index a) < length (mFrameResources a))%nat)
    by (eapply lookup_lt_Some; eauto).
  cbn in Hp1. inversion Hp1; subst p1. clear Hp1.
  cbn in Hfr1. rewrite list_lookup_insert_eq in Hfr1 by assumption.
  inversion Hfr1; subst fr1. clear Hfr1.
  cbn in Hp. inversion Hp; subst p. clear Hp.
  cbn in Hfr'. rewrite list_lookup_insert_eq in Hfr'
    by (rewrite length_insert; assumption).
  inversion Hfr'; subst fr'. clear Hfr'.
  exists fr, cb, pcb. rewrite Hout. cbn.
  repeat split; assumption || reflexivity.
Qed.

Lemma WF_NoDup (a : ShapesApp (dx:=dx)) : WF a -> NoDup (map ObjCBIndex (mAllRitems a)).
Proof.
  intros Hwf. apply NoDup_alt. intros i j x Hi Hj.
  rewrite list_lookup_fmap in Hi, Hj.
  destruct (mAllRitems a !! i) as [ei|] eqn:Ei; [|discriminate].
  destruct (mAllRitems a !! j) as [ej|] eqn:Ej; [|discriminate].
  cbn in Hi, Hj. inversion Hi. inversion Hj.
  rewrite (wf_slot a Hwf i ei Ei) in *. rewrite (wf_slot a Hwf j ej Ej) in *.
  lia.
Qed.

(** What the loop leaves at position [k] of the arena it writes. *)
Lemma UpdateObjectCBs_items_at (a : ShapesApp (dx:=dx)) (cb0 cb : ObjCB) items'
    (k : nat) (e : RItem) :
  WF a -> mAllRitems a !! k = Some e ->
  UpdateObjectCBs_items cb0 (mAllRitems a) = Some (cb, items') ->
  record_at cb (Z.of_nat k)
  = if 0 <? NumFramesDirty e then Some (object_record e) else record_at cb0 (Z.of_nat k).
Proof.
  intros Hwf Hk E.
  assert (He : e ∈ mAllRitems a) by (eapply list_elem_of_lookup_2; eauto).
  rewrite <- (wf_slot a Hwf k e Hk).
  destruct (Z.ltb_spec 0 (NumFramesDirty e)).
  - eapply UpdateObjectCBs_items_write; eauto. now apply WF_NoDup.
  - eapply UpdateObjectCBs_items_keep; eauto.
    intros e' He' Hd' Heq.
    apply list_elem_of_lookup_1 in He' as [k' Hk'].
    rewrite (wf_slot a Hwf k' e' Hk'), (wf_slot a Hwf k e Hk) in Heq.
    assert (k' = k) by lia. subst k'.
    rewrite Hk in Hk'. inversion Hk'; subst. lia.
Qed.

Lemma object_record_dirty_step (e : RItem) :
  object_record (dirty_step e) = object_record e.
Proof. unfold object_record. now rewrite dirty_step_World. Qed.

(** The frame pushes a dirty item into the arena it selects. *)
Lemma Frame_holds_new (inp : FrameInput) (a a' : ShapesApp (dx:=dx)) (g g' : Gpu)
    (out : FrameOutput) (k : nat) (e : RItem) :
  WF a -> Frame inp (a, g) = Some (a', g', out) ->
  mAllRitems a !! k = Some e -> 0 < NumFramesDirty e ->
  holds a' (Z.to_nat (next_index a)) k e.
Proof.
  intros Hwf E Hk Hd.
  apply Frame_shape in E as (fr & cb & pcb & Hfr & HI & _ & _ & _ & _ & ->);
    [|assumption].
  assert (Hlt : (Z.to_nat (next_index a) < length (mFrameResources a))%nat)
    by (eapply lookup_lt_Some; eauto).
  eexists. split.
  - cbn. apply list_lookup_insert_eq. rewrite length_insert. assumption.
  - cbn. rewrite (UpdateObjectCBs_items_at a _ _ _ k e Hwf Hk HI).
    destruct (Z.ltb_spec 0 (NumFramesDirty e)); [reflexivity|lia].
Qed.

(** A record that is in place stays in place. *)
Lemma Frame_holds_stable (inp : FrameInput) (a a' : ShapesApp (dx:=dx)) (g g' : Gpu)
    (out : FrameOutput) (j k : nat) (e : RItem) :
  WF a -> Frame inp (a, g) = Some (a', g', out) ->
  mAllRitems a !! k = Some e ->
  holds a j k e -> holds a' j k e.
Proof.
  intros Hwf E Hk (fr0 & Hj & Hrec).
  apply Frame_shape in E as (fr & cb & pcb & Hfr & HI & _ & _ & _ & _ & ->);
    [|assumption].
  assert (Hlt : (Z.to_nat (next_index a) < length (mFrameResources a))%nat)
    by (eapply lookup_lt_Some; eauto).
  destruct (decide (j = Z.to_nat (next_index a))) as [->|Hne].
  - rewrite Hfr in Hj. inversion Hj; subst fr0.
    eexists. split.
    + cbn. apply list_lookup_insert_eq. rewrite length_insert. assumption.
    + cbn. rewrite (UpdateObjectCBs_items_at a _ _ _ k e Hwf Hk HI).
      destruct (0 <? NumFramesDirty e); [reflexivity|assumption].
  - exists fr0. split; [|assumption].
    cbn. rewrite !list_lookup_insert_ne by auto. assumption.
Qed.

Lemma Frame_item (inp : FrameInput) (a a' : ShapesApp (dx:=dx)) (g g' : Gpu)
    (out : FrameOutput) (k : nat) (e : RItem) :
  WF a -> Frame inp (a, g) = Some (a', g', out) ->
  mAllRitems a !! k = Some e ->
  mAllRitems a' !! k = Some (dirty_step e) /\
  mCurrFrameResourceIndex a' = next_index a.
Proof.
  intros Hwf E Hk.
  apply Frame_shape in E as (fr & cb & pcb & _ & _ & _ & _ & _ & _ & ->);
    [|assumption].
  cbn -[dirty_step]. rewrite list_lookup_fmap, Hk. auto.
Qed.

(** ** Several frames *)

Lemma next_index_cases (a : ShapesApp (dx:=dx)) :
  WF a ->
  (mCurrFrameResourceIndex a = 0 /\ next_index a = 1) \/
  (mCurrFrameResourceIndex a = 1 /\ next_index a = 2) \/
  (mCurrFrameResourceIndex a = 2 /\ next_index a = 0).
Proof.
  intros Hwf. destruct (wf_index a Hwf) as [H0 H3]. unfold next_index.
  assert (H : mCurrFrameResourceIndex a = 0 \/ mCurrFrameResourceIndex a = 1
              \/ mCurrFrameResourceIndex a = 2) by lia.
  destruct H as [-> | [-> | ->]]; [left|right;left|right;right]; split; reflexivity.
Qed.

Lemma holds_dirty_step (a : ShapesApp (dx:=dx)) (j k : nat) (e : RItem) :
  holds a j k (dirty_step e) -> holds a j k e.
Proof. unfold holds. now rewrite object_record_dirty_step. Qed.

Lemma holds_dirty_step_inv (a : ShapesApp (dx:=dx)) (j k : nat) (e : RItem) :
  holds a j k e -> holds a j k (dirty_step e).
Proof. unfold holds. now rewrite object_record_dirty_step. Qed.

(** The counter of an item after a number of frames. *)
Lemma Frames_item (inps : list FrameInput) :
  forall (a a' : ShapesApp (dx:=dx)) (g g' : Gpu) outs (k : nat) (e : RItem),
    reachable BeforeUpdate a g ->
    Frames inps (a, g) = Some (a', g', outs) ->
    mAllRitems a !! k = Some e ->
    exists e', mAllRitems a' !! k = Some e' /\
               World e' = World e /\ ObjCBIndex e' = ObjCBIndex e /\
               NumFramesDirty e'
               = Z.max 0 (NumFramesDirty e - Z.of_nat (length inps)).
Proof.
  induction inps as [|inp rest IH]; intros a a' g g' outs k e Hr E Hk.
  - inversion E; subst. exists e. repeat split; try assumption.
    assert (He : e ∈ mAllRitems a') by (eapply list_elem_of_lookup_2; eauto).
    pose proof (wf_dirty a' (reachable_WF _ _ _ Hr) e He). simpl. lia.
  - apply Frames_cons_inv in E as (a1 & g1 & out & outs2 & EF & ER & ->).
    pose proof (reachable_WF _ _ _ Hr) as Hwf.
    destruct (Frame_item _ _ _ _ _ _ k e Hwf EF Hk) as [Hk1 _].
    destruct (IH a1 a' g1 g' outs2 k (dirty_step e)) as (e' & Hk' & HW & HI & HD);
      [eapply reachable_Frame; eauto|assumption|assumption|].
    exists e'. split; [assumption|].
    rewrite HW, HI, HD, dirty_step_World, dirty_step_ObjCBIndex,
      dirty_step_NumFramesDirty.
    repeat split.
    assert (He : e ∈ mAllRitems a) by (eapply list_elem_of_lookup_2; eauto).
    pose proof (wf_dirty a Hwf e He).
    destruct (Z.ltb_spec 0 (NumFramesDirty e)); cbn [length]; lia.
Qed.

(** Three frames in a row bring a dirty item into all three arenas. *)
Lemma three_frames_propagate (a : ShapesApp (dx:=dx)) (g : Gpu) (k : nat) (e : RItem)
    (i1 i2 i3 : FrameInput) :
  reachable BeforeUpdate a g ->
  mAllRitems a !! k = Some e ->
  NumFramesDirty e = gNumFrameResources ->
  exists a' g' outs,
    Frames [i1; i2; i3] (a, g) = Some (a', g', outs) /\
    length (mFrameResources a') = 3%nat /\
    (forall fr, fr ∈ mFrameResources a' ->
                record_at (ObjectCB fr) (ObjCBIndex e) = Some (object_record e)) /\
    exists e', mAllRitems a' !! k = Some e' /\
               World e' = World e /\ ObjCBIndex e' = ObjCBIndex e /\
               NumFramesDirty e' = 0.
Proof.
  intros Hr Hk Hd. unfold gNumFrameResources in Hd.
  destruct (reachable_Frames_Some [i1; i2; i3] a g Hr) as [[[a3 g3] outs] E].
  exists a3, g3, outs. split; [exact E|].
  pose proof (reachable_Frames _ _ _ _ _ _ Hr E) as Hr3.
  pose proof (reachable_WF _ _ _ Hr3) as Hwf3.
  split; [apply (wf_frames a3 Hwf3)|].
  split.
  2:{ destruct (Frames_item _ _ _ _ _ _ k e Hr E Hk) as (e' & Hk' & HW & HI & HD).
      exists e'. repeat split; try assumption. rewrite HD, Hd. reflexivity. }
  apply Frames_cons_inv in E as (a1 & g1 & o1 & outs1 & E1 & E & ->).
  apply Frames_cons_inv in E as (a2 & g2 & o2 & outs2 & E2 & E & ->).
  apply Frames_cons_inv in E as (a3' & g3' & o3 & outs3 & E3 & E & ->).
  inversion E; subst a3' g3' outs3. clear E.
  pose proof (reachable_WF _ _ _ Hr) as Hwf.
  pose proof (reachable_Frame _ _ _ _ _ _ Hr E1) as Hr1.
  pose proof (reachable_WF _ _ _ Hr1) as Hwf1.
  pose proof (reachable_Frame _ _ _ _ _ _ Hr1 E2) as Hr2.
  pose proof (reachable_WF _ _ _ Hr2) as Hwf2.
  destruct (Frame_item _ _ _ _ _ _ k e Hwf E1 Hk) as [Hk1 Hi1].
  destruct (Frame_item _ _ _ _ _ _ k _ Hwf1 E2 Hk1) as [Hk2 Hi2].
  assert (Hd1 : NumFramesDirty (dirty_step e) = 2)
    by (rewrite dirty_step_NumFramesDirty, Hd; reflexivity).
  assert (Hd2 : NumFramesDirty (dirty_step (dirty_step e)) = 1)
    by (rewrite dirty_step_NumFramesDirty, Hd1; reflexivity).
  (* the record enters one arena per frame and stays there *)
  assert (H1 : holds a1 (Z.to_nat (next_index a)) k e)
    by (apply (Frame_holds_new i1 a a1 g g1 o1 k e Hwf E1 Hk); lia).
  assert (H2 : holds a2 (Z.to_nat (next_index a1)) k e)
    by (apply holds_dirty_step;
        apply (Frame_holds_new i2 a1 a2 g1 g2 o2 k _ Hwf1 E2 Hk1); lia).
  assert (H3 : holds a3 (Z.to_nat (next_index a2)) k e)
    by (do 2 apply holds_dirty_step;
        apply (Frame_holds_new i3 a2 a3 g2 g3 o3 k _ Hwf2 E3 Hk2); lia).
  assert (H12 : holds a2 (Z.to_nat (next_index a)) k e).
  { apply holds_dirty_step.
    apply (Frame_holds_stable i2 a1 a2 g1 g2 o2 _ k _ Hwf1 E2 Hk1).
    now apply holds_dirty_step_inv. }
  assert (H13 : holds a3 (Z.to_nat (next_index a)) k e).
  { do 2 apply holds_dirty_step.
    apply (Frame_holds_stable i3 a2 a3 g2 g3 o3 _ k _ Hwf2 E3 Hk2).
    now do 2 apply holds_dirty_step_inv. }
  assert (H23 : holds a3 (Z.to_nat (next_index a1)) k e).
  { do 2 apply holds_dirty_step.
    apply (Frame_holds_stable i3 a2 a3 g2 g3 o3 _ k _ Hwf2 E3 Hk2).
    now do 2 apply holds_dirty_step_inv. }
  (* the three arenas selected are the three arenas there are *)
  intros fr Hfr. apply list_elem_of_lookup_1 in Hfr as [j Hj].
  assert (Hj3 : (j < 3)%nat)
    by (rewrite <- (wf_frames a3 Hwf3); eapply lookup_lt_Some; eauto).
  rewrite (wf_slot a Hwf k e Hk).
  assert (Hany : holds a3 j k e).
  { destruct (next_index_cases a Hwf) as [[Ha Hn]|[[Ha Hn]|[Ha Hn]]];
      destruct (next_index_cases a1 Hwf1) as [[Ha1 Hn1]|[[Ha1 Hn1]|[Ha1 Hn1]]];
      destruct (next_index_cases a2 Hwf2) as [[Ha2 Hn2]|[[Ha2 Hn2]|[Ha2 Hn2]]];
      try lia;
      rewrite Hn in H13; rewrite Hn1 in H23; rewrite Hn2 in H3;
      destruct j as [|[|[|j]]]; try lia; assumption. }
  destruct Hany as (fr' & Hj' & Hrec). rewrite Hj in Hj'. inversion Hj'; subst.
  exact Hrec.
Qed.

(** ** Fences *)

Lemma Frame_Some_gen (inp : FrameInput) (a : ShapesApp (dx:=dx)) (g : Gpu) :
  WF a ->
  (forall fr, mFrameResources a !! Z.to_nat (next_index a) = Some fr ->
     must_wait fr (gpu_steps (gpuBeforeUpdate inp) g) = true ->
     is_Some (WaitForFence (Fence fr) (gpu_steps (gpuBeforeUpdate inp) g))) ->
  is_Some (Frame inp (a, g)).
Proof.
  intros Hwf Hwait. unfold Frame.
  destruct (Update_Some (mainPassCB inp) a _ Hwf Hwait) as [[[a1 g1] w] EU].
  rewrite EU. simpl.
  pose proof (WF_Update _ _ _ _ _ _ Hwf EU) as Hwf1.
  assert (Hp : mCurrFrameResource a1 = Some (Z.to_nat (next_index a))).
  { apply Update_inv in EU as (fr & cb & pcb & _ & _ & _ & _ & _ & _ & ->).
    reflexivity. }
  destruct (Draw_Some a1 (gpu_steps (gpuBeforeDraw inp) g1) _ Hwf1 Hp)
    as [[[a2 g2] cmds] ED].
  rewrite ED. simpl.
  apply Draw_inv in ED as (p & fr & Hp' & Hfr & -> & _ & _); [|assumption].
  cbn. rewrite Hp'. simpl.
  rewrite list_lookup_insert_eq by (eapply lookup_lt_Some; eauto).
  simpl. eauto.
Qed.

(** The fence of a frame resource after a frame: the one selected carries
    the new stamp, the others keep theirs. *)
Lemma Frame_fences (inp : FrameInput) (a a' : ShapesApp (dx:=dx)) (g g' : Gpu) (out : FrameOutput) :
  WF a -> Frame inp (a, g) = Some (a', g', out) ->
  mCurrentFence a' = (mCurrentFence a + 1)%N /\
  mCurrFrameResourceIndex a' = next_index a /\
  retired out = Z.to_nat (next_index a) /\
  stamp out = (mCurrentFence a + 1)%N /\
  (exists fr, mFrameResources a !! retired out = Some fr /\
              waited out = must_wait fr (gpu_steps (gpuBeforeUpdate inp) g)) /\
  (forall j fr', mFrameResources a' !! j = Some fr' ->
     if decide (j = retired out)
     then Fence fr' = (mCurrentFence a + 1)%N
     else exists fr, mFrameResources a !! j = Some fr /\ Fence fr' = Fence fr).
Proof.
  intros Hwf E.
  apply Frame_shape in E as (fr & cb & pcb & Hfr & _ & _ & Hw & Hret & Hst & ->);
    [|assumption].
  assert (Hlt : (Z.to_nat (next_index a) < length (mFrameResources a))%nat)
    by (eapply lookup_lt_Some; eauto).
  split; [reflexivity|]. split; [reflexivity|]. split; [assumption|].
  split; [assumption|]. split.
  - exists fr. rewrite Hret. auto.
  - intros j fr' Hj. rewrite Hret. cbn in Hj.
    destruct (decide (j = Z.to_nat (next_index a))) as [->|Hne].
    + rewrite list_lookup_insert_eq in Hj by (rewrite length_insert; assumption).
      inversion Hj; subst. reflexivity.
    + rewrite !list_lookup_insert_ne in Hj by auto. eauto.
Qed.

Lemma next_index_nat (a : ShapesApp (dx:=dx)) (n : nat) :
  mCurrFrameResourceIndex a = Z.of_nat n -> (n < 3)%nat ->
  next_index a = Z.of_nat (if decide (n = 2%nat) then 0%nat else S n).
Proof.
  intros Hidx Hn. unfold next_index, gNumFrameResources. rewrite Hidx.
  destruct n as [|[|[|n]]]; [reflexivity|reflexivity|reflexivity|lia].
Qed.

(** The first frames: while fewer than three frames have been produced,
    the frame resources not yet used still carry fence 0, and the next one
    selected is among them. *)
Lemma priming_frames (inps : list FrameInput) :
  forall (n : nat) (a : ShapesApp (dx:=dx)) (g : Gpu),
    (n + length inps <= 3)%nat ->
    WF a ->
    mCurrFrameResourceIndex a = Z.of_nat n ->
    (forall j fr, mFrameResources a !! j = Some fr ->
                  (j = 0 \/ n < j)%nat -> Fence fr = 0%N) ->
    exists a' g' outs,
      Frames inps (a, g) = Some (a', g', outs) /\
      Forall (fun o => waited o = false) outs /\
      ((n + length inps < 3)%nat ->
       forall fr, at_index (mFrameResources a') (next_index a') = Some fr ->
                  Fence fr = 0%N).
Proof.
  induction inps as [|inp rest IH]; intros n a g Hn Hwf Hidx Hz.
  - exists a, g, []. split; [reflexivity|]. split; [constructor|].
    simpl. intros Hlt fr Hfr. apply at_index_Some in Hfr as [_ Hfr].
    apply (Hz _ _ Hfr).
    rewrite (next_index_nat a n Hidx) by lia. rewrite Nat2Z.id.
    destruct (decide (n = 2%nat)); lia.
  - simpl in Hn.
    assert (Hsel : forall fr, mFrameResources a !! Z.to_nat (next_index a) = Some fr ->
                              Fence fr = 0%N).
    { intros fr Hfr. apply (Hz _ _ Hfr).
      rewrite (next_index_nat a n Hidx) by lia. rewrite Nat2Z.id.
      destruct (decide (n = 2%nat)); lia. }
    destruct (Frame_Some_gen inp a g Hwf) as [[[a1 g1] out] EF].
    { intros fr Hfr Hm. apply must_wait_true in Hm as [Hm _].
      now rewrite (Hsel fr Hfr) in Hm. }
    destruct (Frame_fences _ _ _ _ _ _ Hwf EF)
      as (_ & Hidx1 & Hret & _ & (fr & Hfr & Hw) & Hf).
    assert (Hwf1 : WF a1).
    { apply Frame_inv in EF as (a0 & g0 & cmds & _ & _ & EU & ED & _).
      eapply WF_Draw; [|exact ED]. eapply WF_Update; eauto. }
    assert (Hout : waited out = false).
    { rewrite Hw. apply must_wait_false. left. apply Hsel.
      rewrite <- Hret. exact Hfr. }
    rewrite (next_index_nat a n Hidx) in Hidx1, Hret by lia.
    rewrite Nat2Z.id in Hret.
    destruct (decide (n = 2%nat)) as [->|Hn2].
    + assert (rest = []) as -> by (destruct rest; [reflexivity|simpl in Hn; lia]).
      exists a1, g1, [out]. cbn [Frames]. rewrite EF. cbn.
      split; [reflexivity|]. split; [now repeat constructor|].
      intros Hlt. lia.
    + destruct (IH (S n) a1 g1) as (a' & g' & outs & ER & Hall & Hnxt).
      * lia.
      * exact Hwf1.
      * exact Hidx1.
      * intros j fr' Hj Hcase. specialize (Hf j fr' Hj). rewrite Hret in Hf.
        destruct (decide (j = S n)) as [->|Hne]; [lia|].
        destruct Hf as (fr0 & Hj0 & ->). apply (Hz _ _ Hj0). lia.
      * exists a', g', (out :: outs). cbn [Frames]. rewrite EF.
        cbn [mbind option_bind]. rewrite ER. cbn.
        split; [reflexivity|]. split; [now constructor|].
        intros Hlt. apply Hnxt. cbn [length] in Hlt. lia.
Qed.

(** The stamps of the frames produced since [Initialize]. *)
Lemma produced_fences (c0 : N) (outs : list FrameOutput) (a : ShapesApp (dx:=dx)) (g : Gpu) :
  produced c0 outs a g ->
  mCurrentFence a = (c0 + N.of_nat (length outs))%N /\
  (forall i o, outs !! i = Some o -> stamp o = (c0 + N.of_nat i + 1)%N) /\
  (forall j fr, mFrameResources a !! j = Some fr ->
                (Fence fr = 0%N <-> j ∉ map retired outs)).
Proof.
  induction 1 as [a E|outs a g inp a' g' out Hp (IHc & IHs & IHf) EF].
  - rewrite Initialize_eq in E. inversion E; subst. cbn.
    split; [lia|]. split; [intros i o Hi; discriminate|].
    intros j fr Hj. split; [intros _; apply not_elem_of_nil|intros _].
    destruct j as [|[|[|j]]]; cbn in Hj; inversion Hj; reflexivity.
  - pose proof (reachable_WF _ _ _ (produced_reachable _ _ _ _ Hp)) as Hwf.
    destruct (Frame_fences _ _ _ _ _ _ Hwf EF) as (Hc & _ & _ & Hst & _ & Hf).
    rewrite length_app. cbn [length]. split; [lia|]. split.
    + intros i o Hi. apply lookup_app_Some in Hi as [Hi|[Hge Hi]].
      * now apply IHs.
      * destruct (i - length outs)%nat as [|?] eqn:Hd; [|discriminate].
        cbn in Hi. inversion Hi; subst o. rewrite Hst, IHc.
        assert (i = length outs) by lia. subst i. lia.
    + intros j fr' Hj. specialize (Hf j fr' Hj).
      rewrite map_app. cbn [map]. rewrite elem_of_app, list_elem_of_singleton.
      destruct (decide (j = retired out)) as [->|Hne].
      * rewrite Hf. split; [lia|]. intros Hn. exfalso. apply Hn. now right.
      * destruct Hf as (fr & Hj0 & ->). rewrite (IHf j fr Hj0).
        split; [intros Hn [H1|H1]; [now apply Hn|now apply Hne]|].
        intros Hn H1. apply Hn. now left.
Qed.

(** ** Descriptor addressing *)

Lemma to_int_uint32_small (x : Z) : 0 <= x < 2 ^ 31 -> to_int (uint32 x) = x.
Proof.
  intros Hx. unfold to_int, uint32, UINT_modulus.
  rewrite Z.mod_small by lia.
  destruct (Z.ltb_spec x (2 ^ 31)); lia.
Qed.

Lemma size_uint_range {A} (v : list A) : 0 <= size_uint v < 2 ^ 32.
Proof. unfold size_uint, uint32, UINT_modulus. apply Z.mod_pos_bound. lia. Qed.

(** The layout for any item count whose descriptors can be numbered by an
    [int]: the offsets are [f * M + s] and [3 * M + f], and no two records
    share one. *)
Lemma descriptor_offset_layout (a : ShapesApp (dx:=dx)) :
  mPassCbvOffset a = uint32 (size_uint (mOpaqueRitems a) * gNumFrameResources) ->
  (size_uint (mOpaqueRitems a) + 1) * gNumFrameResources <= 2 ^ 31 ->
  (forall f s, valid_record a f ObjectBuffer s ->
     descriptor_offset a f ObjectBuffer s = f * size_uint (mOpaqueRitems a) + s) /\
  (forall f s, valid_record a f PassBuffer s ->
     descriptor_offset a f PassBuffer s = 3 * size_uint (mOpaqueRitems a) + f) /\
  (forall f1 k1 s1 f2 k2 s2,
     valid_record a f1 k1 s1 -> valid_record a f2 k2 s2 ->
     descriptor_offset a f1 k1 s1 = descriptor_offset a f2 k2 s2 ->
     f1 = f2 /\ k1 = k2 /\ s1 = s2).
Proof.
  intros Hoff Hfit.
  pose proof (size_uint_range (mOpaqueRitems a)) as HM.
  set (M := size_uint (mOpaqueRitems a)) in *.
  unfold gNumFrameResources in *.
  assert (Hobj : forall f s, valid_record a f ObjectBuffer s ->
                   descriptor_offset a f ObjectBuffer s = f * M + s).
  { intros f s [Hf Hs]. cbn in Hs. fold M in Hs. unfold gNumFrameResources in Hf.
    cbn. fold M. unfold heapIndex_object. apply to_int_uint32_small. nia. }
  assert (Hpass : forall f s, valid_record a f PassBuffer s ->
                    descriptor_offset a f PassBuffer s = 3 * M + f).
  { intros f s [Hf _]. unfold gNumFrameResources in Hf.
    cbn. unfold heapIndex_pass. rewrite Hoff.
    unfold uint32 at 2, UINT_modulus. rewrite Z.mod_small by lia.
    rewrite to_int_uint32_small by lia. lia. }
  split; [exact Hobj|]. split; [exact Hpass|].
  intros f1 k1 s1 f2 k2 s2 V1 V2 Heq.
  destruct k1, k2.
  - rewrite (Hobj _ _ V1), (Hobj _ _ V2) in Heq.
    destruct V1 as [Hf1 Hs1], V2 as [Hf2 Hs2]. cbn in Hs1, Hs2. fold M in Hs1, Hs2.
    unfold gNumFrameResources in *.
    assert (f1 = f2) by nia. subst. split; [reflexivity|]. split; [reflexivity|lia].
  - rewrite (Hobj _ _ V1), (Hpass _ _ V2) in Heq.
    destruct V1 as [Hf1 Hs1], V2 as [Hf2 Hs2]. cbn in Hs1. fold M in Hs1.
    unfold gNumFrameResources in *. nia.
  - rewrite (Hpass _ _ V1), (Hobj _ _ V2) in Heq.
    destruct V1 as [Hf1 Hs1], V2 as [Hf2 Hs2]. cbn in Hs2. fold M in Hs2.
    unfold gNumFrameResources in *. nia.
  - rewrite (Hpass _ _ V1), (Hpass _ _ V2) in Heq.
    destruct V1 as [Hf1 Hs1], V2 as [Hf2 Hs2]. cbn in Hs1, Hs2. subst.
    split; [lia|]. split; reflexivity.
Qed.

Lemma WF_size (a : ShapesApp (dx:=dx)) :
  WF a -> size_uint (mOpaqueRitems a) = 153 /\ size_uint (mAllRitems a) = 153.
Proof.
  intros Hwf. unfold size_uint. rewrite (wf_opaque a Hwf), length_seq, (wf_count a Hwf).
  split; reflexivity.
Qed.

(** The heap holds, at the offset of each record, the view of that record. *)
Lemma initial_heap_lookup (f s : Z) (kind : BufferKind) :
  0 <= f < 3 ->
  match kind with ObjectBuffer => 0 <= s < 153 | PassBuffer => s = 0 end ->
  initial_heap (dx:=dx)
    !! Z.to_nat (match kind with ObjectBuffer => f * 153 + s | PassBuffer => 459 + f end)
  = Some (Some (record_view (dx:=dx) f kind s)).
Proof.
  intros Hf Hs. unfold initial_heap.
  change (seqZ 0 3) with [0; 1; 2]. cbn [map concat].
  set (B := fun f0 : Z => map (fun i => Some (object_view (dx:=dx) f0 i)) (seqZ 0 153)).
  assert (HB : forall f0, length (B f0) = 153%nat)
    by (intros; unfold B; rewrite length_map, length_seqZ; reflexivity).
  assert (HBl : forall f0 i, 0 <= i < 153 ->
                  B f0 !! Z.to_nat i = Some (Some (object_view (dx:=dx) f0 i))).
  { intros f0 i Hi. unfold B. rewrite list_lookup_fmap, lookup_seqZ_lt by lia.
    cbn. rewrite Z2Nat.id by lia. reflexivity. }
  change (map (fun i => Some (object_view (dx:=dx) 0 i)) (seqZ 0 153)) with (B 0).
  change (map (fun i => Some (object_view (dx:=dx) 1 i)) (seqZ 0 153)) with (B 1).
  change (map (fun i => Some (object_view (dx:=dx) 2 i)) (seqZ 0 153)) with (B 2).
  rewrite app_nil_r.
  assert (Hc : f = 0 \/ f = 1 \/ f = 2) by lia.
  destruct kind.
  - destruct Hc as [-> | [-> | ->]].
    + rewrite <- !app_assoc. rewrite lookup_app_l by (rewrite HB; lia).
      replace (0 * 153 + s) with s by lia. now apply HBl.
    + rewrite <- !app_assoc. rewrite lookup_app_r by (rewrite HB; lia).
      rewrite lookup_app_l by (rewrite !HB; lia).
      rewrite HB. replace (Z.to_nat (1 * 153 + s) - 153)%nat with (Z.to_nat s) by lia.
      now apply HBl.
    + rewrite <- !app_assoc. rewrite lookup_app_r by (rewrite HB; lia).
      rewrite lookup_app_r by (rewrite !HB; lia).
      rewrite lookup_app_l by (rewrite !HB; lia).
      rewrite !HB.
      replace (Z.to_nat (2 * 153 + s) - 153 - 153)%nat with (Z.to_nat s) by lia.
      now apply HBl.
  - rewrite lookup_app_r by (rewrite !length_app, !HB; lia).
    rewrite !length_app, !HB.
    destruct Hc as [-> | [-> | ->]]; reflexivity.
Qed.

(** * The claims *)

(** C1 (dirty propagation completeness).  Take any state of a run in which
    [Update] is next and an item whose [NumFramesDirty] is
    [gNumFrameResources] = 3, as it is right after the item was created or
    its transform was changed.  Then three consecutive frames are
    produced, after them each of the three frame resources holds, at
    position [ObjCBIndex] of its object arena, the transpose of the
    item's [World], and the item's [NumFramesDirty] is 0.  After fewer
    than three frames the counter is still positive: it is 3 minus the
    number of frames. *)
Theorem dirty_propagation_complete (a : ShapesApp (dx:=dx)) (g : Gpu) (k : nat) (e : RItem)
    (i1 i2 i3 : FrameInput) :
  reachable BeforeUpdate a g ->
  mAllRitems a !! k = Some e ->
  NumFramesDirty e = gNumFrameResources ->
  (exists a' g' outs,
     Frames [i1; i2; i3] (a, g) = Some (a', g', outs) /\
     length (mFrameResources a') = 3%nat /\
     (forall fr, fr ∈ mFrameResources a' ->
        record_at (ObjectCB fr) (ObjCBIndex e)
        = Some {| ocWorld := XMMatrixTranspose (World e) |}) /\
     exists e', mAllRitems a' !! k = Some e' /\
                World e' = World e /\ ObjCBIndex e' = ObjCBIndex e /\
                NumFramesDirty e' = 0) /\
  (forall inps a' g' outs,
     (length inps < 3)%nat ->
     Frames inps (a, g) = Some (a', g', outs) ->
     exists e', mAllRitems a' !! k = Some e' /\
                NumFramesDirty e' = 3 - Z.of_nat (length inps)).
Proof.
  intros Hr Hk Hd. split.
  - apply three_frames_propagate; assumption.
  - intros inps a' g' outs Hlen E.
    destruct (Frames_item _ _ _ _ _ _ k e Hr E Hk) as (e' & Hk' & _ & _ & HD).
    exists e'. split; [assumption|].
    rewrite HD, Hd. unfold gNumFrameResources. lia.
Qed.

(** C8 (idempotent re-dirtying).  Changing the transform of an item whose
    [NumFramesDirty] is still positive sets the counter to exactly
    [gNumFrameResources] = 3, and the next three frames are produced and
    leave, in each of the three object arenas, the transpose of the new
    matrix at the item's position, with the counter back at 0: every push
    reads the current [World], so no arena keeps an earlier value. *)
Theorem redirtying_converges (a : ShapesApp (dx:=dx)) (g : Gpu) (k : nat) (e : RItem)
    (w : Matrix) (i1 i2 i3 : FrameInput) :
  reachable BeforeUpdate a g ->
  mAllRitems a !! k = Some e ->
  0 < NumFramesDirty e ->
  (exists e0, mAllRitems (SetWorld k w a) !! k = Some e0 /\
              World e0 = w /\ ObjCBIndex e0 = ObjCBIndex e /\
              NumFramesDirty e0 = gNumFrameResources) /\
  (exists a' g' outs,
     Frames [i1; i2; i3] (SetWorld k w a, g) = Some (a', g', outs) /\
     length (mFrameResources a') = 3%nat /\
     (forall fr, fr ∈ mFrameResources a' ->
        record_at (ObjectCB fr) (ObjCBIndex e)
        = Some {| ocWorld := XMMatrixTranspose w |}) /\
     exists e', mAllRitems a' !! k = Some e' /\
                World e' = w /\ NumFramesDirty e' = 0).
Proof.
  intros Hr Hk _.
  set (e0 := set_NumFramesDirty gNumFrameResources (set_World w e)).
  assert (Hk0 : mAllRitems (SetWorld k w a) !! k = Some e0).
  { unfold SetWorld. cbn. rewrite list_lookup_alter_eq, Hk. reflexivity. }
  split.
  - exists e0. split; [exact Hk0|]. split; [reflexivity|]. split; reflexivity.
  - destruct (three_frames_propagate (SetWorld k w a) g k e0 i1 i2 i3)
      as (a' & g' & outs & E & Hlen & Hrec & e' & Hk' & HW & _ & HD).
    + now apply reach_set_world.
    + exact Hk0.
    + reflexivity.
    + exists a', g', outs.
      split; [exact E|]. split; [exact Hlen|].
      split; [intros fr Hfr; apply (Hrec fr Hfr)|].
      exists e'. split; [exact Hk'|]. split; [exact HW|exact HD].
Qed.

(** C9 (range of the dirty counter).  A freshly constructed item and every
    item of the scene [Initialize] builds have [NumFramesDirty] =
    [gNumFrameResources] = 3; in every state of a run the counter of every
    item lies between 0 and 3; and one call of [UpdateObjectCBs] lowers a
    positive counter by exactly 1 and leaves a counter that is not
    positive as it is. *)
Theorem NumFramesDirty_range :
  NumFramesDirty (RenderItem_default (dx:=dx)) = gNumFrameResources /\
  gNumFrameResources = 3 /\
  (forall c0 a e, Initialize (dx:=dx) c0 = Some a -> e ∈ mAllRitems a ->
                  NumFramesDirty e = gNumFrameResources) /\
  (forall ph (a : ShapesApp (dx:=dx)) g e, reachable ph a g -> e ∈ mAllRitems a ->
                  0 <= NumFramesDirty e <= 3) /\
  (forall (a a' : ShapesApp (dx:=dx)) k e,
      UpdateObjectCBs a = Some a' -> mAllRitems a !! k = Some e ->
      exists e', mAllRitems a' !! k = Some e' /\
                 NumFramesDirty e'
                 = if 0 <? NumFramesDirty e
                   then NumFramesDirty e - 1 else NumFramesDirty e).
Proof.
  split; [reflexivity|]. split; [reflexivity|]. split; [|split].
  - intros c0 a e E He. rewrite Initialize_eq in E. inversion E; subst.
    cbn in He.
    assert (H : NumFramesDirty e ∈ map NumFramesDirty (initial_items (dx:=dx)))
      by (apply list_elem_of_fmap; eauto).
    rewrite initial_items_dirty in H. now apply elem_of_replicate in H as [-> _].
  - intros ph a g e Hr He. apply (wf_dirty a (reachable_WF _ _ _ Hr) e He).
  - intros a a' k e E Hk. unfold UpdateObjectCBs in E.
    destruct (mCurrFrameResource a) as [p|]; simpl in E; [|discriminate].
    destruct (mFrameResources a !! p) as [fr|]; simpl in E; [|discriminate].
    destruct (UpdateObjectCBs_items (ObjectCB fr) (mAllRitems a)) as [[cb items]|] eqn:EI;
      simpl in E; [|discriminate].
    apply UpdateObjectCBs_items_inv in EI as [-> _]. inversion E; subst.
    exists (dirty_step e). split.
    + cbn -[dirty_step]. rewrite list_lookup_fmap, Hk. reflexivity.
    + apply dirty_step_NumFramesDirty.
Qed.

(** C10 (registration order).  [Initialize] succeeds, and in the state it
    builds the pointers of [mOpaqueRitems] lead to the items of
    [mAllRitems], one for one and in the same order; the [ObjCBIndex]
    values are 0, 1, ..., M-1 in registration order; and the item count
    taken from [mOpaqueRitems] equals the count taken from [mAllRitems]
    and the capacity of the object arena of every frame resource. *)
Theorem registration_order (c0 : N) :
  exists a : ShapesApp (dx:=dx),
    Initialize c0 = Some a /\
    mapM (fun p => mAllRitems a !! p) (mOpaqueRitems a) = Some (mAllRitems a) /\
    map ObjCBIndex (mAllRitems a) = seqZ 0 (Z.of_nat (length (mAllRitems a))) /\
    (forall k e, mAllRitems a !! k = Some e -> ObjCBIndex e = Z.of_nat k) /\
    size_uint (mOpaqueRitems a) = size_uint (mAllRitems a) /\
    length (mFrameResources a) = 3%nat /\
    (forall fr, fr ∈ mFrameResources a ->
                capacity (ObjectCB fr) = size_uint (mOpaqueRitems a) /\
                capacity (ObjectCB fr) = size_uint (mAllRitems a)).
Proof.
  exists (initial_app c0). split; [apply Initialize_eq|].
  pose proof (WF_initial c0) as Hwf.
  split; [vm_compute; reflexivity|].
  split; [vm_compute; reflexivity|].
  split; [apply (wf_slot _ Hwf)|].
  split; [vm_compute; reflexivity|].
  split; [reflexivity|].
  intros fr Hfr. destruct (wf_capacity _ Hwf fr Hfr) as [-> _].
  split; vm_compute; reflexivity.
Qed.

(** C6 (writes stay inside the arenas).  In every state of a run in which
    [Update] is next, the object arena of each frame resource has the
    capacity [(UINT)mAllRitems.size()] and its pass arena the capacity 1,
    every item's [ObjCBIndex] is below that count, hence the loop of
    [UpdateObjectCBs] performs all its [CopyData] calls successfully on
    whichever frame resource is current, [CopyData(0, ...)] on the pass
    arena succeeds, and [Update] as a whole returns. *)
Theorem writes_within_capacity (a : ShapesApp (dx:=dx)) (g : Gpu) (pc : PassConstants dx) :
  reachable BeforeUpdate a g ->
  (forall fr, fr ∈ mFrameResources a ->
     capacity (ObjectCB fr) = size_uint (mAllRitems a) /\ capacity (PassCB fr) = 1) /\
  (forall e, e ∈ mAllRitems a -> 0 <= ObjCBIndex e < size_uint (mAllRitems a)) /\
  (forall fr, fr ∈ mFrameResources a ->
     is_Some (UpdateObjectCBs_items (ObjectCB fr) (mAllRitems a)) /\
     is_Some (CopyData 0 pc (PassCB fr))) /\
  is_Some (Update pc a g).
Proof.
  intros Hr. pose proof (reachable_WF _ _ _ Hr) as Hwf.
  assert (Hsize : size_uint (mAllRitems a) = 153).
  { unfold size_uint. rewrite (wf_count a Hwf). reflexivity. }
  assert (Hidx : forall e, e ∈ mAllRitems a -> 0 <= ObjCBIndex e < 153).
  { intros e He. apply list_elem_of_lookup_1 in He as [k Hk].
    rewrite (wf_slot a Hwf k e Hk). apply lookup_lt_Some in Hk.
    rewrite (wf_count a Hwf) in Hk. lia. }
  rewrite Hsize. split; [|split; [|split]].
  - apply (wf_capacity a Hwf).
  - exact Hidx.
  - intros fr Hfr. destruct (wf_capacity a Hwf fr Hfr) as [Hoc Hpc]. split.
    + destruct (UpdateObjectCBs_items_Some (mAllRitems a) (ObjectCB fr)) as [cb ->];
        [|eauto].
      intros e He. rewrite Hoc. now apply Hidx.
    + rewrite CopyData_Some by lia. eauto.
  - now apply reachable_Update_Some.
Qed.

(** C2 (no premature reuse).  In every state of a run in which [Update] is
    next, [Update] selects the next frame resource, waits exactly when
    that resource's [Fence] is nonzero and [GetCompletedValue()] is below
    it, returns, and at the moment it writes the arenas the fence of the
    resource is 0 or has been reached by the GPU.  Only the selected
    frame resource is written.  Were the wait never to end, [Update]
    would not get to the writes. *)
Theorem no_premature_reuse (a : ShapesApp (dx:=dx)) (g : Gpu) (pc : PassConstants dx) :
  reachable BeforeUpdate a g ->
  exists fr a' g' w,
    at_index (mFrameResources a) (next_index a) = Some fr /\
    Update pc a g = Some (a', g', w) /\
    (w = true <-> Fence fr <> 0%N /\ (GetCompletedValue g < Fence fr)%N) /\
    (w = true -> WaitForFence (Fence fr) g = Some g') /\
    (w = false -> g' = g) /\
    (Fence fr = 0%N \/ (Fence fr <= GetCompletedValue g')%N) /\
    mCurrFrameResource a' = Some (Z.to_nat (next_index a)) /\
    (forall j, j <> Z.to_nat (next_index a) ->
               mFrameResources a' !! j = mFrameResources a !! j) /\
    (forall g0, must_wait fr g0 = true -> WaitForFence (Fence fr) g0 = None ->
                Update pc a g0 = None).
Proof.
  intros Hr.
  destruct (reachable_Update_Some a g pc Hr) as [[[a' g'] w] E].
  pose proof E as E'.
  apply Update_inv in E' as (fr & cb & pcb & Hi & Hfr & Hw & Hg & _ & _ & Ha).
  assert (Hat : at_index (mFrameResources a) (next_index a) = Some fr)
    by (apply at_index_Some; auto).
  exists fr, a', g', w.
  split; [exact Hat|]. split; [exact E|].
  split; [rewrite Hw; apply must_wait_true|].
  split; [intros ->; exact Hg|].
  split; [intros ->; exact Hg|].
  split.
  { destruct w.
    - apply WaitForFence_inv in Hg as [Hle _]. now right.
    - subst g'. symmetry in Hw. now apply must_wait_false in Hw. }
  split; [subst a'; reflexivity|].
  split.
  { intros j Hj. subst a'. cbn. now rewrite list_lookup_insert_ne by auto. }
  intros g0 Hm Hnone. unfold Update. fold (next_index a).
  rewrite Hat. cbn [mbind option_bind]. rewrite Hm, Hnone. reflexivity.
Qed.

(** C5 (priming).  From the state [Initialize] builds, in which every
    frame resource has [Fence] 0, the first three frames are produced
    without [Update] waiting, whatever the state of the GPU and whatever
    it does in between; and as long as fewer than three frames have been
    produced, the frame resource the next [Update] selects still has
    [Fence] 0. *)
Theorem priming_never_blocks (c0 : N) (a : ShapesApp (dx:=dx)) (g : Gpu) (inps : list FrameInput) :
  Initialize c0 = Some a ->
  (length inps <= 3)%nat ->
  (forall fr, fr ∈ mFrameResources a -> Fence fr = 0%N) /\
  exists a' g' outs,
    Frames inps (a, g) = Some (a', g', outs) /\
    Forall (fun o => waited o = false) outs /\
    ((length inps < 3)%nat ->
     forall fr, at_index (mFrameResources a') (next_index a') = Some fr ->
                Fence fr = 0%N).
Proof.
  intros E Hlen. rewrite Initialize_eq in E. inversion E; subst a.
  assert (Hz : forall fr, fr ∈ mFrameResources (initial_app (dx:=dx) c0) -> Fence fr = 0%N).
  { intros fr Hfr. cbn in Hfr. rewrite !elem_of_cons, elem_of_nil in Hfr.
    destruct Hfr as [->|[->|[->|[]]]]; reflexivity. }
  split; [exact Hz|].
  apply (priming_frames inps 0 (initial_app c0) g).
  - simpl. lia.
  - apply WF_initial.
  - reflexivity.
  - intros j fr Hj _. apply Hz. eapply list_elem_of_lookup_2; eauto.
Qed.

(** C7 (fence stamps).  Any number of frames can be produced from the
    state [Initialize] builds; the stamp of frame number [i] (counting
    from 0) is the initial counter plus [i] + 1, so the stamps are
    strictly increasing from frame to frame and none of them is 0; and
    afterwards the [Fence] of a frame resource is 0 exactly if no frame
    has retired that resource yet. *)
Theorem fence_stamps_increase (c0 : N) (a : ShapesApp (dx:=dx)) (inps : list FrameInput) :
  Initialize c0 = Some a ->
  exists a' g' outs,
    Frames inps (a, gpu_init c0) = Some (a', g', outs) /\
    length outs = length inps /\
    (forall i o, outs !! i = Some o -> stamp o = (c0 + N.of_nat i + 1)%N) /\
    (forall i j oi oj, (i < j)%nat -> outs !! i = Some oi -> outs !! j = Some oj ->
                       (stamp oi < stamp oj)%N) /\
    Forall (fun o => stamp o <> 0%N) outs /\
    (forall j fr, mFrameResources a' !! j = Some fr ->
                  (Fence fr = 0%N <-> j ∉ map retired outs)).
Proof.
  intros E.
  assert (Hp0 : produced c0 [] a (gpu_init c0)) by now constructor.
  destruct (reachable_Frames_Some inps a (gpu_init c0)) as [[[a' g'] outs] EF];
    [now constructor|].
  pose proof (Frames_produced _ _ _ _ _ _ _ _ Hp0 EF) as Hp. cbn [app] in Hp.
  destruct (produced_fences _ _ _ _ Hp) as (_ & Hs & Hf).
  exists a', g', outs.
  split; [exact EF|]. split; [eapply Frames_length; eauto|].
  split; [exact Hs|]. split; [|split; [|exact Hf]].
  - intros i j oi oj Hij Hi Hj. rewrite (Hs i oi Hi), (Hs j oj Hj). lia.
  - apply Forall_lookup. intros i o Hi. rewrite (Hs i o Hi). lia.
Qed.

(** C3 (offset injectivity).  In every state of a run, with M the item
    count [(UINT)mOpaqueRitems.size()]: the descriptor of object record
    [s] of frame resource [f] has number [f * M + s], the descriptor of
    the pass record of frame resource [f] has number [3 * M + f] =
    [mPassCbvOffset + f], and two records of valid frame (0..2), kind and
    slot (below M for an object record, 0 for the single pass record)
    never share a number.  The object records of frame resource [f] fill
    the block from [f * M] up to [(f + 1) * M], the pass records the last
    three descriptors of the heap. *)
Theorem descriptor_offsets_injective (ph : Phase) (a : ShapesApp (dx:=dx)) (g : Gpu) :
  reachable ph a g ->
  let M := size_uint (mOpaqueRitems a) in
  M = Z.of_nat (length (mAllRitems a)) /\
  mPassCbvOffset a = gNumFrameResources * M /\
  Z.of_nat (length (mCbvHeap a)) = gNumFrameResources * M + gNumFrameResources /\
  (forall f s, valid_record a f ObjectBuffer s ->
     descriptor_offset a f ObjectBuffer s = f * M + s /\
     f * M <= descriptor_offset a f ObjectBuffer s < (f + 1) * M) /\
  (forall f s, valid_record a f PassBuffer s ->
     descriptor_offset a f PassBuffer s = gNumFrameResources * M + f /\
     gNumFrameResources * M <= descriptor_offset a f PassBuffer s
       < Z.of_nat (length (mCbvHeap a))) /\
  (forall f1 k1 s1 f2 k2 s2,
     valid_record a f1 k1 s1 -> valid_record a f2 k2 s2 ->
     descriptor_offset a f1 k1 s1 = descriptor_offset a f2 k2 s2 ->
     f1 = f2 /\ k1 = k2 /\ s1 = s2).
Proof.
  intros Hr M. pose proof (reachable_WF _ _ _ Hr) as Hwf.
  destruct (WF_size a Hwf) as [HM _]. fold M in HM.
  assert (Hlen : Z.of_nat (length (mCbvHeap a)) = 462)
    by (rewrite (wf_heap a Hwf); lazy; reflexivity).
  destruct (descriptor_offset_layout a) as (Hobj & Hpass & Hinj).
  { fold M. rewrite (wf_offset a Hwf), HM. reflexivity. }
  { fold M. rewrite HM. unfold gNumFrameResources. lia. }
  fold M in Hobj, Hpass.
  split; [rewrite HM, (wf_count a Hwf); reflexivity|].
  split; [rewrite (wf_offset a Hwf), HM; reflexivity|].
  split; [rewrite Hlen, HM; reflexivity|].
  split; [|split; [|exact Hinj]].
  - intros f s V. rewrite (Hobj f s V). split; [reflexivity|].
    destruct V as [_ Hs]. cbn in Hs. fold M in Hs. lia.
  - intros f s V. rewrite (Hpass f s V), Hlen, HM.
    destruct V as [Hf _]. unfold gNumFrameResources in *. lia.
Qed.

(** C4 (publish and bind agree).  The descriptor number computed in
    [DrawRenderItems] for an item is the number computed in
    [BuildConstantBufferViews] for the current frame index, the item count
    and the item's [ObjCBIndex], and the number computed in [Draw] for the
    pass record is the number computed there for [mPassCbvOffset] and the
    current frame index: for every value of the frame index, the count
    and the slot.  Hence in every state of a run in which [Draw] is next,
    [Draw] returns, and each descriptor it binds is the view that was
    created for the record of the current frame resource: the pass view,
    and for each item the view of the object record at the item's
    [ObjCBIndex]. *)
Theorem publish_bind_agree :
  (forall (a : ShapesApp (dx:=dx)) (ri : RItem),
     cbvIndex a ri
     = heapIndex_object (mCurrFrameResourceIndex a) (size_uint (mOpaqueRitems a))
         (ObjCBIndex ri)) /\
  (forall a : ShapesApp (dx:=dx),
     passCbvIndex a = heapIndex_pass (mPassCbvOffset a) (mCurrFrameResourceIndex a)) /\
  (forall (a : ShapesApp (dx:=dx)) (g : Gpu),
     reachable BeforeDraw a g ->
     exists a' g' cmds,
       Draw a g = Some (a', g', cmds) /\
       cmds = SetGraphicsRootDescriptorTable 1 (passCbvIndex a)
                :: concat (map (item_commands a) (mAllRitems a)) /\
       at_index (mCbvHeap a) (passCbvIndex a)
       = Some (Some (pass_view (dx:=dx) (mCurrFrameResourceIndex a))) /\
       (forall e, e ∈ mAllRitems a ->
          at_index (mCbvHeap a) (cbvIndex a e)
          = Some (Some (object_view (dx:=dx) (mCurrFrameResourceIndex a)
                          (ObjCBIndex e))))).
Proof.
  split; [reflexivity|]. split; [reflexivity|].
  intros a g Hr. pose proof (reachable_WF _ _ _ Hr) as Hwf.
  destruct (reachable_Draw_Some a g Hr) as [[[a' g'] cmds] ED].
  exists a', g', cmds. split; [exact ED|].
  apply Draw_inv in ED as (p & fr & _ & _ & _ & _ & Hc); [|assumption].
  split; [exact Hc|].
  destruct (wf_index a Hwf) as [H0 H3]. destruct (WF_size a Hwf) as [HM _].
  split.
  - unfold passCbvIndex. rewrite (wf_offset a Hwf), (wf_heap a Hwf).
    rewrite to_int_uint32_small by lia.
    apply at_index_Some. split; [lia|].
    apply (initial_heap_lookup (mCurrFrameResourceIndex a) 0 PassBuffer); [lia|reflexivity].
  - intros e He. apply list_elem_of_lookup_1 in He as [k Hk].
    assert (Hk153 : (k < 153)%nat)
      by (rewrite <- (wf_count a Hwf); eapply lookup_lt_Some; eauto).
    unfold cbvIndex. rewrite HM, (wf_slot a Hwf k e Hk), (wf_heap a Hwf).
    rewrite to_int_uint32_small by lia.
    apply at_index_Some. split; [lia|].
    apply (initial_heap_lookup (mCurrFrameResourceIndex a) (Z.of_nat k) ObjectBuffer); lia.
Qed.


(** * Further properties *)

(** ** Frames in flight *)

Lemma signals_after_S (c : N) (n : nat) :
  signals_after c (S n) = (c + 1)%N :: signals_after (c + 1) n.
Proof.
  unfold signals_after. cbn [seq map]. f_equal; [lia|].
  rewrite <- seq_shift, map_map. apply map_ext. intros i. lia.
Qed.

Lemma signals_after_snoc (c : N) (n : nat) :
  signals_after c (S n) = signals_after c n ++ [(c + 1 + N.of_nat n)%N].
Proof. unfold signals_after. rewrite seq_S, map_app. reflexivity. Qed.

Lemma signals_after_above (c : N) (n : nat) (v : N) :
  v ∈ signals_after c n -> (c < v <= c + N.of_nat n)%N.
Proof.
  unfold signals_after. intros Hv.
  apply list_elem_of_fmap in Hv as (i & -> & Hi).
  apply list_elem_of_In, in_seq in Hi. lia.
Qed.

Lemma queue_upto_in_flight (c : N) (g : Gpu) :
  queue_upto c g -> in_flight g = Z.of_N c - Z.of_N (Completed g).
Proof.
  intros [Hle Hp]. unfold in_flight. rewrite Hp. unfold signals_after.
  rewrite length_map, length_seq. lia.
Qed.

Lemma queue_upto_step (c : N) (g : Gpu) :
  queue_upto c g ->
  queue_upto c (gpu_step g) /\ (Completed g <= Completed (gpu_step g))%N.
Proof.
  destruct g as [completed pending]. unfold queue_upto, gpu_step.
  cbn [Completed Pending]. intros [Hle ->].
  destruct (N.to_nat (c - completed)) as [|n] eqn:Hn.
  - cbn [signals_after seq map Completed Pending]. rewrite Hn.
    split; [split|]; [assumption|reflexivity|lia].
  - rewrite signals_after_S. cbn [Completed Pending]. split; [split|]; [lia| |lia].
    f_equal. lia.
Qed.

Lemma queue_upto_steps (k : nat) (c : N) (g : Gpu) :
  queue_upto c g ->
  queue_upto c (gpu_steps k g) /\ (Completed g <= Completed (gpu_steps k g))%N.
Proof.
  revert g. induction k as [|k IH]; intros g H; simpl; [split; [assumption|lia]|].
  destruct (queue_upto_step c g H) as [H1 Hle].
  destruct (IH _ H1) as [H2 Hle2]. split; [assumption|lia].
Qed.

Lemma wait_pending_queue (c fence : N) (n : nat) :
  forall completed g',
    (completed + N.of_nat n = c)%N ->
    wait_pending fence completed (signals_after completed n) = Some g' ->
    queue_upto c g' /\ (completed <= Completed g')%N.
Proof.
  induction n as [|n IH]; intros completed g' Hc E.
  - cbn [signals_after seq map wait_pending] in E.
    destruct (fence <=? completed)%N; [|discriminate].
    inversion E; subst g'. unfold queue_upto. cbn [Completed Pending].
    split; [split|]; [lia| |lia].
    replace (N.to_nat (c - completed)) with 0%nat by lia. reflexivity.
  - rewrite signals_after_S in E. cbn [wait_pending] in E.
    destruct (fence <=? completed)%N.
    + inversion E; subst g'. unfold queue_upto. cbn [Completed Pending].
      split; [split|]; [lia| |lia].
      replace (N.to_nat (c - completed)) with (S n) by lia.
      symmetry. apply signals_after_S.
    + apply IH in E as [H1 H2]; [|lia]. split; [assumption|lia].
Qed.

Lemma queue_upto_wait (c fence : N) (g g' : Gpu) :
  queue_upto c g -> WaitForFence fence g = Some g' ->
  queue_upto c g' /\ (Completed g <= Completed g')%N.
Proof.
  intros [Hle Hp] E. unfold WaitForFence in E. rewrite Hp in E.
  eapply wait_pending_queue; [|exact E]. lia.
Qed.

Lemma queue_upto_Signal (c : N) (g : Gpu) :
  queue_upto c g -> queue_upto (c + 1) (Signal (c + 1) g).
Proof.
  intros [Hle Hp]. unfold Signal, queue_upto. cbn [Completed Pending].
  split; [lia|].
  replace (N.to_nat (c + 1 - Completed g)) with (S (N.to_nat (c - Completed g))) by lia.
  rewrite signals_after_snoc, <- Hp. do 2 f_equal. lia.
Qed.

Lemma in_flight_Signal (v : N) (g : Gpu) : in_flight (Signal v g) = in_flight g + 1.
Proof. unfold in_flight, Signal. cbn. rewrite length_app. cbn. lia. Qed.

(** The ages of the frame resources across [Update] and [Draw]. *)
Lemma age_selected (a : ShapesApp (dx:=dx)) :
  WF a -> age BeforeUpdate a (Z.to_nat (next_index a)) = 2.
Proof.
  intros Hwf. unfold age.
  destruct (next_index_cases a Hwf) as [[-> ->]|[[-> ->]|[-> ->]]]; reflexivity.
Qed.

Lemma age_across_Update (a : ShapesApp (dx:=dx)) (j : nat) :
  WF a -> (j < 3)%nat ->
  (next_index a - 1 - Z.of_nat j) mod 3 = age BeforeUpdate a j.
Proof.
  intros Hwf Hj. unfold age.
  destruct (next_index_cases a Hwf) as [[-> ->]|[[-> ->]|[-> ->]]];
    destruct j as [|[|[|j]]]; try lia; reflexivity.
Qed.

Lemma age_across_Draw (a : ShapesApp (dx:=dx)) (j : nat) :
  WF a -> (j < 3)%nat ->
  age BeforeUpdate a j
  = if decide (j = Z.to_nat (mCurrFrameResourceIndex a)) then 0
    else age BeforeDraw a j + 1.
Proof.
  intros Hwf Hj. unfold age. destruct (wf_index a Hwf) as [H0 H3].
  assert (H : mCurrFrameResourceIndex a = 0 \/ mCurrFrameResourceIndex a = 1
              \/ mCurrFrameResourceIndex a = 2) by lia.
  destruct H as [-> | [-> | ->]]; destruct j as [|[|[|j]]]; try lia; reflexivity.
Qed.

Lemma age_range (ph : Phase) (a : ShapesApp (dx:=dx)) (j : nat) : 0 <= age ph a j < 3.
Proof. unfold age. destruct ph; apply Z.mod_pos_bound; lia. Qed.

(** Every state of a run satisfies the pipeline invariant. *)
Lemma reachable_Pipeline (ph : Phase) (a : ShapesApp (dx:=dx)) (g : Gpu) :
  reachable ph a g -> Pipeline ph a g.
Proof.
  intros Hr.
  induction Hr as [c0 a E|ph a g Hr IH|ph a g k w Hr IH
                  |a g pc a' g' w Hr IH E|a g a' g' cmds Hr IH E].
  - rewrite Initialize_eq in E. inversion E; subst.
    assert (Hq : queue_upto c0 (gpu_init c0)).
    { unfold queue_upto, gpu_init. cbn [Completed Pending]. split; [lia|].
      replace (N.to_nat (c0 - c0)) with 0%nat by lia. reflexivity. }
    constructor.
    + exact Hq.
    + intros j fr _ _. unfold in_flight, gpu_init. cbn [Pending length].
      pose proof (age_range BeforeUpdate (initial_app c0) j). lia.
    + intros j fr Hj Hne. exfalso. apply Hne.
      destruct j as [|[|[|j]]]; cbn in Hj; inversion Hj; reflexivity.
    + unfold in_flight, flight_limit, gpu_init. cbn [Pending length]. lia.
  - destruct IH as [Hq Hf Hs Hl].
    destruct (queue_upto_step _ _ Hq) as [Hq' Hle].
    pose proof (queue_upto_in_flight _ _ Hq) as H1.
    pose proof (queue_upto_in_flight _ _ Hq') as H2.
    constructor.
    + exact Hq'.
    + intros j fr Hj Hz. specialize (Hf j fr Hj Hz). lia.
    + exact Hs.
    + lia.
  - destruct IH as [Hq Hf Hs Hl].
    constructor; assumption.
  - destruct IH as [Hq Hf Hs Hl].
    pose proof (reachable_WF _ _ _ Hr) as Hwf.
    apply Update_inv in E as (fr & cb & pcb & Hi & Hfr & Hw & Hg & _ & _ & ->).
    assert (Hlt : (Z.to_nat (next_index a) < length (mFrameResources a))%nat)
      by (eapply lookup_lt_Some; eauto).
    assert (Hq' : queue_upto (mCurrentFence a) g' /\ (Completed g <= Completed g')%N).
    { destruct w.
      - eapply queue_upto_wait; eauto.
      - subst g'. split; [assumption|lia]. }
    destruct Hq' as [Hq' Hle].
    pose proof (queue_upto_in_flight _ _ Hq) as H1.
    pose proof (queue_upto_in_flight _ _ Hq') as H2.
    assert (Hold : forall j fr', mFrameResources
                     (after_Update a (next_index a) fr cb pcb) !! j = Some fr' ->
                   (j < 3)%nat /\
                   exists fr0, mFrameResources a !! j = Some fr0 /\ Fence fr' = Fence fr0).
    { intros j fr' Hj. cbn in Hj. split.
      - apply lookup_lt_Some in Hj. rewrite length_insert, (wf_frames a Hwf) in Hj. lia.
      - destruct (decide (j = Z.to_nat (next_index a))) as [->|Hne].
        + rewrite list_lookup_insert_eq in Hj by assumption.
          inversion Hj; subst. eauto.
        + rewrite list_lookup_insert_ne in Hj by auto. eauto. }
    constructor.
    + exact Hq'.
    + intros j fr' Hj Hz. destruct (Hold j fr' Hj) as (Hj3 & fr0 & Hj0 & HF).
      cbn. rewrite (age_across_Update a j Hwf Hj3).
      rewrite HF in Hz. specialize (Hf j fr0 Hj0 Hz). lia.
    + intros j fr' Hj Hnz. destruct (Hold j fr' Hj) as (Hj3 & fr0 & Hj0 & HF).
      cbn. rewrite (age_across_Update a j Hwf Hj3).
      rewrite HF in *. exact (Hs j fr0 Hj0 Hnz).
    + cbn. pose proof (age_selected a Hwf) as Hage.
      destruct (N.eq_dec (Fence fr) 0%N) as [Hz|Hnz].
      * specialize (Hf _ fr Hfr Hz). lia.
      * specialize (Hs _ fr Hfr Hnz). rewrite Hage in Hs.
        destruct w.
        -- apply WaitForFence_inv in Hg as [Hge _]. lia.
        -- symmetry in Hw. apply must_wait_false in Hw as [Hw|Hw]; [contradiction|].
           unfold GetCompletedValue in Hw. lia.
  - destruct IH as [Hq Hf Hs Hl].
    pose proof (reachable_WF _ _ _ Hr) as Hwf.
    apply Draw_inv in E as (p & fr & Hp & Hfr & -> & -> & _); [|assumption].
    pose proof (wf_current a Hwf p Hp) as Hpi.
    assert (Hlt : (p < length (mFrameResources a))%nat) by (eapply lookup_lt_Some; eauto).
    pose proof (queue_upto_Signal _ _ Hq) as Hq'.
    pose proof (in_flight_Signal (mCurrentFence a + 1) g) as Hin.
    constructor.
    + exact Hq'.
    + intros j fr' Hj Hz. cbn in Hj.
      assert (Hj3 : (j < 3)%nat).
      { apply lookup_lt_Some in Hj. rewrite length_insert, (wf_frames a Hwf) in Hj. lia. }
      destruct (decide (j = p)) as [->|Hne].
      * rewrite list_lookup_insert_eq in Hj by assumption.
        inversion Hj; subst. cbn in Hz. lia.
      * rewrite list_lookup_insert_ne in Hj by auto.
        specialize (Hf j fr' Hj Hz).
        change (age BeforeUpdate (after_Draw a p fr) j) with (age BeforeUpdate a j).
        rewrite (age_across_Draw a j Hwf Hj3), <- Hpi.
        destruct (decide (j = p)); [contradiction|]. lia.
    + intros j fr' Hj Hnz. cbn in Hj.
      assert (Hj3 : (j < 3)%nat).
      { apply lookup_lt_Some in Hj. rewrite length_insert, (wf_frames a Hwf) in Hj. lia. }
      change (age BeforeUpdate (after_Draw a p fr) j) with (age BeforeUpdate a j).
      rewrite (age_across_Draw a j Hwf Hj3), <- Hpi. cbn [mCurrentFence after_Draw].
      destruct (decide (j = p)) as [->|Hne].
      * rewrite list_lookup_insert_eq in Hj by assumption.
        inversion Hj; subst. cbn. lia.
      * rewrite list_lookup_insert_ne in Hj by auto.
        specialize (Hs j fr' Hj Hnz). lia.
    + cbn in *. lia.
Qed.

(** X1 (frames in flight).  In every state of a run the GPU queue holds
    exactly the fence values after the completed one up to the CPU
    counter, in order; so the number of queued signals is the distance
    between [mCurrentFence] and the completed value.  It is at most 3 when
    [Update] is next and at most 2 when [Draw] is next: the CPU never gets
    more than three frames ahead of the GPU. *)
Theorem frames_in_flight_bounded (ph : Phase) (a : ShapesApp (dx:=dx)) (g : Gpu) :
  reachable ph a g ->
  (Completed g <= mCurrentFence a)%N /\
  Pending g = signals_after (Completed g) (length (Pending g)) /\
  Z.of_nat (length (Pending g)) = Z.of_N (mCurrentFence a) - Z.of_N (Completed g) /\
  (length (Pending g) <= match ph with BeforeUpdate => 3 | BeforeDraw => 2 end)%nat.
Proof.
  intros Hr. destruct (reachable_Pipeline _ _ _ Hr) as [Hq _ _ Hl].
  pose proof (queue_upto_in_flight _ _ Hq) as Hin. unfold in_flight in *.
  destruct Hq as [Hle Hp].
  split; [exact Hle|]. split; [|split; [exact Hin|]].
  - rewrite Hp at 1. f_equal. lia.
  - destruct ph; cbn in Hl; lia.
Qed.

(** X2 (queued work is newer).  When [Update] has selected a frame
    resource and gets to write its arenas, every signal still in the GPU
    queue carries a fence value above the [Fence] of that resource: the
    GPU has retired the signal that followed the last frame drawn from
    it. *)
Theorem queued_work_is_newer (a : ShapesApp (dx:=dx)) (g : Gpu) (pc : PassConstants dx) :
  reachable BeforeUpdate a g ->
  exists fr a' g' w,
    mFrameResources a !! Z.to_nat (next_index a) = Some fr /\
    Update pc a g = Some (a', g', w) /\
    (forall v, v ∈ Pending g' -> (Fence fr < v)%N) /\
    Fence fr ∉ Pending g'.
Proof.
  intros Hr.
  destruct (reachable_Update_Some a g pc Hr) as [[[a' g'] w] E].
  pose proof (reach_update _ _ _ _ _ _ Hr E) as Hr'.
  destruct (reachable_Pipeline _ _ _ Hr') as [[Hle Hp] _ _ _].
  pose proof E as E'.
  apply Update_inv in E' as (fr & cb & pcb & Hi & Hfr & Hw & Hg & _ & _ & _).
  assert (Hdone : Fence fr = 0%N \/ (Fence fr <= Completed g')%N).
  { destruct w.
    - apply WaitForFence_inv in Hg as [Hge _]. now right.
    - subst g'. symmetry in Hw. now apply must_wait_false in Hw. }
  assert (Hnew : forall v, v ∈ Pending g' -> (Fence fr < v)%N).
  { intros v Hv. rewrite Hp in Hv. apply signals_after_above in Hv. lia. }
  exists fr, a', g', w. split; [exact Hfr|]. split; [exact E|]. split; [exact Hnew|].
  intros Hin. apply Hnew in Hin. lia.
Qed.

(** ** The order of the frame resources *)

Lemma produced_schedule (c0 : N) (outs : list FrameOutput) (a : ShapesApp (dx:=dx))
    (g : Gpu) :
  produced c0 outs a g ->
  mCurrFrameResourceIndex a = Z.of_nat (length outs) mod 3 /\
  (forall i o, outs !! i = Some o -> Z.of_nat (retired o) = (Z.of_nat i + 1) mod 3).
Proof.
  induction 1 as [a E|outs a g inp a' g' out Hp (IHi & IHr) EF].
  - rewrite Initialize_eq in E. inversion E; subst. cbn.
    split; [reflexivity|]. intros i o Hi. discriminate.
  - pose proof (reachable_WF _ _ _ (produced_reachable _ _ _ _ Hp)) as Hwf.
    destruct (Frame_fences _ _ _ _ _ _ Hwf EF) as (_ & Hidx & Hret & _).
    pose proof (next_index_range a Hwf) as Hn.
    assert (Hnext : next_index a = (Z.of_nat (length outs) + 1) mod 3).
    { unfold next_index, gNumFrameResources in *. rewrite IHi in *.
      rewrite Z.rem_mod_nonneg by (Z.div_mod_to_equations; lia).
      Z.div_mod_to_equations. lia. }
    rewrite length_app. cbn [length]. split.
    + rewrite Hidx, Hnext. f_equal. lia.
    + intros i o Hi. apply lookup_app_Some in Hi as [Hi|[Hge Hi]]; [now apply IHr|].
      destruct (i - length outs)%nat as [|?] eqn:Hd; [|discriminate].
      cbn in Hi. inversion Hi; subst o.
      assert (i = length outs) by lia. subst i.
      rewrite Hret, Z2Nat.id by lia. exact Hnext.
Qed.

(** X3 (round-robin schedule).  From the state [Initialize] builds, frame
    number [i] (counting from 0) writes and retires frame resource
    [(i + 1) mod 3], so a frame resource comes round again exactly every
    third frame, and after [n] frames [mCurrFrameResourceIndex] is
    [n mod 3]. *)
Theorem round_robin_schedule (c0 : N) (a : ShapesApp (dx:=dx)) (inps : list FrameInput) :
  Initialize c0 = Some a ->
  exists a' g' outs,
    Frames inps (a, gpu_init c0) = Some (a', g', outs) /\
    mCurrFrameResourceIndex a' = Z.of_nat (length inps) mod 3 /\
    (forall i o, outs !! i = Some o -> Z.of_nat (retired o) = (Z.of_nat i + 1) mod 3) /\
    (forall i o o', outs !! i = Some o -> outs !! (i + 3)%nat = Some o' ->
                    retired o' = retired o) /\
    (forall i o o', outs !! i = Some o -> outs !! (i + 1)%nat = Some o' ->
                    retired o' <> retired o).
Proof.
  intros E.
  assert (Hp0 : produced c0 [] a (gpu_init c0)) by now constructor.
  destruct (reachable_Frames_Some inps a (gpu_init c0)) as [[[a' g'] outs] EF];
    [now constructor|].
  pose proof (Frames_produced _ _ _ _ _ _ _ _ Hp0 EF) as Hp. cbn [app] in Hp.
  destruct (produced_schedule _ _ _ _ Hp) as (Hi & Hr).
  exists a', g', outs. split; [exact EF|].
  rewrite (Frames_length _ _ _ _ EF) in Hi. split; [exact Hi|]. split; [exact Hr|].
  split.
  - intros i o o' Ho Ho'. apply Hr in Ho. apply Hr in Ho'.
    apply Nat2Z.inj. rewrite Ho, Ho'. Z.div_mod_to_equations. lia.
  - intros i o o' Ho Ho' Heq. apply Hr in Ho. apply Hr in Ho'.
    rewrite Heq in Ho'. rewrite Ho in Ho'. Z.div_mod_to_equations. lia.
Qed.

(** ** What a frame writes and records *)

Lemma Frame_commands (inp : FrameInput) (a a' : ShapesApp (dx:=dx)) (g g' : Gpu)
    (out : FrameOutput) :
  WF a -> Frame inp (a, g) = Some (a', g', out) ->
  commands out = SetGraphicsRootDescriptorTable 1 (passCbvIndex a')
                   :: concat (map (item_commands a') (mAllRitems a')).
Proof.
  intros Hwf EF. pose proof EF as EF'.
  apply Frame_inv in EF' as (a1 & g1 & cmds & p & fr & EU & ED & _ & _ & Hout).
  pose proof (WF_Update _ _ _ _ _ _ Hwf EU) as Hwf1.
  apply Draw_inv in ED as (p' & fr' & _ & _ & -> & _ & ->); [|assumption].
  rewrite Hout. reflexivity.
Qed.

Lemma concat_pairs_lookup {A B} (f h : A -> B) (l : list A) :
  forall k x,
    l !! k = Some x ->
    concat (map (fun y => [f y; h y]) l) !! (2 * k)%nat = Some (f x) /\
    concat (map (fun y => [f y; h y]) l) !! (1 + 2 * k)%nat = Some (h x).
Proof.
  induction l as [|y l IH]; intros k x Hk; [discriminate|].
  destruct k as [|k].
  - cbn in Hk. inversion Hk; subst. split; reflexivity.
  - cbn in Hk. replace (2 * S k)%nat with (S (S (2 * k))) by lia.
    replace (1 + S (S (2 * k)))%nat with (S (S (1 + 2 * k))) by lia.
    cbn [map concat app]. cbn [lookup list_lookup]. now apply IH.
Qed.

Lemma lookup_cons_S {A} (x : A) (l : list A) (n : nat) : (x :: l) !! S n = l !! n.
Proof. reflexivity. Qed.

Lemma concat_pairs_length {A B} (f h : A -> B) (l : list A) :
  length (concat (map (fun y => [f y; h y]) l)) = (2 * length l)%nat.
Proof. induction l as [|y l IH]; [reflexivity|]. cbn [map concat app length]. lia. Qed.

Lemma UpdateObjectCBs_items_clean (items : list RItem) :
  forall (cb cb' : ObjCB) items',
    UpdateObjectCBs_items cb items = Some (cb', items') ->
    (forall e, e ∈ items -> NumFramesDirty e <= 0) ->
    cb' = cb /\ items' = items.
Proof.
  induction items as [|e rest IH]; intros cb cb' items' E Hc; simpl in E.
  - inversion E. auto.
  - assert (He : NumFramesDirty e <= 0) by (apply Hc; left).
    destruct (Z.ltb_spec 0 (NumFramesDirty e)); [lia|].
    destruct (UpdateObjectCBs_items cb rest) as [[cb2 rest2]|] eqn:ER; [|discriminate].
    simpl in E. inversion E; subst.
    destruct (IH _ _ _ ER) as [-> ->]; [|auto].
    intros e' He'. apply Hc. now right.
Qed.


(** X5 (clean items are skipped).  [Update] does not touch an item whose
    [NumFramesDirty] is 0: the item stays as it is and the record at its
    position is the same before and after in every object arena.  When no
    item is dirty, [Update] leaves [mAllRitems] and all object arenas
    unchanged. *)
Theorem clean_items_are_skipped (a : ShapesApp (dx:=dx)) (g : Gpu) (pc : PassConstants dx) :
  reachable BeforeUpdate a g ->
  exists a' g' w,
    Update pc a g = Some (a', g', w) /\
    (forall k e, mAllRitems a !! k = Some e -> NumFramesDirty e = 0 ->
       mAllRitems a' !! k = Some e /\
       forall j fr, mFrameResources a !! j = Some fr ->
         exists fr', mFrameResources a' !! j = Some fr' /\
                     record_at (ObjectCB fr') (ObjCBIndex e)
                     = record_at (ObjectCB fr) (ObjCBIndex e)) /\
    ((forall e, e ∈ mAllRitems a -> NumFramesDirty e = 0) ->
       mAllRitems a' = mAllRitems a /\
       forall j fr, mFrameResources a !! j = Some fr ->
         exists fr', mFrameResources a' !! j = Some fr' /\ ObjectCB fr' = ObjectCB fr).
Proof.
  intros Hr. pose proof (reachable_WF _ _ _ Hr) as Hwf.
  destruct (reachable_Update_Some a g pc Hr) as [[[a' g'] w] E].
  exists a', g', w. split; [exact E|].
  apply Update_inv in E as (fr0 & cb & pcb & _ & Hfr0 & _ & _ & HI & _ & ->).
  assert (Hlt : (Z.to_nat (next_index a) < length (mFrameResources a))%nat)
    by (eapply lookup_lt_Some; eauto).
  split.
  - intros k e Hk Hd. split.
    + cbn -[dirty_step]. rewrite list_lookup_fmap, Hk. cbn -[dirty_step].
      unfold dirty_step. rewrite Hd. reflexivity.
    + intros j fr Hj. cbn.
      destruct (decide (j = Z.to_nat (next_index a))) as [->|Hne].
      * rewrite list_lookup_insert_eq by exact Hlt.
        eexists. split; [reflexivity|]. cbn.
        rewrite Hfr0 in Hj. inversion Hj; subst fr0.
        rewrite (wf_slot a Hwf k e Hk).
        rewrite (UpdateObjectCBs_items_at a _ _ _ k e Hwf Hk HI), Hd. reflexivity.
      * rewrite list_lookup_insert_ne by congruence.
        eauto.
  - intros Hclean.
    destruct (UpdateObjectCBs_items_clean _ _ _ _ HI) as [-> Hitems].
    { intros e He. rewrite (Hclean e He). lia. }
    split; [cbn -[dirty_step]; now rewrite Hitems|].
    intros j fr Hj. cbn.
    destruct (decide (j = Z.to_nat (next_index a))) as [->|Hne].
    + rewrite list_lookup_insert_eq by exact Hlt.
      eexists. split; [reflexivity|]. cbn.
      rewrite Hfr0 in Hj. now inversion Hj.
    + rewrite list_lookup_insert_ne by congruence.
      eauto.
Qed.

(** X6 (the dirty counter after any number of frames).  After [n] frames
    in a row in which no transform is changed, an item whose counter was
    [d] has the counter [max 0 (d - n)] and the same [World] and
    [ObjCBIndex]; the frames never fail, the items keep their places and
    none is added or removed. *)
Theorem dirty_counters_after_frames (a : ShapesApp (dx:=dx)) (g : Gpu)
    (inps : list FrameInput) :
  reachable BeforeUpdate a g ->
  exists a' g' outs,
    Frames inps (a, g) = Some (a', g', outs) /\
    length (mAllRitems a') = length (mAllRitems a) /\
    forall k e, mAllRitems a !! k = Some e ->
      exists e', mAllRitems a' !! k = Some e' /\
                 World e' = World e /\ ObjCBIndex e' = ObjCBIndex e /\
                 NumFramesDirty e' = Z.max 0 (NumFramesDirty e - Z.of_nat (length inps)).
Proof.
  intros Hr. pose proof (reachable_WF _ _ _ Hr) as Hwf.
  destruct (reachable_Frames_Some inps a g Hr) as [[[a' g'] outs] EF].
  exists a', g', outs. split; [exact EF|]. split.
  - pose proof (reachable_WF _ _ _ (reachable_Frames _ _ _ _ _ _ Hr EF)) as Hwf'.
    rewrite (wf_count a Hwf), (wf_count a' Hwf'). reflexivity.
  - intros k e Hk. eapply Frames_item; eauto.
Qed.


(** ** Building the descriptor heap *)

Lemma for_opt_S {S} (n : nat) (body : Z -> S -> option S) (s : S) :
  for_opt (Z.of_nat (Datatypes.S n)) body s
  = for_opt (Z.of_nat n) body s ≫= body (Z.of_nat n).
Proof.
  unfold for_opt. rewrite seqZ_S, foldl_app. reflexivity.
Qed.

(** A loop that writes the descriptors [base], [base + 1], ... of a heap
    whose descriptors from [base] on are still unwritten. *)
Lemma fill_descriptors (v : Z -> CBVDesc)
    (body : Z -> list (option CBVDesc) -> option (list (option CBVDesc)))
    (pre : list (option CBVDesc)) :
  forall (n r : nat),
    (forall i h, 0 <= i < Z.of_nat n ->
       body i h = CreateConstantBufferView (v i) (Z.of_nat (length pre) + i) h) ->
    for_opt (Z.of_nat n) body (pre ++ replicate (n + r) None)
    = Some (pre ++ map (fun i => Some (v i)) (seqZ 0 (Z.of_nat n)) ++ replicate r None).
Proof.
  induction n as [|n IH]; intros r Hb.
  - reflexivity.
  - rewrite for_opt_S.
    replace (S n + r)%nat with (n + S r)%nat by lia.
    rewrite IH by (intros; apply Hb; lia).
    cbn [mbind option_bind]. rewrite Hb by lia.
    unfold CreateConstantBufferView.
    set (blk := map _ (seqZ 0 (Z.of_nat n))).
    assert (Hlen : length blk = n) by (unfold blk; rewrite length_map, length_seqZ; lia).
    rewrite !length_app, length_replicate, Hlen.
    destruct (Z.leb_spec 0 (Z.of_nat (length pre) + Z.of_nat n)); [|lia].
    destruct (Z.ltb_spec (Z.of_nat (length pre) + Z.of_nat n)
                (Z.of_nat (length pre + (n + S r)))); [|lia].
    cbn [andb]. f_equal.
    replace (Z.to_nat (Z.of_nat (length pre) + Z.of_nat n))
      with (length pre + (length blk + 0))%nat by lia.
    rewrite !insert_app_r. cbn [replicate insert list_insert].
    rewrite seqZ_S, map_app, <- app_assoc. reflexivity.
Qed.

Lemma lookup_app_offset {A} (l1 l2 : list A) (k j : nat) :
  k = (length l1 + j)%nat -> (l1 ++ l2) !! k = l2 !! j.
Proof.
  intros ->. rewrite lookup_app_r by lia. f_equal. lia.
Qed.

Lemma lookup_view_block {B} (v : Z -> B) (n i : Z) :
  0 <= i < n ->
  map (fun i => Some (v i)) (seqZ 0 n) !! Z.to_nat i = Some (Some (v i)).
Proof.
  intros Hi. rewrite list_lookup_fmap, lookup_seqZ_lt by lia.
  cbn. rewrite Z2Nat.id by lia. reflexivity.
Qed.

Lemma bind_None_r {A B} (x : option A) (f : A -> option B) :
  (forall y, f y = None) -> x ≫= f = None.
Proof. intros Hf. destruct x; [apply Hf|reflexivity]. Qed.

Lemma bind_None_l {A B} (x : option A) (f : A -> option B) :
  x = None -> x ≫= f = None.
Proof. intros ->. reflexivity. Qed.

Lemma object_views_block (frames : list (FrameResource (dx:=dx))) (f : Z) (m r : nat)
    (pre : list (option CBVDesc)) :
  is_Some (at_index frames f) ->
  0 <= f -> Z.of_nat (length pre) = f * Z.of_nat m ->
  f * Z.of_nat m + Z.of_nat m <= 2 ^ 31 ->
  (at_index frames f ≫= fun _ =>
     for_opt (Z.of_nat m)
       (fun i heap' =>
          CreateConstantBufferView
            {| BufferLocation :=
                 {| AddrFrame := f; AddrKind := ObjectBuffer;
                    AddrOffset := element_offset i (objCBByteSize dx) |};
               SizeInBytes := objCBByteSize dx |}
            (heapIndex_object f (Z.of_nat m) i) heap')
       (pre ++ replicate (m + r) None))
  = Some (pre ++ map (fun i => Some (object_view (dx:=dx) f i)) (seqZ 0 (Z.of_nat m))
              ++ replicate r None).
Proof.
  intros [x ->] Hf Hpre Hfit. cbn [mbind option_bind].
  apply fill_descriptors. intros i h Hi.
  unfold heapIndex_object. rewrite to_int_uint32_small by lia.
  rewrite Hpre. reflexivity.
Qed.

Lemma pass_views_block (frames : list (FrameResource (dx:=dx))) (off : Z)
    (pre : list (option CBVDesc)) :
  (forall f, 0 <= f < 3 -> is_Some (at_index frames f)) ->
  Z.of_nat (length pre) = off -> off + 3 <= 2 ^ 31 ->
  for_opt 3
    (fun frameIndex heap =>
       at_index frames frameIndex ≫= fun _ =>
         CreateConstantBufferView
           {| BufferLocation :=
                {| AddrFrame := frameIndex; AddrKind := PassBuffer; AddrOffset := 0 |};
              SizeInBytes := passCBByteSize dx |}
           (heapIndex_pass off frameIndex) heap)
    (pre ++ replicate 3 None)
  = Some (pre ++ map (fun f => Some (pass_view (dx:=dx) f)) (seqZ 0 3)).
Proof.
  intros Hat Hpre Hfit.
  pose proof (fill_descriptors (pass_view (dx:=dx))
                (fun frameIndex heap =>
                   at_index frames frameIndex ≫= fun _ =>
                     CreateConstantBufferView
                       {| BufferLocation :=
                            {| AddrFrame := frameIndex; AddrKind := PassBuffer;
                               AddrOffset := 0 |};
                          SizeInBytes := passCBByteSize dx |}
                       (heapIndex_pass off frameIndex) heap)
                pre 3 0) as F.
  change (Z.of_nat 3) with 3 in F. change (3 + 0)%nat with 3%nat in F.
  rewrite F.
  - cbn [replicate]. now rewrite app_nil_r.
  - intros i h Hi. destruct (Hat i Hi) as [x ->]. cbn [mbind option_bind].
    unfold heapIndex_pass. rewrite to_int_uint32_small by lia.
    rewrite Hpre. reflexivity.
Qed.


(** X9 (views need the frame resources).  With fewer than three frame
    resources [BuildConstantBufferViews] reads [mFrameResources] out of
    range and has no result: [BuildFrameResources] has to run first. *)
Theorem descriptor_views_need_frame_resources (a : ShapesApp (dx:=dx)) :
  (length (mFrameResources a) < 3)%nat ->
  BuildConstantBufferViews a = None.
Proof.
  intros Hlen.
  assert (Hnone : exists f, 0 <= f < 3 /\ at_index (mFrameResources a) f = None).
  { exists (Z.of_nat (length (mFrameResources a))). split; [lia|].
    rewrite at_index_nat. apply lookup_ge_None. lia. }
  destruct Hnone as (f & Hf & Hnone).
  unfold BuildConstantBufferViews. cbv zeta.
  apply bind_None_l.
  unfold for_opt, gNumFrameResources. change (seqZ 0 3) with [0; 1; 2]. cbn [foldl].
  assert (Hc : f = 0 \/ f = 1 \/ f = 2) by lia.
  destruct Hc as [-> | [-> | ->]].
  - do 2 apply bind_None_l. cbn [mbind option_bind]. rewrite Hnone. reflexivity.
  - apply bind_None_l, bind_None_r. intros h. rewrite Hnone. reflexivity.
  - apply bind_None_r. intros h. rewrite Hnone. reflexivity.
Qed.

(** ** Shape geometry *)

Lemma for_i_preserves {S} (Q : S -> Prop) (n : Z) (body : Z -> S -> S) (s : S) :
  (forall i s', Q s' -> Q (body i s')) -> Q s -> Q (for_i n body s).
Proof.
  intros Hb. unfold for_i. revert s.
  induction (seqZ 0 n) as [|i l IH]; intros s Hs; cbn; auto.
Qed.

Lemma block_preserves {S} (Q : S -> Prop) (stmts : list (S -> S)) :
  Forall (fun st => forall s, Q s -> Q (st s)) stmts ->
  forall s, Q s -> Q (block stmts s).
Proof.
  unfold block. induction 1 as [|st stmts Hst _ IH]; intros s Hs; cbn; auto.
Qed.

(** The draw arguments of every item of the scene are those of one of the
    nine names that [BuildShapeGeometry] registers. *)
Lemma initial_items_shapes (e : RItem) :
  e ∈ initial_items (dx:=dx) ->
  exists name,
    name ∈ ["box"; "grid"; "sphere"; "cylinder"; "cone"; "wedge"; "pyramid"; "prism";
            "diamond"]%string /\
    IndexCount e = SubIndexCount (DrawArgs dx name) /\
    StartIndexLocation e = SubStartIndexLocation (DrawArgs dx name) /\
    BaseVertexLocation e = SubBaseVertexLocation (DrawArgs dx name).
Proof.
  set (names := ["box"; "grid"; "sphere"; "cylinder"; "cone"; "wedge"; "pyramid"; "prism";
                 "diamond"]%string).
  set (R := fun e : RItem =>
              exists name, name ∈ names /\
                IndexCount e = SubIndexCount (DrawArgs dx name) /\
                StartIndexLocation e = SubStartIndexLocation (DrawArgs dx name) /\
                BaseVertexLocation e = SubBaseVertexLocation (DrawArgs dx name)).
  assert (Hitem : forall w shape, shape ∈ names ->
            forall s : BuildState, Forall R (snd s) -> Forall R (snd (add_item w shape s))).
  { intros w shape Hin [c all] Hall. cbn. apply Forall_app. split; [exact Hall|].
    repeat constructor. exists shape. cbn. auto. }
  assert (Hpair : forall w1 w2 shape, shape ∈ names ->
            forall s : BuildState, Forall R (snd s) -> Forall R (snd (add_pair w1 w2 shape s))).
  { intros w1 w2 shape Hin [c all] Hall. cbn. rewrite !Forall_app.
    split; [split; [exact Hall|]|]; repeat constructor; exists shape; cbn; auto. }
  assert (Hall : Forall R (initial_items (dx:=dx))).
  { unfold initial_items, BuildRenderItems_all.
    apply (block_preserves (fun s : BuildState => Forall R (snd s)));
      [|constructor].
    unfold BuildRenderItems_body.
    repeat (apply List.Forall_cons;
            [ first [ apply Hitem; unfold names; set_solver
                    | intros s Hs; apply for_i_preserves;
                      [intros i s' Hs'; apply Hpair; [unfold names; set_solver|exact Hs']
                      |exact Hs] ]
            | ]).
    apply List.Forall_nil. }
  intros He. rewrite Forall_forall in Hall. exact (Hall e He).
Qed.

Section GeometryProofs.

Context {XMFLOAT3 XMFLOAT4 : Type}.
Context (XMFLOAT4_of : Colors -> XMFLOAT4).
Context (Vertex_default : Vertex (XMFLOAT3:=XMFLOAT3) (XMFLOAT4:=XMFLOAT4)).
Context (sizeof_Vertex : Z).

Local Abbreviation Mesh := (MeshData (XMFLOAT3:=XMFLOAT3)).

Lemma uint32_small (x : Z) : 0 <= x < 2 ^ 32 -> uint32 x = x.
Proof. intros Hx. unfold uint32, UINT_modulus. apply Z.mod_small. lia. Qed.

(** A loop of [BuildShapeGeometry] fills the next [length src] places of
    the vertex buffer. *)
Lemma copy_vertices_fill (c : Colors) (src : list (GeometryGenerator_Vertex (XMFLOAT3:=XMFLOAT3))) :
  forall (pre : list Vertex) (r : nat),
    Z.of_nat (length pre + length src) < 2 ^ 32 ->
    copy_vertices XMFLOAT4_of src c
      (pre ++ replicate (length src + r) Vertex_default) (Z.of_nat (length pre))
    = Some (pre ++ map (fun v => {| Pos := Position v; Color := XMFLOAT4_of c |}) src
                ++ replicate r Vertex_default,
            Z.of_nat (length pre + length src)).
Proof.
  induction src as [|v src IH]; intros pre r Hfit.
  - cbn. do 3 f_equal. lia.
  - cbn [copy_vertices length].
    rewrite at_index_nat.
    rewrite (lookup_app_offset pre _ _ 0%nat) by lia.
    cbn [Nat.add replicate lookup list_lookup mbind option_bind].
    rewrite Nat2Z.id.
    replace (length pre) with (length pre + 0)%nat at 1 by lia.
    rewrite insert_app_r. cbn [insert list_insert].
    cbn [length] in Hfit.
    rewrite uint32_small by lia.
    replace (Z.of_nat (length pre) + 1) with (Z.of_nat (length (pre ++ [set_Color (XMFLOAT4_of c) (set_Pos (Position v) Vertex_default)]))) by (rewrite length_app; cbn; lia).
    rewrite (cons_middle _ pre), app_assoc.
    rewrite IH by (rewrite length_app; cbn [length]; lia).
    rewrite length_app. cbn [length map].
    rewrite <- app_assoc. do 2 f_equal. lia.
Qed.


Lemma copy_vertices_next (c : Colors) (src : list (GeometryGenerator_Vertex (XMFLOAT3:=XMFLOAT3)))
    (pre : list Vertex) (r : nat) (k : Z) :
  k = Z.of_nat (length pre) ->
  Z.of_nat (length pre + length src) < 2 ^ 32 ->
  copy_vertices XMFLOAT4_of src c (pre ++ replicate (length src + r) Vertex_default) k
  = Some ((pre ++ map (fun v => {| Pos := Position v; Color := XMFLOAT4_of c |}) src)
            ++ replicate r Vertex_default,
          k + Z.of_nat (length src)).
Proof.
  intros -> Hfit. rewrite copy_vertices_fill by exact Hfit.
  rewrite <- app_assoc. do 2 f_equal. lia.
Qed.

Lemma size_uint_small {A} (l : list A) :
  Z.of_nat (length l) < 2 ^ 32 -> size_uint l = Z.of_nat (length l).
Proof. intros Hl. unfold size_uint. apply uint32_small. lia. Qed.

Lemma to_int_small (x : Z) : 0 <= x < 2 ^ 31 -> to_int x = x.
Proof. intros Hx. unfold to_int, UINT_modulus. destruct (Z.ltb_spec x (2 ^ 31)); lia. Qed.

Lemma sum_list_cons (x : nat) (l : list nat) : sum_list (x :: l) = (x + sum_list l)%nat.
Proof. reflexivity. Qed.

(** The place of element [i] of part [k] in a concatenation. *)
Lemma lookup_concat_part {S B} (f : S -> list B) (n : S -> nat) (t : list S) :
  Forall (fun s => length (f s) = n s) t ->
  forall k s i,
    t !! k = Some s ->
    (i < n s)%nat ->
    concat (map f t) !! (sum_list (map n (take k t)) + i)%nat = f s !! i.
Proof.
  induction 1 as [|s0 t Hs0 _ IH]; intros k s i Hk Hi; [discriminate|].
  destruct k as [|k].
  - cbn in Hk. inversion Hk; subst. cbn. apply lookup_app_l. lia.
  - cbn in Hk. cbn [map concat take]. rewrite sum_list_cons.
    rewrite (lookup_app_offset _ _ _ (sum_list (map n (take k t)) + i)%nat)
      by (rewrite Hs0; lia).
    now apply IH.
Qed.

Lemma length_concat_parts {S B} (f : S -> list B) (n : S -> nat) (t : list S) :
  Forall (fun s => length (f s) = n s) t ->
  length (concat (map f t)) = sum_list (map n t).
Proof.
  induction 1 as [|s0 t Hs0 _ IH]; [reflexivity|].
  cbn [map concat]. rewrite sum_list_cons, length_app. lia.
Qed.

Section Nine.

Context (box grid sphere cylinder cone wedge pyramid prism diamond : Mesh).

Local Abbreviation table :=
  (shape_table box grid sphere cylinder cone wedge pyramid prism diamond).

Lemma BuildShapeGeometry_packed (mGeometries : gmap string MeshGeometry) :
  Z.of_nat (vertices_before table 9) < 2 ^ 31 ->
  Z.of_nat (indices_before table 9) < 2 ^ 32 ->
  exists geo,
    BuildShapeGeometry XMFLOAT4_of Vertex_default sizeof_Vertex
      box grid sphere cylinder cone wedge pyramid prism diamond mGeometries
    = Some (<["shapeGeo" := geo]> mGeometries) /\
    VertexBufferCPU geo
    = concat (map (fun s => map (packed_vertex XMFLOAT4_of s) (Vertices (shape_mesh s)))
                table) /\
    IndexBufferCPU geo = concat (map (fun s => GetIndices16 (shape_mesh s)) table) /\
    (forall k s, table !! k = Some s ->
       Geo_DrawArgs geo !! shape_name s
       = Some {| SubIndexCount := Z.of_nat (length (Indices32 (shape_mesh s)));
                 SubStartIndexLocation := Z.of_nat (indices_before table k);
                 SubBaseVertexLocation := Z.of_nat (vertices_before table k) |}) /\
    (forall name, is_Some (Geo_DrawArgs geo !! name) ->
                  name ∈ map shape_name table).
Proof.
  intros HV HI.
  unfold vertices_before, indices_before in HV, HI.
  cbn [shape_table take map shape_mesh] in HV, HI.
  rewrite !sum_list_cons in HV, HI. change (sum_list []) with 0%nat in HV, HI.
  unfold BuildShapeGeometry. cbv zeta.
  repeat match goal with
         | |- context [size_uint ?l] => rewrite (size_uint_small l) by lia
         end.
  repeat match goal with
         | |- context [uint32 (?x + ?y)] => rewrite (uint32_small (x + y)) by lia
         end.
  rewrite !to_int_small by lia.
  match goal with
  | |- context [replicate ?n Vertex_default] =>
      replace n
        with (length (Vertices box) + (length (Vertices grid) + (length (Vertices sphere)
              + (length (Vertices cylinder) + (length (Vertices cone)
              + (length (Vertices wedge) + (length (Vertices pyramid)
              + (length (Vertices prism) + (length (Vertices diamond) + 0)))))))))%nat
        by lia
  end.
  match goal with
  | |- context [replicate ?n Vertex_default] =>
      change (replicate n Vertex_default) with ([] ++ replicate n Vertex_default)
  end.
  do 9 (rewrite copy_vertices_next
          by (rewrite ?length_app, ?length_map; cbn [length]; lia);
        cbn [mbind option_bind]).
  eexists. split; [reflexivity|].
  cbn [VertexBufferCPU IndexBufferCPU Geo_DrawArgs].
  split; [|split; [|split]].
  - cbn [replicate shape_table map concat shape_mesh].
    rewrite ?app_nil_r, <- ?app_assoc. reflexivity.
  - cbn [shape_table map concat shape_mesh].
    rewrite ?app_nil_r, <- ?app_assoc. reflexivity.
  - intros k s Hk. unfold indices_before, vertices_before.
    do 9 (destruct k as [|k];
          [ cbn in Hk; inversion Hk; subst s; cbn [shape_name shape_mesh];
            rewrite ?lookup_insert_ne by discriminate;
            rewrite lookup_insert_eq;
            cbn [shape_table take map shape_mesh];
            rewrite ?sum_list_cons; change (sum_list []) with 0%nat;
            do 2 f_equal; lia
          | ]).
    discriminate.
  - intros name [x Hx].
    repeat (apply lookup_insert_Some in Hx as [[<- _]|[_ Hx]]; [cbn; set_solver|]).
    rewrite lookup_empty in Hx. discriminate.
Qed.


(** The layout of the packed buffers and of the draw arguments. *)
Lemma BuildShapeGeometry_layout (mGeometries : gmap string MeshGeometry) :
  Z.of_nat (vertices_before table 9) < 2 ^ 31 ->
  Z.of_nat (indices_before table 9) < 2 ^ 32 ->
  Forall (fun s => length (GetIndices16 (shape_mesh s))
                   = length (Indices32 (shape_mesh s))) table ->
  exists geo,
    BuildShapeGeometry XMFLOAT4_of Vertex_default sizeof_Vertex
      box grid sphere cylinder cone wedge pyramid prism diamond mGeometries
    = Some (<["shapeGeo" := geo]> mGeometries) /\
    length (VertexBufferCPU geo) = vertices_before table 9 /\
    length (IndexBufferCPU geo) = indices_before table 9 /\
    (forall k s, table !! k = Some s ->
       Geo_DrawArgs geo !! shape_name s
       = Some {| SubIndexCount := Z.of_nat (length (Indices32 (shape_mesh s)));
                 SubStartIndexLocation := Z.of_nat (indices_before table k);
                 SubBaseVertexLocation := Z.of_nat (vertices_before table k) |} /\
       length (GetIndices16 (shape_mesh s)) = length (Indices32 (shape_mesh s)) /\
       (forall i x, GetIndices16 (shape_mesh s) !! i = Some x ->
          IndexBufferCPU geo !! (indices_before table k + i)%nat = Some x) /\
       (forall j v, Vertices (shape_mesh s) !! j = Some v ->
          VertexBufferCPU geo !! (vertices_before table k + j)%nat
          = Some (packed_vertex XMFLOAT4_of s v))) /\
    (forall name, is_Some (Geo_DrawArgs geo !! name) -> name ∈ map shape_name table).
Proof.
  intros HV HI H16.
  destruct (BuildShapeGeometry_packed mGeometries HV HI)
    as (geo & E & EV & EI & Hsub & Hdom).
  assert (HFv : Forall (fun s => length (map (packed_vertex XMFLOAT4_of s)
                                           (Vertices (shape_mesh s)))
                                 = length (Vertices (shape_mesh s))) table)
    by (apply Forall_forall; intros s' _; apply length_map).
  exists geo. split; [exact E|]. split; [|split; [|split; [|exact Hdom]]].
  - rewrite EV, (length_concat_parts _ _ _ HFv). reflexivity.
  - rewrite EI, (length_concat_parts _ _ _ H16). reflexivity.
  - intros k s Hk. split; [apply (Hsub k s Hk)|].
    assert (Hlen : length (GetIndices16 (shape_mesh s))
                   = length (Indices32 (shape_mesh s))).
    { rewrite Forall_forall in H16. apply H16. eapply list_elem_of_lookup_2; eauto. }
    split; [exact Hlen|]. split.
    + intros i x Hi. rewrite EI. unfold indices_before.
      rewrite (lookup_concat_part _ _ table H16 k s i Hk); [exact Hi|].
      rewrite <- Hlen. eapply lookup_lt_Some; eauto.
    + intros j v Hj. rewrite EV. unfold vertices_before.
      rewrite (lookup_concat_part _ _ table HFv k s j Hk).
      * rewrite list_lookup_fmap, Hj. reflexivity.
      * eapply lookup_lt_Some; eauto.
Qed.


Lemma sum_take_S (n : Shape (XMFLOAT3:=XMFLOAT3) -> nat) (t : list Shape) :
  forall k s, t !! k = Some s ->
    sum_list (map n (take (S k) t)) = (sum_list (map n (take k t)) + n s)%nat.
Proof.
  induction t as [|s0 t IH]; intros k s Hk; [discriminate|].
  destruct k as [|k].
  - cbn in Hk. inversion Hk; subst. cbn [take map]. rewrite take_0.
    cbn [map]. rewrite !sum_list_cons. change (sum_list []) with 0%nat. lia.
  - cbn in Hk. change (take (S (S k)) (s0 :: t)) with (s0 :: take (S k) t).
    change (take (S k) (s0 :: t)) with (s0 :: take k t).
    cbn [map]. rewrite !sum_list_cons, (IH k s Hk). lia.
Qed.

Lemma sum_take_le (n : Shape (XMFLOAT3:=XMFLOAT3) -> nat) (t : list Shape) :
  forall k, (sum_list (map n (take k t)) <= sum_list (map n t))%nat.
Proof.
  induction t as [|s0 t IH]; intros k.
  - rewrite take_nil. lia.
  - destruct k as [|k]; [rewrite take_0; cbn [map]; change (sum_list []) with 0%nat; lia|].
    change (take (S k) (s0 :: t)) with (s0 :: take k t).
    cbn [map]. rewrite !sum_list_cons. specialize (IH k). lia.
Qed.



(** A loop of [BuildShapeGeometry] stays inside the vertex buffer, also
    when the [UINT] counter [k] has wrapped around. *)
Lemma copy_vertices_in_range (c : Colors)
    (src : list (GeometryGenerator_Vertex (XMFLOAT3:=XMFLOAT3))) :
  forall (vertices : list Vertex) (written : nat),
    (written + length src <= length vertices)%nat ->
    exists vertices',
      copy_vertices XMFLOAT4_of src c vertices (uint32 (Z.of_nat written))
      = Some (vertices', uint32 (Z.of_nat (written + length src))) /\
      length vertices' = length vertices.
Proof.
  induction src as [|v src IH]; intros vertices written Hfit.
  - exists vertices. cbn. split; [|reflexivity]. do 3 f_equal. lia.
  - cbn [copy_vertices length] in *.
    assert (Hk : 0 <= uint32 (Z.of_nat written) <= Z.of_nat written).
    { unfold uint32, UINT_modulus. split; [apply Z.mod_pos_bound; lia|].
      apply Z.mod_le; lia. }
    destruct (lookup_lt_is_Some_2 vertices (Z.to_nat (uint32 (Z.of_nat written))))
      as [old Hold]; [lia|].
    assert (Hat : at_index vertices (uint32 (Z.of_nat written)) = Some old)
      by (apply at_index_Some; split; [lia|exact Hold]).
    rewrite Hat. cbn [mbind option_bind].
    assert (Hs : uint32 (uint32 (Z.of_nat written) + 1) = uint32 (Z.of_nat (S written))).
    { unfold uint32, UINT_modulus. rewrite Z.add_mod_idemp_l by lia. f_equal. lia. }
    rewrite Hs.
    destruct (IH (<[Z.to_nat (uint32 (Z.of_nat written)) :=
                     set_Color (XMFLOAT4_of c) (set_Pos (Position v) old)]> vertices)
                (S written)) as (vertices' & E & Hlen).
    { rewrite length_insert. lia. }
    exists vertices'. rewrite E. split.
    + do 3 f_equal. lia.
    + rewrite Hlen. apply length_insert.
Qed.


End Nine.

End GeometryProofs.

End Proofs.

(** * Instances on the term model *)

Lemma initial_reachable :
  reachable BeforeUpdate (initial_app (dx:=TermModel.platform) 7) (gpu_init 7).
Proof. apply reach_init. vm_compute. reflexivity. Defined.

Lemma dirty_propagation_complete_witness :
  let a := initial_app (dx:=TermModel.platform) 7 in
  let g := gpu_init 7 in
  exists e,
    reachable BeforeUpdate a g /\
    mAllRitems a !! 5%nat = Some e /\
    NumFramesDirty e = gNumFrameResources /\
    (exists a' g' outs,
       Frames [TermModel.input 1; TermModel.input 2; TermModel.input 3] (a, g)
         = Some (a', g', outs) /\
       length (mFrameResources a') = 3%nat /\
       (forall fr, fr ∈ mFrameResources a' ->
          record_at (ObjectCB fr) (ObjCBIndex e)
          = Some {| ocWorld := XMMatrixTranspose (World e) |}) /\
       exists e', mAllRitems a' !! 5%nat = Some e' /\
                  World e' = World e /\ ObjCBIndex e' = ObjCBIndex e /\
                  NumFramesDirty e' = 0) /\
    (forall inps a' g' outs,
       (length inps < 3)%nat ->
       Frames inps (a, g) = Some (a', g', outs) ->
       exists e', mAllRitems a' !! 5%nat = Some e' /\
                  NumFramesDirty e' = 3 - Z.of_nat (length inps)).
Proof.
  intros a g. eexists.
  split; [exact initial_reachable|].
  split; [reflexivity|].
  split; [reflexivity|].
  apply (dirty_propagation_complete a g 5);
    [exact initial_reachable|reflexivity|reflexivity].
Defined.

(** The fourth [Update] of a run whose GPU has retired nothing. *)
Lemma no_premature_reuse_witness :
  let a := fst TermModel.after_three_frames in
  let g := snd TermModel.after_three_frames in
  reachable BeforeUpdate a g /\
  exists fr a' g' w,
    at_index (mFrameResources a) (next_index a) = Some fr /\
    Update (dx:=TermModel.platform) 4%nat a g = Some (a', g', w) /\
    (w = true <-> Fence fr <> 0%N /\ (GetCompletedValue g < Fence fr)%N) /\
    (w = true -> WaitForFence (Fence fr) g = Some g') /\
    (w = false -> g' = g) /\
    (Fence fr = 0%N \/ (Fence fr <= GetCompletedValue g')%N) /\
    mCurrFrameResource a' = Some (Z.to_nat (next_index a)) /\
    (forall j, j <> Z.to_nat (next_index a) ->
               mFrameResources a' !! j = mFrameResources a !! j) /\
    (forall g0, must_wait fr g0 = true -> WaitForFence (Fence fr) g0 = None ->
                Update (dx:=TermModel.platform) 4%nat a g0 = None).
Proof.
  intros a g.
  assert (Hr : reachable BeforeUpdate a g).
  { apply (reachable_Frames
             [TermModel.input 1; TermModel.input 2; TermModel.input 3]
             (initial_app 7) (gpu_init 7) a g
             (default [] (snd <$> Frames
                [TermModel.input 1; TermModel.input 2; TermModel.input 3]
                TermModel.start)));
      [exact initial_reachable|vm_compute; reflexivity]. }
  split; [exact Hr|].
  exact (no_premature_reuse (dx:=TermModel.platform) a g 4%nat Hr).
Defined.

Lemma descriptor_offsets_injective_witness :
  let a := initial_app (dx:=TermModel.platform) 7 in
  let M := size_uint (mOpaqueRitems a) in
  reachable BeforeUpdate a (gpu_init 7) /\
  M = Z.of_nat (length (mAllRitems a)) /\
  mPassCbvOffset a = gNumFrameResources * M /\
  Z.of_nat (length (mCbvHeap a)) = gNumFrameResources * M + gNumFrameResources /\
  (forall f s, valid_record a f ObjectBuffer s ->
     descriptor_offset a f ObjectBuffer s = f * M + s /\
     f * M <= descriptor_offset a f ObjectBuffer s < (f + 1) * M) /\
  (forall f s, valid_record a f PassBuffer s ->
     descriptor_offset a f PassBuffer s = gNumFrameResources * M + f /\
     gNumFrameResources * M <= descriptor_offset a f PassBuffer s
       < Z.of_nat (length (mCbvHeap a))) /\
  (forall f1 k1 s1 f2 k2 s2,
     valid_record a f1 k1 s1 -> valid_record a f2 k2 s2 ->
     descriptor_offset a f1 k1 s1 = descriptor_offset a f2 k2 s2 ->
     f1 = f2 /\ k1 = k2 /\ s1 = s2).
Proof.
  intros a M. split; [exact initial_reachable|].
  exact (descriptor_offsets_injective BeforeUpdate a (gpu_init 7) initial_reachable).
Defined.

(** The first [Draw] of the run binds the views of frame resource 1. *)
Lemma publish_bind_agree_witness :
  let a := fst TermModel.after_first_update in
  let g := snd TermModel.after_first_update in
  reachable BeforeDraw a g /\
  mCurrFrameResourceIndex a = 1 /\
  exists a' g' cmds,
    Draw a g = Some (a', g', cmds) /\
    cmds = SetGraphicsRootDescriptorTable 1 (passCbvIndex a)
             :: concat (map (item_commands a) (mAllRitems a)) /\
    at_index (mCbvHeap a) (passCbvIndex a)
    = Some (Some (pass_view (dx:=TermModel.platform) (mCurrFrameResourceIndex a))) /\
    (forall e, e ∈ mAllRitems a ->
       at_index (mCbvHeap a) (cbvIndex a e)
       = Some (Some (object_view (dx:=TermModel.platform)
                       (mCurrFrameResourceIndex a) (ObjCBIndex e)))).
Proof.
  intros a g.
  assert (Hr : reachable BeforeDraw a g).
  { apply (reach_update (dx:=TermModel.platform) (initial_app 7) (gpu_init 7) 1%nat
             a g false);
      [exact initial_reachable|vm_compute; reflexivity]. }
  split; [exact Hr|]. split; [reflexivity|].
  exact (proj2 (proj2 (publish_bind_agree (dx:=TermModel.platform))) a g Hr).
Defined.

Lemma priming_never_blocks_witness :
  let a := initial_app (dx:=TermModel.platform) 7 in
  let g := {| Completed := 0; Pending := [] |} in
  let inps := [TermModel.input 1; TermModel.input 2; TermModel.input 3] in
  Initialize 7 = Some a /\
  (length inps <= 3)%nat /\
  (forall fr, fr ∈ mFrameResources a -> Fence fr = 0%N) /\
  exists a' g' outs,
    Frames inps (a, g) = Some (a', g', outs) /\
    Forall (fun o => waited o = false) outs /\
    ((length inps < 3)%nat ->
     forall fr, at_index (mFrameResources a') (next_index a') = Some fr ->
                Fence fr = 0%N).
Proof.
  intros a g inps.
  assert (E : Initialize 7 = Some a) by (vm_compute; reflexivity).
  assert (L : (length inps <= 3)%nat) by (simpl; lia).
  split; [exact E|]. split; [exact L|].
  exact (priming_never_blocks 7 a g inps E L).
Defined.

Lemma writes_within_capacity_witness :
  let a := initial_app (dx:=TermModel.platform) 7 in
  let g := gpu_init 7 in
  reachable BeforeUpdate a g /\
  (forall fr, fr ∈ mFrameResources a ->
     capacity (ObjectCB fr) = size_uint (mAllRitems a) /\ capacity (PassCB fr) = 1) /\
  (forall e, e ∈ mAllRitems a -> 0 <= ObjCBIndex e < size_uint (mAllRitems a)) /\
  (forall fr, fr ∈ mFrameResources a ->
     is_Some (UpdateObjectCBs_items (ObjectCB fr) (mAllRitems a)) /\
     is_Some (CopyData 0 1%nat (PassCB fr))) /\
  is_Some (Update (dx:=TermModel.platform) 1%nat a g).
Proof.
  intros a g. split; [exact initial_reachable|].
  exact (writes_within_capacity (dx:=TermModel.platform) a g 1%nat initial_reachable).
Defined.

Lemma fence_stamps_increase_witness :
  let a := initial_app (dx:=TermModel.platform) 7 in
  let inps := [TermModel.input 1; TermModel.input_gpu 2; TermModel.input 3;
               TermModel.input_gpu 4; TermModel.input_gpu 5] in
  Initialize 7 = Some a /\
  exists a' g' outs,
    Frames inps (a, gpu_init 7) = Some (a', g', outs) /\
    length outs = length inps /\
    (forall i o, outs !! i = Some o -> stamp o = (7 + N.of_nat i + 1)%N) /\
    (forall i j oi oj, (i < j)%nat -> outs !! i = Some oi -> outs !! j = Some oj ->
                       (stamp oi < stamp oj)%N) /\
    Forall (fun o => stamp o <> 0%N) outs /\
    (forall j fr, mFrameResources a' !! j = Some fr ->
                  (Fence fr = 0%N <-> j ∉ map retired outs)).
Proof.
  intros a inps.
  assert (E : Initialize 7 = Some a) by (vm_compute; reflexivity).
  split; [exact E|].
  exact (fence_stamps_increase 7 a inps E).
Defined.

(** Item 5 was moved to [w1] one frame ago, so its counter is 2; it is
    moved again, to [w2]. *)
Lemma redirtying_converges_witness :
  let a := fst TermModel.after_move_and_frame in
  let g := snd TermModel.after_move_and_frame in
  exists e,
    reachable BeforeUpdate a g /\
    mAllRitems a !! 5%nat = Some e /\
    World e = TermModel.w1 /\
    NumFramesDirty e = 2 /\
    0 < NumFramesDirty e /\
    (exists e0, mAllRitems (SetWorld (dx:=TermModel.platform) 5 TermModel.w2 a) !! 5%nat
                = Some e0 /\
                World e0 = TermModel.w2 /\ ObjCBIndex e0 = ObjCBIndex e /\
                NumFramesDirty e0 = gNumFrameResources) /\
    (exists a' g' outs',
       Frames [TermModel.input 2; TermModel.input 3; TermModel.input 4]
         (SetWorld (dx:=TermModel.platform) 5 TermModel.w2 a, g)
       = Some (a', g', outs') /\
       length (mFrameResources a') = 3%nat /\
       (forall fr, fr ∈ mFrameResources a' ->
          record_at (ObjectCB fr) (ObjCBIndex e)
          = Some (MkObjectConstants (dx:=TermModel.platform)
                    (XMMatrixTranspose TermModel.w2))) /\
       exists e', mAllRitems a' !! 5%nat = Some e' /\
                  World e' = TermModel.w2 /\ NumFramesDirty e' = 0).
Proof.
  intros a g. eexists.
  assert (Hr : reachable BeforeUpdate a g).
  { apply (reachable_Frames [TermModel.input 1]
             (SetWorld (dx:=TermModel.platform) 5 TermModel.w1 (initial_app 7))
             (gpu_init 7) a g
             (default [] (snd <$> Frames [TermModel.input 1]
                (SetWorld (dx:=TermModel.platform) 5 TermModel.w1 (initial_app 7),
                 gpu_init 7))));
      [apply reach_set_world; exact initial_reachable|vm_compute; reflexivity]. }
  split; [exact Hr|].
  split; [reflexivity|]. split; [reflexivity|]. split; [reflexivity|].
  assert (Hd : 0 < 2) by lia.
  split; [exact Hd|].
  exact (redirtying_converges (dx:=TermModel.platform) a g 5%nat _ TermModel.w2
           (TermModel.input 2) (TermModel.input 3) (TermModel.input 4)
           Hr eq_refl Hd).
Defined.

Lemma NumFramesDirty_range_witness :
  let a := initial_app (dx:=TermModel.platform) 7 in
  exists e,
    reachable BeforeUpdate a (gpu_init 7) /\
    mAllRitems a !! 5%nat = Some e /\
    e ∈ mAllRitems a /\
    0 <= NumFramesDirty e <= 3.
Proof.
  intros a. eexists.
  split; [exact initial_reachable|].
  split; [reflexivity|].
  split; [apply (list_elem_of_lookup_2 _ 5%nat); reflexivity|].
  apply (proj1 (proj2 (proj2 (proj2 (NumFramesDirty_range (dx:=TermModel.platform)))))
           BeforeUpdate a (gpu_init 7) _ initial_reachable).
  apply (list_elem_of_lookup_2 _ 5%nat). reflexivity.
Defined.

Lemma registration_order_witness :
  exists a : ShapesApp (dx:=TermModel.platform),
    Initialize 7 = Some a /\
    mapM (fun p => mAllRitems a !! p) (mOpaqueRitems a) = Some (mAllRitems a) /\
    map ObjCBIndex (mAllRitems a) = seqZ 0 (Z.of_nat (length (mAllRitems a))) /\
    (forall k e, mAllRitems a !! k = Some e -> ObjCBIndex e = Z.of_nat k) /\
    size_uint (mOpaqueRitems a) = size_uint (mAllRitems a) /\
    length (mFrameResources a) = 3%nat /\
    (forall fr, fr ∈ mFrameResources a ->
                capacity (ObjectCB fr) = size_uint (mOpaqueRitems a) /\
                capacity (ObjectCB fr) = size_uint (mAllRitems a)).
Proof. exact (registration_order (dx:=TermModel.platform) 7). Defined.

Lemma first_update_reachable :
  reachable BeforeDraw (fst TermModel.after_first_update) (snd TermModel.after_first_update).
Proof.
  apply (reach_update (dx:=TermModel.platform) (initial_app 7) (gpu_init 7) 1%nat
           (fst TermModel.after_first_update) (snd TermModel.after_first_update) false);
    [exact initial_reachable|vm_compute; reflexivity].
Defined.

Lemma three_frames_reachable :
  reachable BeforeUpdate (fst TermModel.after_three_frames)
    (snd TermModel.after_three_frames).
Proof.
  apply (reachable_Frames
           [TermModel.input 1; TermModel.input 2; TermModel.input 3]
           (initial_app 7) (gpu_init 7)
           (fst TermModel.after_three_frames) (snd TermModel.after_three_frames)
           (default [] (snd <$> Frames
              [TermModel.input 1; TermModel.input 2; TermModel.input 3]
              TermModel.start)));
    [exact initial_reachable|vm_compute; reflexivity].
Defined.

(** Four frames from the start; the GPU retires a signal before the
    fourth. *)
Lemma round_robin_schedule_witness :
  let a := initial_app (dx:=TermModel.platform) 7 in
  let inps := [TermModel.input 1; TermModel.input 2; TermModel.input 3;
               TermModel.input_gpu 4] in
  Initialize 7 = Some a /\
  exists a' g' outs,
    Frames inps (a, gpu_init 7) = Some (a', g', outs) /\
    mCurrFrameResourceIndex a' = Z.of_nat (length inps) mod 3 /\
    (forall i o, outs !! i = Some o -> Z.of_nat (retired o) = (Z.of_nat i + 1) mod 3) /\
    (forall i o o', outs !! i = Some o -> outs !! (i + 3)%nat = Some o' ->
                    retired o' = retired o) /\
    (forall i o o', outs !! i = Some o -> outs !! (i + 1)%nat = Some o' ->
                    retired o' <> retired o).
Proof.
  intros a inps.
  assert (E : Initialize 7 = Some a) by (vm_compute; reflexivity).
  split; [exact E|].
  exact (round_robin_schedule 7 a inps E).
Defined.

(** Three frames submitted and none retired: the queue is full. *)
Lemma frames_in_flight_bounded_witness :
  let a := fst TermModel.after_three_frames in
  let g := snd TermModel.after_three_frames in
  reachable BeforeUpdate a g /\
  (Completed g <= mCurrentFence a)%N /\
  Pending g = signals_after (Completed g) (length (Pending g)) /\
  Z.of_nat (length (Pending g)) = Z.of_N (mCurrentFence a) - Z.of_N (Completed g) /\
  (length (Pending g) <= 3)%nat.
Proof.
  intros a g. split; [exact three_frames_reachable|].
  exact (frames_in_flight_bounded BeforeUpdate a g three_frames_reachable).
Defined.

(** The fourth [Update] has to wait for the first frame. *)
Lemma queued_work_is_newer_witness :
  let a := fst TermModel.after_three_frames in
  let g := snd TermModel.after_three_frames in
  reachable BeforeUpdate a g /\
  exists fr a' g' w,
    mFrameResources a !! Z.to_nat (next_index a) = Some fr /\
    Update (dx:=TermModel.platform) 4%nat a g = Some (a', g', w) /\
    (forall v, v ∈ Pending g' -> (Fence fr < v)%N) /\
    Fence fr ∉ Pending g'.
Proof.
  intros a g. split; [exact three_frames_reachable|].
  exact (queued_work_is_newer (dx:=TermModel.platform) a g 4%nat three_frames_reachable).
Defined.


(** After three frames every item is clean. *)
Lemma clean_items_are_skipped_witness :
  let a := fst TermModel.after_three_frames in
  let g := snd TermModel.after_three_frames in
  reachable BeforeUpdate a g /\
  exists a' g' w,
    Update (dx:=TermModel.platform) 4%nat a g = Some (a', g', w) /\
    (forall k e, mAllRitems a !! k = Some e -> NumFramesDirty e = 0 ->
       mAllRitems a' !! k = Some e /\
       forall j fr, mFrameResources a !! j = Some fr ->
         exists fr', mFrameResources a' !! j = Some fr' /\
                     record_at (ObjectCB fr') (ObjCBIndex e)
                     = record_at (ObjectCB fr) (ObjCBIndex e)) /\
    ((forall e, e ∈ mAllRitems a -> NumFramesDirty e = 0) ->
       mAllRitems a' = mAllRitems a /\
       forall j fr, mFrameResources a !! j = Some fr ->
         exists fr', mFrameResources a' !! j = Some fr' /\ ObjectCB fr' = ObjectCB fr).
Proof.
  intros a g. split; [exact three_frames_reachable|].
  exact (clean_items_are_skipped (dx:=TermModel.platform) a g 4%nat
           three_frames_reachable).
Defined.

Lemma dirty_counters_after_frames_witness :
  let a := initial_app (dx:=TermModel.platform) 7 in
  let g := gpu_init 7 in
  let inps := [TermModel.input 1; TermModel.input 2] in
  reachable BeforeUpdate a g /\
  exists a' g' outs,
    Frames inps (a, g) = Some (a', g', outs) /\
    length (mAllRitems a') = length (mAllRitems a) /\
    forall k e, mAllRitems a !! k = Some e ->
      exists e', mAllRitems a' !! k = Some e' /\
                 World e' = World e /\ ObjCBIndex e' = ObjCBIndex e /\
                 NumFramesDirty e' = Z.max 0 (NumFramesDirty e - Z.of_nat (length inps)).
Proof.
  intros a g inps. split; [exact initial_reachable|].
  exact (dirty_counters_after_frames a g inps initial_reachable).
Defined.



(** [BuildConstantBufferViews] before [BuildFrameResources]. *)
Lemma descriptor_views_need_frame_resources_witness :
  let a := ShapesApp_new (dx:=TermModel.platform) 0 in
  (length (mFrameResources a) < 3)%nat /\
  BuildConstantBufferViews a = None.
Proof.
  intros a.
  assert (H1 : (length (mFrameResources a) < 3)%nat) by (vm_compute; lia).
  split; [exact H1|].
  exact (descriptor_views_need_frame_resources a H1).
Defined.



